(** * nachat timeline core: event stream, block partitioner, selection resolver

    Shallow embedding of [src/TimelineView.cpp].

    Conventions.
    - C++ [int] values (cursor offsets, text sizes, text ranges) are [Z];
      the arithmetic the source performs on them is written with
      [wrap_int], the two's-complement reduction to 32 bits.
    - [std::deque] and [std::vector] are lists, front first.
    - A method that mutates its object is a function from the object to an
      [outcome]: a normal return with the new object, a C++ exception with
      the object as it was at the throw, or undefined behaviour.
    - The class declarations ([TimelineView.hpp]) and the protocol layer
      ([matrix/]) are not embedded from their own text: members and
      accessors are taken from their uses in [TimelineView.cpp] and from
      section 3 of the specification.
    - Geometry, line flow ([update_layout]), painting, fonts, avatars and
      the receivers of the Qt signals are outside the embedding; the
      outbound signals themselves are kept as a log. *)

From Stdlib Require Import ZArith NArith List String Ascii Bool Lia Permutation.
Import ListNotations.

Set Implicit Arguments.

(** ** Outcomes of C++ code *)

(** The ways the embedded code can leave the defined fragment of C++:
    undefined behaviour, or the violated precondition of a checked
    container, after which nothing is promised. *)
Inductive UB : Type :=
| DerefEndIterator     (* [*it] or [erase(it)] with [it == c.end()] *)
| DerefEmptyOptional   (* [*o] or [o->] on a disengaged optional *)
| IndexEmptySpan       (* [events[0]] on an empty [gsl::span] *)
| FrontOfEmpty.        (* [front()] of an empty container *)

Inductive outcome (S A : Type) : Type :=
| Returns (a : A) (s : S)
| Throws (what : string) (s : S)
| Undefined (why : UB).

Arguments Returns {S A} a s.
Arguments Throws {S A} what s.
Arguments Undefined {S A} why.

(** A method of an object of type [S] that returns an [A]. *)
Definition method (S A : Type) : Type := S -> outcome S A.

Definition ret {S A} (a : A) : method S A := fun s => Returns a s.

Definition bind {S A B} (m : method S A) (k : A -> method S B) : method S B :=
  fun s =>
    match m s with
    | Returns a s' => k a s'
    | Throws w s' => Throws w s'
    | Undefined u => Undefined u
    end.

Definition get {S} : method S S := fun s => Returns s s.
Definition put {S} (s : S) : method S unit := fun _ => Returns tt s.
Definition modify {S} (f : S -> S) : method S unit := fun s => Returns tt (f s).
Definition throw {S A} (what : string) : method S A := fun s => Throws what s.
Definition undefined {S A} (why : UB) : method S A := fun _ => Undefined why.

(** Run a method of a part [P] of an object [S], putting the part back. *)
Definition within {S P A} (put_back : P -> S) (o : outcome P A) : outcome S A :=
  match o with
  | Returns a p => Returns a (put_back p)
  | Throws w p => Throws w (put_back p)
  | Undefined u => Undefined u
  end.

Declare Scope method_scope.
Delimit Scope method_scope with method.
Notation "x <- m ;; k" := (bind m (fun x => k))
  (at level 100, m at next level, right associativity) : method_scope.
Notation "m ;;; k" := (bind m (fun _ => k))
  (at level 100, right associativity) : method_scope.

(** A pure expression that may be undefined: no object is involved. *)
Inductive checked (A : Type) : Type :=
| Defined_ (a : A)
| Undef (why : UB).

Arguments Defined_ {A} a.
Arguments Undef {A} why.

Definition eval {S A} (c : checked A) : method S A :=
  fun s => match c with Defined_ a => Returns a s | Undef u => Undefined u end.

(** ** C++ [int] *)

Definition INT_MAX : Z := 2147483647.
Definition wrap_int (z : Z) : Z := ((z + 2147483648) mod 4294967296 - 2147483648)%Z.
Definition int_add (a b : Z) : Z := wrap_int (a + b).
Definition int_sub (a b : Z) : Z := wrap_int (a - b).

(** ** The protocol layer ([matrix/]), as far as the timeline reads it *)

Module matrix.

Definition UserID := string.
Definition EventID := string.
Definition EventType := string.
Definition TimelineCursor := string.

(** Event payloads are JSON objects; the timeline only reads string
    members of them, so an object is an association list of strings. *)
Definition Content := list (string * string).

Definition json_get (key : string) (c : Content) : option string :=
  match find (fun kv => String.eqb (fst kv) key) c with
  | Some kv => Some (snd kv)
  | None => None
  end.

Inductive Membership : Type := INVITE | JOIN | LEAVE | BAN.

(** [matrix::event::room::MemberContent] wraps the content of a
    membership event. *)
Definition MemberContent := Content.

Definition membership (mc : MemberContent) : option Membership :=
  match json_get "membership" mc with
  | Some "invite"%string => Some INVITE
  | Some "join"%string => Some JOIN
  | Some "leave"%string => Some LEAVE
  | Some "ban"%string => Some BAN
  | _ => None
  end.

Definition displayname (mc : MemberContent) : option string := json_get "displayname" mc.
Definition avatar_url (mc : MemberContent) : option string := json_get "avatar_url" mc.

(** [MemberContent::leave]: the content of a user who is not in the room. *)
Definition MemberContent_leave : MemberContent := [("membership", "leave")]%string.

Definition Member_tag : EventType := "m.room.member"%string.
Definition Redaction_tag : EventType := "m.room.redaction"%string.
Definition Create_tag : EventType := "m.room.create"%string.
Definition Message_tag : EventType := "m.room.message"%string.
Definition Name_tag : EventType := "m.room.name"%string.

(** [unsigned_data()] of an event; the timeline reads the transaction
    token of a local echo from it. *)
Record Unsigned : Type := { transaction_id : option string }.

(** [matrix::event::Room]: a confirmed room event.  [Room_user] is what
    [room::Member::user()] reads and [Room_redacts] what
    [room::Redaction::redacts()] reads; they mean something only for
    events of those two types. *)
Record Room : Type := {
  Room_id : EventID;
  Room_sender : UserID;
  Room_origin_server_ts : Z;
  Room_type : EventType;
  Room_content : Content;
  Room_unsigned_data : option Unsigned;
  Room_user : UserID;
  Room_redacts : EventID
}.

(** [matrix::event::room::Redaction] is a room event of redaction type. *)
Definition Redaction := Room.
Definition Redaction_redacts (r : Redaction) : EventID := Room_redacts r.

(** Modelled from the spec: the redacted form of a content (section
    4.2; "content cleared", section 3).  The members of the content are
    cleared, except the one that a membership or creation event needs to
    stay a membership or creation event; which members those are does
    not matter below, only that the form is what remains of the content. *)
Definition redaction_keeps (ty : EventType) (key : string) : bool :=
  if String.eqb ty Member_tag then String.eqb key "membership"
  else if String.eqb ty Create_tag then String.eqb key "creator"
  else false.

Definition redacted_form (ty : EventType) (c : Content) : Content :=
  filter (fun kv => redaction_keeps ty (fst kv)) c.

(** Modelled from the spec: [matrix::event::Room::redact] is defined in
    the protocol layer, which is not among the sources.  Section 4.2:
    "mutate the record's underlying source content to its redacted
    form"; nothing else of the source is changed. *)
Definition Room_redact (because : Redaction) (e : Room) : Room :=
  {| Room_id := Room_id e;
     Room_sender := Room_sender e;
     Room_origin_server_ts := Room_origin_server_ts e;
     Room_type := Room_type e;
     Room_content := redacted_form (Room_type e) (Room_content e);
     Room_unsigned_data := Room_unsigned_data e;
     Room_user := Room_user e;
     Room_redacts := Room_redacts e |}.

(** [matrix::RoomState], the room-state collaborator, through the two
    queries the timeline makes. *)
Record RoomState : Type := {
  member_from_id : UserID -> option MemberContent;
  member_disambiguation : UserID -> option string
}.

End matrix.

(** ** Timestamps *)

(** Modelled from the spec: the alias [Time] is declared in
    [TimelineView.hpp], which is not among the sources; a timestamp is
    a point in time, counted here in milliseconds since the epoch, the
    unit of [origin_server_ts]. *)
Definition Time := Z.

(** [BLOCK_MERGE_INTERVAL]: [std::chrono::minutes(5)], in milliseconds. *)
Definition BLOCK_MERGE_INTERVAL : Z := 5 * 60 * 1000.

Definition to_time_point (ts : Z) : Time := ts.

(** Modelled from the spec: [TimelineEventID] and the counter
    [id_counter_] are declared in [TimelineView.hpp], which is not among
    the sources; section 3 calls the identifier "monotonically
    increasing", so it is a natural number without a bound. *)
Definition TimelineEventID := N.

(** ** Event records *)

Module EventLike.

(** [MemberInfo]: the target of a membership event and the membership
    content it had before the event. *)
Record MemberInfo : Type := {
  user : matrix.UserID;
  prev_content : matrix.MemberContent
}.

Record t : Type := {
  id : TimelineEventID;
  type : matrix.EventType;
  time : option Time;
  sender : matrix.UserID;
  redacts : option matrix.EventID;
  content : matrix.Content;
  affected_user_info : option MemberInfo;
  member_content : option matrix.MemberContent;
  disambiguation : option string;
  event : option matrix.Room
}.

Definition get_affected_user (e : matrix.Room) : option matrix.UserID :=
  if negb (String.eqb (matrix.Room_type e) matrix.Member_tag) then None
  else Some (matrix.Room_user e).

Definition get_redacts (e : matrix.Room) : option matrix.EventID :=
  if negb (String.eqb (matrix.Room_type e) matrix.Redaction_tag) then None
  else Some (matrix.Redaction_redacts e).

(** The constructor of a record without a source (a local echo). *)
Definition make (id0 : TimelineEventID) (state : matrix.RoomState)
    (sender0 : matrix.UserID) (time0 : Time) (type0 : matrix.EventType)
    (content0 : matrix.Content) (affected_user : option matrix.UserID)
    (redacts0 : option matrix.EventID) : t :=
  let info :=
    match affected_user with
    | Some u =>
        Some {| user := u;
                prev_content :=
                  match matrix.member_from_id state u with
                  | Some m => m
                  | None => matrix.MemberContent_leave
                  end |}
    | None => None
    end in
  let member := matrix.member_from_id state sender0 in
  {| id := id0;
     type := type0;
     time := Some time0;
     sender := sender0;
     redacts := redacts0;
     content := content0;
     affected_user_info := info;
     member_content := member;
     disambiguation :=
       match member with
       | Some _ => matrix.member_disambiguation state sender0
       | None => None
       end;
     event := None |}.

Definition set_event (src : matrix.Room) (e : t) : t :=
  {| id := id e; type := type e; time := time e; sender := sender e;
     redacts := redacts e; content := content e;
     affected_user_info := affected_user_info e;
     member_content := member_content e;
     disambiguation := disambiguation e;
     event := Some src |}.

(** The constructor from a confirmed event: delegates to [make], then
    keeps the event as the record's source. *)
Definition of_room (id0 : TimelineEventID) (state : matrix.RoomState)
    (real : matrix.Room) : t :=
  set_event real
    (make id0 state (matrix.Room_sender real)
       (to_time_point (matrix.Room_origin_server_ts real))
       (matrix.Room_type real) (matrix.Room_content real)
       (get_affected_user real) (get_redacts real)).

(** Whether the record has a confirmed source. *)
Definition has_event (e : t) : bool :=
  match event e with Some _ => true | None => false end.

Definition effective_profile (e : t) : option matrix.MemberContent :=
  match affected_user_info e with
  | Some info =>
      if String.eqb (user info) (sender e) then
        match matrix.membership (prev_content info) with
        | Some matrix.LEAVE | Some matrix.BAN => Some (content e)
        | _ => member_content e
        end
      else member_content e
  | None => member_content e
  end.

(** [EventLike::redact]: the redaction applicator. *)
Definition redact (because : matrix.Redaction) : method t unit :=
  fun self =>
    match event self with
    | None => Throws "tried to redact a fake event" self
    | Some src =>
        let src' := matrix.Room_redact because src in
        Returns tt
          {| id := id self; type := type self;
             time := None;
             sender := sender self; redacts := redacts self;
             content := matrix.Room_content src';
             affected_user_info := affected_user_info self;
             member_content := member_content self;
             disambiguation := disambiguation self;
             event := Some src' |}
    end.

End EventLike.

(** ** The text layout engine, as far as the selection resolver asks it *)

Module QTextLayout.

(** A layout is known here by its text.  [QString::size] is an [int]. *)
Record t : Type := { text : string }.

Definition size (l : t) : Z := Z.of_nat (String.length (text l)).

Definition char_at (l : t) (pos : Z) : option ascii :=
  if (pos <? 0)%Z then None else String.get (Z.to_nat pos) (text l).

(** Qt's character classes for word movement. *)
Definition whiteSpace (c : ascii) : bool :=
  match c with
  | " "%char | "009"%char | "010"%char | "011"%char | "012"%char | "013"%char => true
  | _ => false
  end.

Definition word_separators : string :=
  String "034"%char ".,?!@#$:;-<>[](){}=/+%&^*'`~|\"%string.

Fixpoint mem_char (c : ascii) (s : string) : bool :=
  match s with
  | EmptyString => false
  | String d s' => Ascii.eqb c d || mem_char c s'
  end.

Definition is_whiteSpace (l : t) (pos : Z) : bool :=
  match char_at l pos with Some c => whiteSpace c | None => false end.

Definition atWordSeparator (l : t) (pos : Z) : bool :=
  match char_at l pos with Some c => mem_char c word_separators | None => false end.

(** [while(pos < len && p(pos)) pos++]; the loop body runs at most
    [len] times, which is the fuel given by the callers. *)
Fixpoint advance_while (p : Z -> bool) (len : Z) (fuel : nat) (pos : Z) : Z :=
  match fuel with
  | O => pos
  | S fuel' =>
      if (pos <? len)%Z && p pos then advance_while p len fuel' (pos + 1)%Z else pos
  end.

(** [while(pos > 0 && p(pos - 1)) pos--]. *)
Fixpoint retreat_while (p : Z -> bool) (fuel : nat) (pos : Z) : Z :=
  match fuel with
  | O => pos
  | S fuel' =>
      if (0 <? pos)%Z && p (pos - 1)%Z then retreat_while p fuel' (pos - 1)%Z else pos
  end.

(** Modelled from the spec: the layout engine is an external
    collaborator (section 6: "forward/backward word-boundary queries").
    [nextCursorPosition(oldPos, QTextLayout::SkipWords)] moves past the
    rest of the word (or the run of separators) at [oldPos] and the
    white space after it; a position outside the text is returned as it
    is. *)
Definition nextCursorPosition (l : t) (oldPos : Z) : Z :=
  let len := size l in
  let fuel := String.length (text l) in
  if (oldPos <? 0)%Z || (len <=? oldPos)%Z then oldPos
  else
    let p1 :=
      if atWordSeparator l oldPos
      then advance_while (atWordSeparator l) len fuel (oldPos + 1)%Z
      else advance_while
             (fun p => negb (is_whiteSpace l p) && negb (atWordSeparator l p))
             len fuel oldPos in
    advance_while (is_whiteSpace l) len fuel p1.

(** Modelled from the spec: [previousCursorPosition(oldPos,
    QTextLayout::SkipWords)] moves back over white space and then to the
    start of the word (or the run of separators) before it; a position
    outside the text is returned as it is. *)
Definition previousCursorPosition (l : t) (oldPos : Z) : Z :=
  let len := size l in
  let fuel := String.length (text l) in
  if (oldPos <=? 0)%Z || (len <? oldPos)%Z then oldPos
  else
    let p1 := retreat_while (is_whiteSpace l) fuel oldPos in
    if (0 <? p1)%Z && atWordSeparator l (p1 - 1)%Z
    then retreat_while (atWordSeparator l) fuel (p1 - 1)%Z
    else retreat_while
           (fun p => negb (is_whiteSpace l p) && negb (atWordSeparator l p))
           fuel p1.

(** A position splits a word when the characters on both sides of it
    are word characters. *)
Definition word_char (l : t) (pos : Z) : bool :=
  match char_at l pos with
  | Some c => negb (whiteSpace c) && negb (mem_char c word_separators)
  | None => false
  end.

Definition splits_word (l : t) (pos : Z) : bool :=
  word_char l (pos - 1)%Z && word_char l pos.

End QTextLayout.

(** ** Cursors and selections *)

Module Cursor.

Inductive Type_ : Type := NAME | TIMESTAMP | BODY.

Definition Type_eqb (a b : Type_) : bool :=
  match a, b with
  | NAME, NAME | TIMESTAMP, TIMESTAMP | BODY, BODY => true
  | _, _ => false
  end.

(** Modelled from the spec: the class is declared in
    [TimelineView.hpp]; section 3 gives its members, and [cursor_in]
    reads [event()], [type()], [paragraph()] and [pos()].  A header
    cursor has paragraph 0, the default [selection_for] is called with
    for the header regions. *)
Record t : Type := {
  type : Type_;
  event : TimelineEventID;
  paragraph : N;
  pos : Z
}.

(** [Cursor{type, event, pos}]: a cursor in a header region. *)
Definition header (ty : Type_) (ev : TimelineEventID) (p : Z) : t :=
  {| type := ty; event := ev; paragraph := 0%N; pos := p |}.

(** [Cursor{event, paragraph, pos}]: a cursor in a body paragraph. *)
Definition body (ev : TimelineEventID) (para : N) (p : Z) : t :=
  {| type := BODY; event := ev; paragraph := para; pos := p |}.

End Cursor.

Module Selection.

Inductive Mode : Type := CHARACTER | WORD | PARAGRAPH.

Record t : Type := {
  begin : Cursor.t;
  end_ : Cursor.t;
  mode : Mode
}.

End Selection.

Module TextRange.
Record t : Type := { start : Z; length : Z }.
End TextRange.

Record SelectionResult : Type := {
  continues : bool;
  affected : TextRange.t
}.

Definition cursor_in (c : Cursor.t) (id : TimelineEventID) (type : Cursor.Type_)
    (paragraph : N) : bool :=
  N.eqb (Cursor.event c) id
  && Cursor.Type_eqb (Cursor.type c) type
  && N.eqb (Cursor.paragraph c) paragraph.

(** The part of [selection_for] before the [switch] on the mode. *)
Definition selection_bounds (id : TimelineEventID) (type : Cursor.Type_)
    (layout : QTextLayout.t) (bottom_selected : bool) (selection : Selection.t)
    (paragraph : N) : option SelectionResult :=
  let begin_applies := cursor_in (Selection.begin selection) id type paragraph in
  let end_applies := cursor_in (Selection.end_ selection) id type paragraph in
  let begin_pos := Cursor.pos (Selection.begin selection) in
  let end_pos := Cursor.pos (Selection.end_ selection) in
  if begin_applies && end_applies then
    let start := Z.min begin_pos end_pos in
    Some {| continues := false;
            affected := {| TextRange.start := start;
                           TextRange.length := int_sub (Z.max begin_pos end_pos) start |} |}
  else if begin_applies || end_applies then
    let endpoint := if begin_applies then begin_pos else end_pos in
    if bottom_selected then
      let start := Z.max 0 endpoint in
      Some {| continues := false;
              affected := {| TextRange.start := start;
                             TextRange.length := int_sub (QTextLayout.size layout) start |} |}
    else
      Some {| continues := true;
              affected := {| TextRange.start := 0%Z;
                             TextRange.length := Z.min (QTextLayout.size layout) endpoint |} |}
  else if bottom_selected then
    Some {| continues := true;
            affected := {| TextRange.start := 0%Z;
                           TextRange.length := QTextLayout.size layout |} |}
  else None.

(** The [switch] on the mode: [length] is assigned first, from the old
    [start]; then [start]. *)
Definition apply_mode (layout : QTextLayout.t) (mode : Selection.Mode)
    (result : SelectionResult) : SelectionResult :=
  match mode with
  | Selection.CHARACTER => result
  | Selection.WORD =>
      let start := TextRange.start (affected result) in
      let length := TextRange.length (affected result) in
      let length' := QTextLayout.nextCursorPosition layout (int_add start length) in
      let start' := QTextLayout.previousCursorPosition layout start in
      {| continues := continues result;
         affected := {| TextRange.start := start'; TextRange.length := length' |} |}
  | Selection.PARAGRAPH =>
      {| continues := continues result;
         affected := {| TextRange.start := 0%Z;
                        TextRange.length := QTextLayout.size layout |} |}
  end.

Definition selection_for (id : TimelineEventID) (type : Cursor.Type_)
    (layout : QTextLayout.t) (bottom_selected : bool) (selection : Selection.t)
    (paragraph : N) : option SelectionResult :=
  match selection_bounds id type layout bottom_selected selection paragraph with
  | Some result => Some (apply_mode layout (Selection.mode selection) result)
  | None => None
  end.

(** ** Display blocks *)

Module EventBlock.

(** [EventBlock::Event]: the sub-block of one event. *)
Record Event : Type := {
  id : TimelineEventID;
  time : option Time;
  source : option matrix.Room;
  paragraphs : list QTextLayout.t
}.

Record TimeInfo : Type := { start : Time; end_ : Time }.

(** The avatar reference and the fonts of the layouts are left out. *)
Record t : Type := {
  sender_ : matrix.UserID;
  time_ : option TimeInfo;
  name_ : QTextLayout.t;
  timestamp_ : QTextLayout.t;
  events_ : list Event
}.

Section Construct.

(** The body text of an event, already split into paragraphs.  It is
    computed by [EventBlock::Event::Event] from the block's name text,
    the block's sender and the record (the narration of each event type);
    nothing below depends on what the text is.  The narration reads
    [*e.affected_user_info] of a membership record and [*e.redacts] of a
    redaction record without a test; a record built from a confirmed
    event has them, a local echo need not.  That precondition is not
    part of the embedding. *)
Variable body_paragraphs :
  QTextLayout.t -> matrix.UserID -> EventLike.t -> list QTextLayout.t.

Definition make_Event (name : QTextLayout.t) (sender : matrix.UserID)
    (e : EventLike.t) : Event :=
  {| id := EventLike.id e;
     time := EventLike.time e;
     source := EventLike.event e;
     paragraphs := body_paragraphs name sender e |}.

Definition name_text (front : EventLike.t) : string :=
  let displayname :=
    match EventLike.effective_profile front with
    | Some p => matrix.displayname p
    | None => None
    end in
  ((match displayname with Some d => d | None => EventLike.sender front end)
   ++ (match EventLike.disambiguation front with
       | Some d => " (" ++ d ++ ")"
       | None => ""
       end))%string.

(** [EventBlock::EventBlock], on the span [events]. *)
Definition make (events : list EventLike.t) : checked t :=
  match events with
  | [] => Undef IndexEmptySpan
  | front :: _ =>
      let name := {| QTextLayout.text := name_text front |} in
      let build (ti : option TimeInfo) :=
        {| sender_ := EventLike.sender front;
           time_ := ti;
           name_ := name;
           timestamp_ := {| QTextLayout.text := "" |};
           events_ := map (make_Event name (EventLike.sender front)) events |} in
      match EventLike.time front with
      | None => Defined_ (build None)
      | Some t0 =>
          match EventLike.time (last events front) with
          | Some t1 => Defined_ (build (Some {| start := t0; end_ := t1 |}))
          | None => Undef DerefEmptyOptional
          end
      end
  end.

End Construct.

(** What one [QTextLayout::draw] call is given: the region it draws and
    the selection formats. *)
Record Painted : Type := {
  region_event : TimelineEventID;
  region_type : Cursor.Type_;
  region_paragraph : N;
  selections : list TextRange.t
}.

(** One region of [draw]: resolve the selection, draw, pass the flag on. *)
Definition draw_region (id0 : TimelineEventID) (ty : Cursor.Type_)
    (layout : QTextLayout.t) (index : N) (selection : Selection.t)
    (acc : list Painted * bool) : list Painted * bool :=
  let '(painted, bottom_selected) := acc in
  match selection_for id0 ty layout bottom_selected selection index with
  | Some s =>
      (painted ++ [{| region_event := id0; region_type := ty;
                      region_paragraph := index;
                      selections := [affected s] |}],
       continues s)
  | None =>
      (painted ++ [{| region_event := id0; region_type := ty;
                      region_paragraph := index;
                      selections := [] |}],
       bottom_selected)
  end.

(** The paragraphs of an event with their indices. *)
Definition indexed (ps : list QTextLayout.t) : list (N * QTextLayout.t) :=
  combine (map N.of_nat (seq 0 (List.length ps))) ps.

(** The inner loop of [draw]: the paragraphs of one event, last first. *)
Definition draw_event (selection : Selection.t) (acc : list Painted * bool)
    (ev : Event) : list Painted * bool :=
  fold_left
    (fun acc ip => draw_region (id ev) Cursor.BODY (snd ip) (fst ip) selection acc)
    (rev (indexed (paragraphs ev))) acc.

(** [EventBlock::draw]: the events last first, then the timestamp, then
    the name; returns what was painted and the flag for the block above. *)
Definition draw (bottom_selected : bool) (selection : Selection.t) (b : t)
    : checked (list Painted * bool) :=
  let acc := fold_left (draw_event selection) (rev (events_ b)) ([], bottom_selected) in
  match events_ b with
  | [] => Undef FrontOfEmpty
  | front :: _ =>
      let acc := draw_region (id front) Cursor.TIMESTAMP (timestamp_ b) 0%N selection acc in
      let acc := draw_region (id front) Cursor.NAME (name_ b) 0%N selection acc in
      Defined_ acc
  end.

End EventBlock.

(** ** The event stream and the block partitioner *)

(** Whether two events should be assigned to distinct blocks. *)
Definition block_border (a b : EventLike.t) : bool :=
  negb (String.eqb (EventLike.sender b) (EventLike.sender a))
  || match EventLike.time b, EventLike.time a with
     | Some tb, Some ta => (tb - ta >? BLOCK_MERGE_INTERVAL)%Z
     | _, _ => true
     end.

Definition and_then {A B} (c : checked A) (k : A -> checked B) : checked B :=
  match c with
  | Defined_ a => k a
  | Undef u => Undef u
  end.

(** [c.erase(it)], the iterator being an offset from [c.begin()]. *)
Definition erase_at {A} (it : nat) (c : list A) : list A :=
  firstn it c ++ skipn (S it) c.

Module TimelineView.

Record Batch : Type := {
  begin : matrix.TimelineCursor;
  events : list EventLike.t
}.

Record Pending : Type := {
  transaction : string;
  event : EventLike.t
}.

(** The outbound signals of the view. *)
Inductive Signal : Type := need_backwards | need_forwards.

Record t : Type := {
  batches_ : list Batch;
  pending_ : list Pending;
  blocks_ : list EventBlock.t;
  at_bottom_ : bool;
  id_counter_ : N;
  emitted : list Signal
}.

(** The view as its constructor leaves it. *)
Definition init : t :=
  {| batches_ := []; pending_ := []; blocks_ := []; at_bottom_ := false;
     id_counter_ := 0%N; emitted := [] |}.

Definition set_batches (v : list Batch) (s : t) : t :=
  {| batches_ := v; pending_ := pending_ s; blocks_ := blocks_ s;
     at_bottom_ := at_bottom_ s; id_counter_ := id_counter_ s; emitted := emitted s |}.

Definition set_pending (v : list Pending) (s : t) : t :=
  {| batches_ := batches_ s; pending_ := v; blocks_ := blocks_ s;
     at_bottom_ := at_bottom_ s; id_counter_ := id_counter_ s; emitted := emitted s |}.

Definition set_blocks (v : list EventBlock.t) (s : t) : t :=
  {| batches_ := batches_ s; pending_ := pending_ s; blocks_ := v;
     at_bottom_ := at_bottom_ s; id_counter_ := id_counter_ s; emitted := emitted s |}.

Definition set_id_counter (v : N) (s : t) : t :=
  {| batches_ := batches_ s; pending_ := pending_ s; blocks_ := blocks_ s;
     at_bottom_ := at_bottom_ s; id_counter_ := v; emitted := emitted s |}.

Definition emit (sig : Signal) (s : t) : t :=
  {| batches_ := batches_ s; pending_ := pending_ s; blocks_ := blocks_ s;
     at_bottom_ := at_bottom_ s; id_counter_ := id_counter_ s;
     emitted := emitted s ++ [sig] |}.

Definition set_at_bottom (value : bool) : method t unit :=
  modify (fun s =>
    {| batches_ := batches_ s; pending_ := pending_ s; blocks_ := blocks_ s;
       at_bottom_ := value; id_counter_ := id_counter_ s; emitted := emitted s |}).

(** [TimelineEventID{id_counter_++}] *)
Definition get_id : method t TimelineEventID :=
  fun s => Returns (id_counter_ s) (set_id_counter (N.succ (id_counter_ s)) s).

Definition at_top (s : t) : checked bool :=
  match batches_ s with
  | [] => Defined_ false
  | front :: _ =>
      match events front with
      | [] => Undef FrontOfEmpty
      | e :: _ => Defined_ (String.eqb (EventLike.type e) matrix.Create_tag)
      end
  end.

Definition maybe_need_backwards : method t unit :=
  fun s =>
    match at_top s with
    | Undef u => Undefined u
    | Defined_ true => Returns tt s
    | Defined_ false => Returns tt (emit need_backwards s)
    end.

Definition maybe_need_forwards : method t unit :=
  fun s => if at_bottom_ s then Returns tt s else Returns tt (emit need_forwards s).

Section Rebuild.

Variable body_paragraphs :
  QTextLayout.t -> matrix.UserID -> EventLike.t -> list QTextLayout.t.

(** The state of the loops of [rebuild_blocks]: [new_blocks] and
    [block_events]. *)
Definition rebuild_state : Type := (list EventBlock.t * list EventLike.t)%type.

(** Close the run: [new_blocks.emplace_back] of a block built from
    [block_events], then [block_events.clear()]. *)
Definition close_block (st : rebuild_state) : checked rebuild_state :=
  and_then (EventBlock.make body_paragraphs (snd st))
           (fun b => Defined_ (fst st ++ [b], [])).

(** The body of both loops of [rebuild_blocks]. *)
Definition rebuild_step (st : checked rebuild_state) (event0 : EventLike.t)
    : checked rebuild_state :=
  and_then st (fun st =>
    match snd st with
    | [] => Defined_ (fst st, [event0])
    | front :: _ =>
        if block_border (last (snd st) front) event0 then
          and_then (close_block st)
                   (fun st' => Defined_ (fst st', snd st' ++ [event0]))
        else Defined_ (fst st, snd st ++ [event0])
    end).

(** [rebuild_blocks], up to the exchange of [blocks_].  The closing
    [update_layout()] is outside the embedding: it flows the lines, sets
    the text of each block's timestamp and moves the scroll bar, whose
    change of value runs [maybe_need_forwards] and
    [maybe_need_backwards]. *)
Definition rebuild_blocks : method t unit :=
  fun s =>
    let st := Defined_ ([], []) in
    let st :=
      fold_left (fun st batch => fold_left rebuild_step (events batch) st)
                (batches_ s) st in
    let st :=
      if at_bottom_ s
      then fold_left (fun st p => rebuild_step st (event p)) (pending_ s) st
      else st in
    let st :=
      and_then st (fun st =>
        match snd st with
        | [] => Defined_ st
        | _ :: _ => close_block st
        end) in
    match st with
    | Defined_ (new_blocks, _) => Returns tt (set_blocks new_blocks s)
    | Undef u => Undefined u
    end.

(** The first branch of [prepend] and the else branch. *)
Definition push_front_event (begin0 : matrix.TimelineCursor) (e : EventLike.t)
    (batches : list Batch) : list Batch :=
  match batches with
  | front :: rest =>
      if String.eqb (begin front) begin0
      then {| begin := begin front; events := e :: events front |} :: rest
      else {| begin := begin0; events := [e] |} :: batches
  | [] => [{| begin := begin0; events := [e] |}]
  end.

Definition push_back_event (begin0 : matrix.TimelineCursor) (e : EventLike.t)
    (batches : list Batch) : list Batch :=
  match batches with
  | b0 :: _ =>
      let back := last batches b0 in
      if String.eqb (begin back) begin0
      then removelast batches ++ [{| begin := begin back; events := events back ++ [e] |}]
      else batches ++ [{| begin := begin0; events := [e] |}]
  | [] => [{| begin := begin0; events := [e] |}]
  end.

(** [evt.unsigned_data()] and then [transaction_id()], when both are there. *)
Definition transaction_of (evt : matrix.Room) : option string :=
  match matrix.Room_unsigned_data evt with
  | Some u => matrix.transaction_id u
  | None => None
  end.

Definition prepend (begin0 : matrix.TimelineCursor) (state : matrix.RoomState)
    (evt : matrix.Room) : method t unit :=
  (id0 <- get_id ;;
   modify (fun s =>
     set_batches (push_front_event begin0 (EventLike.of_room id0 state evt) (batches_ s)) s) ;;;
   match transaction_of evt with
   | Some txid =>
       modify (fun s =>
         set_pending
           (filter (fun p => negb (String.eqb (transaction p) txid)) (pending_ s)) s)
   | None => ret tt
   end ;;;
   rebuild_blocks ;;;
   maybe_need_backwards)%method.

(** The search loop of [append]: the iterator it stops at, as an offset
    from [pending_.cbegin()]; the length of the queue is [cend()]. *)
Fixpoint find_transaction (txid : string) (pending : list Pending) : nat :=
  match pending with
  | [] => O
  | p :: rest =>
      if String.eqb (transaction p) txid then O
      else S (find_transaction txid rest)
  end.

Definition append (begin0 : matrix.TimelineCursor) (state : matrix.RoomState)
    (evt : matrix.Room) : method t unit :=
  (existing_id <-
     match transaction_of evt with
     | Some txid =>
         fun s =>
           let it := find_transaction txid (pending_ s) in
           match nth_error (pending_ s) it with
           | None => Undefined DerefEndIterator
           | Some p =>
               Returns (Some (EventLike.id (event p)))
                       (set_pending (erase_at it (pending_ s)) s)
           end
     | None => ret None
     end ;;
   id0 <- match existing_id with
          | Some i => ret i
          | None => get_id
          end ;;
   modify (fun s =>
     set_batches (push_back_event begin0 (EventLike.of_room id0 state evt) (batches_ s)) s) ;;;
   rebuild_blocks ;;;
   maybe_need_forwards)%method.

(** The inner loop of [redact]; returns [done]. *)
Fixpoint redact_events (redaction : matrix.Redaction) (evs : list EventLike.t)
    : outcome (list EventLike.t) bool :=
  match evs with
  | [] => Returns false []
  | existing_event :: rest =>
      match EventLike.event existing_event with
      | None => Undefined DerefEmptyOptional
      | Some src =>
          if String.eqb (matrix.Room_id src) (matrix.Redaction_redacts redaction)
          then within (fun e' => e' :: rest)
                      (bind (EventLike.redact redaction) (fun _ => ret true)
                            existing_event)
          else within (fun rest' => existing_event :: rest')
                      (redact_events redaction rest)
      end
  end.

(** The outer loop of [redact]. *)
Fixpoint redact_batches (redaction : matrix.Redaction) (batches : list Batch)
    : outcome (list Batch) bool :=
  match batches with
  | [] => Returns false []
  | batch :: rest =>
      let put_back evs := {| begin := begin batch; events := evs |} in
      match redact_events redaction (events batch) with
      | Returns true evs' => Returns true (put_back evs' :: rest)
      | Returns false evs' =>
          within (fun rest' => put_back evs' :: rest') (redact_batches redaction rest)
      | Throws w evs' => Throws w (put_back evs' :: rest)
      | Undefined u => Undefined u
      end
  end.

Definition redact (redaction : matrix.Redaction) : method t unit :=
  ((fun s => within (fun bs => set_batches bs s)
                    (redact_batches redaction (batches_ s))) ;;;
   rebuild_blocks ;;;
   maybe_need_forwards ;;;
   maybe_need_backwards)%method.

Definition add_pending (transaction0 : string) (state : matrix.RoomState)
    (self : matrix.UserID) (time0 : Time) (type0 : matrix.EventType)
    (content0 : matrix.Content) (affected_user : option matrix.UserID)
    : method t unit :=
  (id0 <- get_id ;;
   modify (fun s =>
     set_pending
       (pending_ s ++
        [{| transaction := transaction0;
            event := EventLike.make id0 state self time0 type0 content0
                                    affected_user None |}]) s) ;;;
   rebuild_blocks)%method.

End Rebuild.

(** The loop of [paintEvent] over the blocks it draws, newest first
    ([visited] is the window of [rev blocks_] that geometry selects):
    [selecting = block->draw(painter, selecting, selection_)]. *)
Fixpoint paint_blocks (selection : Selection.t) (selecting : bool)
    (visited : list EventBlock.t) : checked (list EventBlock.Painted * bool) :=
  match visited with
  | [] => Defined_ ([], selecting)
  | block :: above =>
      and_then (EventBlock.draw selecting selection block) (fun r =>
      and_then (paint_blocks selection (snd r) above) (fun r' =>
      Defined_ (fst r ++ fst r', snd r')))
  end.

End TimelineView.

(** ** Notions the properties are stated with *)

(** The confirmed records of the batches, oldest first. *)
Definition all_events (batches : list TimelineView.Batch) : list EventLike.t :=
  flat_map TimelineView.events batches.

(** Every record the stream owns: the batches, then the pending queue. *)
Definition records (s : TimelineView.t) : list EventLike.t :=
  all_events (TimelineView.batches_ s)
  ++ map TimelineView.event (TimelineView.pending_ s).

(** The sequence [rebuild_blocks] walks: the batches, and the pending
    queue when the view is at the live edge. *)
Definition event_view (s : TimelineView.t) : list EventLike.t :=
  all_events (TimelineView.batches_ s)
  ++ (if TimelineView.at_bottom_ s
      then map TimelineView.event (TimelineView.pending_ s)
      else []).

Definition has_time (e : EventLike.t) : Prop := EventLike.time e <> None.
Definition has_source (e : EventLike.t) : Prop := EventLike.event e <> None.

(** A record is the target of a redaction when its source carries the
    redacted event identifier. *)
Definition targeted (redaction : matrix.Redaction) (e : EventLike.t) : bool :=
  match EventLike.event e with
  | Some src => String.eqb (matrix.Room_id src) (matrix.Redaction_redacts redaction)
  | None => false
  end.

Definition untargeted (redaction : matrix.Redaction) (e : EventLike.t) : Prop :=
  targeted redaction e = false.

(** The shape of the batches: how many records each holds. *)
Definition batch_sizes (batches : list TimelineView.Batch) : list nat :=
  map (fun b => List.length (TimelineView.events b)) batches.



(** The runs of [a :: l]: a new run starts at every border. *)
Fixpoint runs_from (a : EventLike.t) (l : list EventLike.t) : list (list EventLike.t) :=
  match l with
  | [] => [[a]]
  | b :: l' =>
      if block_border a b then [a] :: runs_from b l'
      else
        match runs_from b l' with
        | run :: runs => (a :: run) :: runs
        | [] => [[a]]
        end
  end.

Definition split_runs (l : list EventLike.t) : list (list EventLike.t) :=
  match l with
  | [] => []
  | a :: l' => runs_from a l'
  end.

(** The loops of [rebuild_blocks] without the construction of blocks. *)
Definition run_step (st : list (list EventLike.t) * list EventLike.t)
    (e : EventLike.t) : list (list EventLike.t) * list EventLike.t :=
  match snd st with
  | [] => (fst st, [e])
  | front :: _ =>
      if block_border (last (snd st) front) e
      then (fst st ++ [snd st], [e])
      else (fst st, snd st ++ [e])
  end.

Definition run_finish (st : list (list EventLike.t) * list EventLike.t)
    : list (list EventLike.t) :=
  match snd st with
  | [] => fst st
  | _ :: _ => fst st ++ [snd st]
  end.

(** A run that [EventBlock::EventBlock] can take its time range from:
    every event has a timestamp, or it is a single event. *)
Definition uniform (run : list EventLike.t) : Prop :=
  (List.length run <= 1)%nat \/ Forall has_time run.

(** The block [b] is what the constructor builds from the run. *)
Definition built_from (body_paragraphs :
      QTextLayout.t -> matrix.UserID -> EventLike.t -> list QTextLayout.t)
    (run : list EventLike.t) (b : EventBlock.t) : Prop :=
  EventBlock.make body_paragraphs run = Defined_ b.

(** The address of a region, as [cursor_in] compares it. *)
Definition region : Type := (TimelineEventID * Cursor.Type_ * N)%type.

Definition region_of_cursor (c : Cursor.t) : region :=
  (Cursor.event c, Cursor.type c, Cursor.paragraph c).

Definition region_of_painted (p : EventBlock.Painted) : region :=
  (EventBlock.region_event p, EventBlock.region_type p, EventBlock.region_paragraph p).

Definition region_eqb (a b : region) : bool :=
  let '(ia, ta, pa) := a in
  let '(ib, tb, pb) := b in
  N.eqb ia ib && Cursor.Type_eqb ta tb && N.eqb pa pb.

(** The regions [EventBlock::draw] visits, in its order. *)
Definition event_regions (ev : EventBlock.Event) : list region :=
  map (fun ip => (EventBlock.id ev, Cursor.BODY, fst ip))
      (rev (EventBlock.indexed (EventBlock.paragraphs ev))).

Definition block_regions (b : EventBlock.t) : list region :=
  flat_map event_regions (rev (EventBlock.events_ b))
  ++ match EventBlock.events_ b with
     | front :: _ => [(EventBlock.id front, Cursor.TIMESTAMP, 0%N);
                      (EventBlock.id front, Cursor.NAME, 0%N)]
     | [] => []
     end.

(** The range between the two offsets of a selection. *)
Definition contained_range (sel : Selection.t) : TextRange.t :=
  {| TextRange.start :=
       Z.min (Cursor.pos (Selection.begin sel)) (Cursor.pos (Selection.end_ sel));
     TextRange.length :=
       Z.abs (Cursor.pos (Selection.begin sel) - Cursor.pos (Selection.end_ sel)) |}.

(** What is painted for a region when the selection lies inside the
    region of its begin cursor: that region shows the range between the
    offsets, any other region shows nothing. *)
Definition painted_inside (sel : Selection.t) (r : region) : EventBlock.Painted :=
  {| EventBlock.region_event := fst (fst r);
     EventBlock.region_type := snd (fst r);
     EventBlock.region_paragraph := snd r;
     EventBlock.selections :=
       if region_eqb (region_of_cursor (Selection.begin sel)) r
       then [contained_range sel]
       else [] |}.

(** The identifiers of the events a list of blocks shows. *)
Definition block_ids (blocks : list EventBlock.t) : list TimelineEventID :=
  flat_map (fun b => map EventBlock.id (EventBlock.events_ b)) blocks.

(** The invariant of the stream: batches are not empty and hold
    confirmed records only, and identifiers are pairwise distinct and
    below the counter. *)
Definition well_formed (s : TimelineView.t) : Prop :=
  Forall (fun b => TimelineView.events b <> []) (TimelineView.batches_ s)
  /\ Forall has_source (all_events (TimelineView.batches_ s))
  /\ NoDup (map EventLike.id (records s))
  /\ Forall (fun i => (i < TimelineView.id_counter_ s)%N)
            (map EventLike.id (records s)).

(** Two states with the same stream: they may differ in the derived
    blocks and in the signals emitted so far. *)
Definition same_stream (s s' : TimelineView.t) : Prop :=
  TimelineView.batches_ s' = TimelineView.batches_ s
  /\ TimelineView.pending_ s' = TimelineView.pending_ s
  /\ TimelineView.at_bottom_ s' = TimelineView.at_bottom_ s
  /\ TimelineView.id_counter_ s' = TimelineView.id_counter_ s.

(** The calls by which the stream changes. *)
Inductive call : Type :=
| Prepend (begin0 : matrix.TimelineCursor) (state : matrix.RoomState) (evt : matrix.Room)
| Append (begin0 : matrix.TimelineCursor) (state : matrix.RoomState) (evt : matrix.Room)
| Redact (redaction : matrix.Redaction)
| AddPending (transaction0 : string) (state : matrix.RoomState) (self : matrix.UserID)
    (time0 : Time) (type0 : matrix.EventType) (content0 : matrix.Content)
    (affected_user : option matrix.UserID)
| SetAtBottom (value : bool).

Definition perform (body_paragraphs :
      QTextLayout.t -> matrix.UserID -> EventLike.t -> list QTextLayout.t)
    (c : call) : method TimelineView.t unit :=
  match c with
  | Prepend b st e => TimelineView.prepend body_paragraphs b st e
  | Append b st e => TimelineView.append body_paragraphs b st e
  | Redact r => TimelineView.redact body_paragraphs r
  | AddPending tx st self t ty c0 au =>
      TimelineView.add_pending body_paragraphs tx st self t ty c0 au
  | SetAtBottom v => TimelineView.set_at_bottom v
  end.

(** The states the view reaches from its constructor by calls that
    return. *)
Inductive reachable (body_paragraphs :
      QTextLayout.t -> matrix.UserID -> EventLike.t -> list QTextLayout.t)
    : TimelineView.t -> Prop :=
| reachable_init : reachable body_paragraphs TimelineView.init
| reachable_call s c s' :
    reachable body_paragraphs s ->
    perform body_paragraphs c s = Returns tt s' ->
    reachable body_paragraphs s'.

(** The timestamps of two events that follow one another do not run
    backwards: where both have one, the second's is not before the
    first's. *)
Definition in_order (a b : EventLike.t) : Prop :=
  match EventLike.time a, EventLike.time b with
  | Some ta, Some tb => (ta <= tb)%Z
  | _, _ => True
  end.

(** What [to_time_point] returns counts milliseconds in an unsigned
    64-bit representation.  Should [Time], whose declaration is not among
    the sources, keep that representation, the difference
    [*b.time - *a.time] of [block_border] wraps instead of being
    negative. *)
Definition elapsed_wrapping (later earlier : Time) : Z :=
  ((later - earlier) mod 2 ^ 64)%Z.

(** [block_border] with the wrapping difference. *)
Definition block_border_wrapping (a b : EventLike.t) : bool :=
  negb (String.eqb (EventLike.sender b) (EventLike.sender a))
  || match EventLike.time b, EventLike.time a with
     | Some tb, Some ta => (elapsed_wrapping tb ta >? BLOCK_MERGE_INTERVAL)%Z
     | _, _ => true
     end.

(** ** Format ranges and hyperlinks *)

(** [QTextCharFormat], as far as [href_at] reads it. *)
Module QTextCharFormat.
Record t : Type := { isAnchor : bool; anchorHref : string }.
End QTextCharFormat.

(** [QTextLayout::FormatRange]. *)
Module FormatRange.
Record t : Type := { start : Z; length : Z; format : QTextCharFormat.t }.
End FormatRange.

(** [format_view]: the formats of a text that reach into the window
    [start, start + length), moved to the window's coordinates.  The
    ranges are not clipped to the window. *)
Fixpoint format_view (formats : list FormatRange.t) (start length : Z)
    : list FormatRange.t :=
  let end_ := int_add start length in
  match formats with
  | [] => []
  | in_ :: rest =>
      let in_end := int_add (FormatRange.start in_) (FormatRange.length in_) in
      if (in_end <=? start)%Z || (end_ <=? FormatRange.start in_)%Z
      then format_view rest start length
      else {| FormatRange.start := int_sub (FormatRange.start in_) start;
              FormatRange.length := FormatRange.length in_;
              FormatRange.format := FormatRange.format in_ |}
           :: format_view rest start length
  end.

(** [href_at], on the formats of the layout: the link target of the
    first anchor format that covers the cursor. *)
Fixpoint href_at (formats : list FormatRange.t) (cursor : Z) : option string :=
  match formats with
  | [] => None
  | format0 :: rest =>
      if (FormatRange.start format0 <=? cursor)%Z
         && (int_add (FormatRange.start format0) (FormatRange.length format0) >? cursor)%Z
         && QTextCharFormat.isAnchor (FormatRange.format format0)
      then Some (QTextCharFormat.anchorHref (FormatRange.format format0))
      else href_at rest cursor
  end.

(** The paragraph loop of [EventBlock::Event::Event]: the formats each
    paragraph is given.  [start] is a [size_t]; it is converted to [int]
    where [format_view] is called, and the [int] sum [1 + size] is
    converted to [size_t] where it is added. *)
Fixpoint paragraph_formats (formats : list FormatRange.t) (lines : list string)
    (start : Z) : list (list FormatRange.t) :=
  match lines with
  | [] => []
  | line :: rest =>
      let size := Z.of_nat (String.length line) in
      format_view formats (wrap_int start) size
      :: paragraph_formats formats rest ((start + int_add 1 size) mod 2 ^ 64)%Z
  end.

(** The value of [start] when the paragraph loop reaches paragraph [i]:
    the sizes of the lines before it and one more for each.  That is
    where the paragraph begins in the text only if every line break
    before it is one character; the split takes a carriage return with a
    line feed as one break, which is two. *)
Fixpoint loop_start (lines : list string) (i : nat) : Z :=
  match i, lines with
  | S i', line :: rest =>
      (1 + Z.of_nat (String.length line) + loop_start rest i')%Z
  | _, _ => 0%Z
  end.

(** ** Strings *)

Module QString.

(** [QString::mid(position, n)] is Qt's, taken as Qt documents it: the
    [n] characters from [position], or all that are there if [n] is
    negative or reaches beyond the end; nothing if [position] lies beyond
    the end; a negative [position] is moved to 0 and [n] shortened by as
    much. *)
Definition mid (s : string) (position n : Z) : string :=
  let size := Z.of_nat (String.length s) in
  if (position >? size)%Z then ""%string
  else if (position <? 0)%Z then
    if (n <? 0)%Z || (size <=? int_add n position)%Z then s
    else if (int_add n position <=? 0)%Z then ""%string
    else substring 0 (Z.to_nat (int_add n position)) s
  else
    let n' := if (n <? 0)%Z || (size - position <? n)%Z then (size - position)%Z else n in
    substring (Z.to_nat position) (Z.to_nat n') s.

Definition isEmpty (s : string) : bool :=
  match s with EmptyString => true | _ => false end.

End QString.

(** ** The text of a selection *)

Record SelectionTextResult : Type := {
  fragment : string;
  continues_above : bool
}.

(** The body loop of [EventBlock::selection_text], one paragraph. *)
Definition selection_text_paragraph (id0 : TimelineEventID)
    (paragraph : QTextLayout.t) (index : N) (selection : Selection.t)
    (acc : string * bool) : string * bool :=
  let '(result, bottom_selected) := acc in
  match selection_for id0 Cursor.BODY paragraph bottom_selected selection index with
  | Some s =>
      ((" " ++ QString.mid (QTextLayout.text paragraph)
                  (TextRange.start (affected s)) (TextRange.length (affected s))
            ++ String "010"%char "" ++ result)%string,
       continues s)
  | None => (result, bottom_selected)
  end.

Definition selection_text_event (selection : Selection.t) (acc : string * bool)
    (ev : EventBlock.Event) : string * bool :=
  fold_left
    (fun acc ip =>
       selection_text_paragraph (EventBlock.id ev) (snd ip) (fst ip) selection acc)
    (rev (EventBlock.indexed (EventBlock.paragraphs ev))) acc.

(** The timestamp and the name of [EventBlock::selection_text]. *)
Definition selection_text_header (id0 : TimelineEventID) (ty : Cursor.Type_)
    (layout : QTextLayout.t) (selection : Selection.t) (bottom_selected : bool)
    : string * bool :=
  match selection_for id0 ty layout bottom_selected selection 0%N with
  | Some s =>
      (QString.mid (QTextLayout.text layout)
         (TextRange.start (affected s)) (TextRange.length (affected s)),
       continues s)
  | None => (""%string, bottom_selected)
  end.

(** [EventBlock::selection_text]. *)
Definition EventBlock_selection_text (bottom_selected : bool)
    (selection : Selection.t) (b : EventBlock.t) : checked SelectionTextResult :=
  let '(result, bottom_selected) :=
    fold_left (selection_text_event selection) (rev (EventBlock.events_ b))
              (""%string, bottom_selected) in
  match EventBlock.events_ b with
  | [] => Undef FrontOfEmpty
  | front :: _ =>
      let '(timestamp, bottom_selected) :=
        selection_text_header (EventBlock.id front) Cursor.TIMESTAMP
          (EventBlock.timestamp_ b) selection bottom_selected in
      let '(name, bottom_selected) :=
        selection_text_header (EventBlock.id front) Cursor.NAME
          (EventBlock.name_ b) selection bottom_selected in
      let result :=
        if negb (QString.isEmpty timestamp)
        then (timestamp
              ++ (if QString.isEmpty result then "" else String "010"%char result))%string
        else result in
      let result :=
        if negb (QString.isEmpty name)
        then (name ++ (if QString.isEmpty result then "" else " - " ++ result))%string
        else result in
      Defined_ {| fragment := result; continues_above := bottom_selected |}
  end.

(** The loop of [TimelineView::selection_text] over the blocks, newest
    first; [acc] is [result] and [selecting]. *)
Fixpoint selection_text_blocks (selection : Selection.t) (acc : string * bool)
    (blocks : list EventBlock.t) : checked (string * bool) :=
  match blocks with
  | [] => Defined_ acc
  | block :: above =>
      and_then (EventBlock_selection_text (snd acc) selection block) (fun r =>
        let result :=
          if negb (QString.isEmpty (fragment r))
          then (if QString.isEmpty (fst acc) then fragment r
                else (fragment r ++ String "010"%char (fst acc))%string)
          else fst acc in
        selection_text_blocks selection (result, continues_above r) above)
  end.

(** [TimelineView::selection_text], for the selection the view holds. *)
Definition TimelineView_selection_text (selection : Selection.t)
    (s : TimelineView.t) : checked string :=
  and_then (selection_text_blocks selection (""%string, false)
              (rev (TimelineView.blocks_ s)))
           (fun r => Defined_ (fst r)).

(** [TimelineView::copy]: what is put on the clipboard, if anything. *)
Definition TimelineView_copy (selection : Selection.t) (s : TimelineView.t)
    : checked (option string) :=
  and_then (TimelineView_selection_text selection s) (fun t =>
    Defined_ (if negb (QString.isEmpty t) then Some t else None)).

(** ** More notions the properties are stated with *)

(** The regions [EventBlock::draw] and [EventBlock::selection_text]
    visit, each with its layout, in their order. *)
Definition event_layouts (ev : EventBlock.Event) : list (region * QTextLayout.t) :=
  map (fun ip => ((EventBlock.id ev, Cursor.BODY, fst ip), snd ip))
      (rev (EventBlock.indexed (EventBlock.paragraphs ev))).

Definition block_layouts (b : EventBlock.t) : list (region * QTextLayout.t) :=
  flat_map event_layouts (rev (EventBlock.events_ b))
  ++ match EventBlock.events_ b with
     | front :: _ =>
         [((EventBlock.id front, Cursor.TIMESTAMP, 0%N), EventBlock.timestamp_ b);
          ((EventBlock.id front, Cursor.NAME, 0%N), EventBlock.name_ b)]
     | [] => []
     end.

(** One step of the traversal, on a region and its layout. *)
Definition draw_layout (selection : Selection.t)
    (acc : list EventBlock.Painted * bool) (rl : region * QTextLayout.t)
    : list EventBlock.Painted * bool :=
  EventBlock.draw_region (fst (fst (fst rl))) (snd (fst (fst rl))) (snd rl)
    (snd (fst rl)) selection acc.

(** One step of the body loop of [selection_text], on a body region
    and its layout. *)
Definition text_layout (selection : Selection.t) (acc : string * bool)
    (rl : region * QTextLayout.t) : string * bool :=
  selection_text_paragraph (fst (fst (fst rl))) (snd rl) (snd (fst rl))
    selection acc.

(** What the body loop of [selection_text] puts before [result] for
    the paragraph [l] when both cursors of the selection address it. *)
Definition inside_text (selection : Selection.t) (l : QTextLayout.t)
    (result : string) : string :=
  (" " ++ QString.mid (QTextLayout.text l)
            (Z.min (Cursor.pos (Selection.begin selection))
                   (Cursor.pos (Selection.end_ selection)))
            (Z.abs (Cursor.pos (Selection.begin selection)
                    - Cursor.pos (Selection.end_ selection)))
       ++ String "010"%char result)%string.

(** A region that neither cursor of the selection addresses. *)
Definition elsewhere (selection : Selection.t) (rl : region * QTextLayout.t) : Prop :=
  region_of_cursor (Selection.begin selection) <> fst rl
  /\ region_of_cursor (Selection.end_ selection) <> fst rl.

Definition painted_with (r : region) (ranges : list TextRange.t) : EventBlock.Painted :=
  {| EventBlock.region_event := fst (fst r);
     EventBlock.region_type := snd (fst r);
     EventBlock.region_paragraph := snd r;
     EventBlock.selections := ranges |}.

(** Nothing of the region is highlighted; all of it is. *)
Definition painted_none (rl : region * QTextLayout.t) : EventBlock.Painted :=
  painted_with (fst rl) [].

Definition painted_whole (rl : region * QTextLayout.t) : EventBlock.Painted :=
  painted_with (fst rl)
    [{| TextRange.start := 0%Z; TextRange.length := QTextLayout.size (snd rl) |}].

(** A format range that lies in a text of the given size. *)
Definition format_in_text (size : Z) (f : FormatRange.t) : Prop :=
  (0 <= FormatRange.start f)%Z /\ (0 <= FormatRange.length f)%Z
  /\ (FormatRange.start f + FormatRange.length f <= size)%Z.

(** The pending queue holds local echoes only. *)
Definition pending_unconfirmed (s : TimelineView.t) : Prop :=
  Forall (fun p => EventLike.event (TimelineView.event p) = None)
         (TimelineView.pending_ s).

(** The block shows the run: it has the sender, the time range, the
    name and the sub-blocks that the constructor builds from the run.
    The text of the timestamp is left open: the constructor leaves it
    empty and [update_layout], which is not embedded, sets it. *)
Definition shows (body_paragraphs :
      QTextLayout.t -> matrix.UserID -> EventLike.t -> list QTextLayout.t)
    (run : list EventLike.t) (b : EventBlock.t) : Prop :=
  exists b0,
    EventBlock.make body_paragraphs run = Defined_ b0
    /\ EventBlock.sender_ b = EventBlock.sender_ b0
    /\ EventBlock.time_ b = EventBlock.time_ b0
    /\ EventBlock.name_ b = EventBlock.name_ b0
    /\ EventBlock.events_ b = EventBlock.events_ b0.

(** The blocks show, one for one and in order, the runs of the sequence
    a rebuild would walk now. *)
Definition synced (body_paragraphs :
      QTextLayout.t -> matrix.UserID -> EventLike.t -> list QTextLayout.t)
    (s : TimelineView.t) : Prop :=
  Forall2 (shows body_paragraphs) (split_runs (event_view s))
          (TimelineView.blocks_ s).

(** The calls that end in [rebuild_blocks]. *)
Definition rebuilds (c : call) : bool :=
  match c with
  | SetAtBottom _ => false
  | _ => true
  end.

(** A run without a border inside. *)
Fixpoint chained (run : list EventLike.t) : Prop :=
  match run with
  | a :: (b :: _) as rest => block_border a b = false /\ chained rest
  | _ => True
  end.

(** ** Sample inputs *)

Module Sample.

(** A room whose state knows no member. *)
Definition room_state : matrix.RoomState :=
  {| matrix.member_from_id := fun _ => None;
     matrix.member_disambiguation := fun _ => None |}.

Definition message (id sender : string) (ts : Z) (body : string)
    (tx : option string) : matrix.Room :=
  {| matrix.Room_id := id;
     matrix.Room_sender := sender;
     matrix.Room_origin_server_ts := ts;
     matrix.Room_type := matrix.Message_tag;
     matrix.Room_content := [("msgtype", "m.text"); ("body", body)]%string;
     matrix.Room_unsigned_data := Some {| matrix.transaction_id := tx |};
     matrix.Room_user := ""%string;
     matrix.Room_redacts := ""%string |}.

Definition redaction (id sender target : string) (ts : Z) : matrix.Redaction :=
  {| matrix.Room_id := id;
     matrix.Room_sender := sender;
     matrix.Room_origin_server_ts := ts;
     matrix.Room_type := matrix.Redaction_tag;
     matrix.Room_content := [];
     matrix.Room_unsigned_data := None;
     matrix.Room_user := ""%string;
     matrix.Room_redacts := target |}.

(** A body renderer: one paragraph, the [body] member of the content. *)
Definition plain_body (name : QTextLayout.t) (sender : matrix.UserID)
    (e : EventLike.t) : list QTextLayout.t :=
  [{| QTextLayout.text :=
        match matrix.json_get "body" (EventLike.content e) with
        | Some b => b
        | None => ""%string
        end |}].

(** Run a sequence of calls from a state. *)
Fixpoint run (calls : list call) (s : TimelineView.t) : outcome TimelineView.t unit :=
  match calls with
  | [] => Returns tt s
  | c :: rest =>
      match perform plain_body c s with
      | Returns _ s' => run rest s'
      | o => o
      end
  end.

Definition state_of (calls : list call) : TimelineView.t :=
  match run calls TimelineView.init with
  | Returns _ s => s
  | _ => TimelineView.init
  end.

(** Two messages of one sender a minute apart, one of another sender,
    and a local echo waiting at the live edge. *)
Definition calls : list call :=
  [ Append "c1" room_state (message "$1" "@a:x" 1000 "hi" None);
    Append "c1" room_state (message "$2" "@a:x" 61000 "there" None);
    Append "c1" room_state (message "$3" "@b:x" 62000 "hello" None);
    SetAtBottom true;
    AddPending "x1" room_state "@b:x" 63000%Z matrix.Message_tag
               [("msgtype", "m.text"); ("body", "sent")] None ]%string.

Definition stream : TimelineView.t := state_of calls.

(** The confirmed echo of the pending record. *)
Definition echo : matrix.Room := message "$4" "@b:x" 63500 "sent" (Some "x1"%string).

(** A paragraph of four words, and a double click inside the second. *)
Definition words : QTextLayout.t := {| QTextLayout.text := "aaa bbbb cc ddd" |}.

Definition double_click : Selection.t :=
  {| Selection.begin := Cursor.body 0%N 0%N 5%Z;
     Selection.end_ := Cursor.body 0%N 0%N 5%Z;
     Selection.mode := Selection.WORD |}.

(** A paragraph of three characters and a selection that begins at
    offset 10 of it (an offset taken before the text became shorter)
    and ends in another event. *)
Definition short : QTextLayout.t := {| QTextLayout.text := "abc" |}.

Definition stale : Selection.t :=
  {| Selection.begin := Cursor.body 7%N 0%N 10%Z;
     Selection.end_ := Cursor.body 8%N 0%N 0%Z;
     Selection.mode := Selection.CHARACTER |}.

(** A selection inside the body of the second message of [stream]. *)
Definition inside : Selection.t :=
  {| Selection.begin := Cursor.body 1%N 0%N 4%Z;
     Selection.end_ := Cursor.body 1%N 0%N 1%Z;
     Selection.mode := Selection.CHARACTER |}.

End Sample.

(** ** More sample inputs *)

Module Sample2.

Definition link (start length : Z) (href : string) : FormatRange.t :=
  {| FormatRange.start := start;
     FormatRange.length := length;
     FormatRange.format :=
       {| QTextCharFormat.isAnchor := true; QTextCharFormat.anchorHref := href |} |}.

(** The lines of "see a.com" / "and b.org now" and the links found in
    the text they were split from. *)
Definition lines : list string := ["see a.com"; "and b.org now"]%string.

Definition links : list FormatRange.t :=
  [link 4 5 "http://a.com"; link 14 5 "http://b.org"].

(** A selection from the body of the first message of [Sample.stream]
    (offset 1) down to the body of the third (offset 2). *)
Definition across : Selection.t :=
  {| Selection.begin := Cursor.body 0%N 0%N 1%Z;
     Selection.end_ := Cursor.body 2%N 0%N 2%Z;
     Selection.mode := Selection.CHARACTER |}.

(** A membership event by which a user who is not in the room joins
    under a display name. *)
Definition join : matrix.Room :=
  {| matrix.Room_id := "$j"%string;
     matrix.Room_sender := "@n:x"%string;
     matrix.Room_origin_server_ts := 5000%Z;
     matrix.Room_type := matrix.Member_tag;
     matrix.Room_content := [("membership", "join"); ("displayname", "Newcomer")]%string;
     matrix.Room_unsigned_data := None;
     matrix.Room_user := "@n:x"%string;
     matrix.Room_redacts := ""%string |}.


End Sample2.

(** * Properties *)

(** ** Outcomes and C++ [int] *)

Lemma wrap_int_small (z : Z) :
  (- 2147483648 <= z <= INT_MAX)%Z -> wrap_int z = z.
Proof.
  unfold wrap_int, INT_MAX. intros H.
  rewrite Z.mod_small by lia. lia.
Qed.

Lemma size_nonneg (l : QTextLayout.t) : (0 <= QTextLayout.size l)%Z.
Proof. unfold QTextLayout.size. lia. Qed.

(** ** The redaction applicator *)

Lemma filter_idempotent {A} (keep : A -> bool) (l : list A) :
  filter keep (filter keep l) = filter keep l.
Proof.
  induction l as [|x l IH]; simpl; [reflexivity|].
  destruct (keep x) eqn:E; simpl.
  - rewrite E, IH. reflexivity.
  - exact IH.
Qed.

Lemma redacted_form_idempotent (ty : matrix.EventType) (c : matrix.Content) :
  matrix.redacted_form ty (matrix.redacted_form ty c) = matrix.redacted_form ty c.
Proof. unfold matrix.redacted_form. apply filter_idempotent. Qed.

Lemma Room_redact_idempotent (r1 r2 : matrix.Redaction) (e : matrix.Room) :
  matrix.Room_redact r2 (matrix.Room_redact r1 e) = matrix.Room_redact r1 e.
Proof.
  unfold matrix.Room_redact; simpl.
  rewrite redacted_form_idempotent. reflexivity.
Qed.

(** C8.  The redaction applicator, applied to a record without a
    confirmed source, throws the logic error and leaves the record as it
    was; applied to a record with a source it returns, the record's time
    is absent, its content is the content of the redacted source, its
    source is the redacted source, and its identifier, sender, type and
    redaction target are the ones it had. *)
Theorem redact_applicator (because : matrix.Redaction) (e : EventLike.t) :
  match EventLike.event e with
  | None =>
      EventLike.redact because e = Throws "tried to redact a fake event" e
  | Some src =>
      exists e',
        EventLike.redact because e = Returns tt e'
        /\ EventLike.time e' = None
        /\ EventLike.content e' = matrix.Room_content (matrix.Room_redact because src)
        /\ EventLike.event e' = Some (matrix.Room_redact because src)
        /\ EventLike.id e' = EventLike.id e
        /\ EventLike.sender e' = EventLike.sender e
        /\ EventLike.type e' = EventLike.type e
        /\ EventLike.redacts e' = EventLike.redacts e
  end.
Proof.
  unfold EventLike.redact.
  destruct (EventLike.event e) as [src|]; [|reflexivity].
  eexists; split; [reflexivity|]. simpl. repeat split.
Qed.

(** A redacted record is a fixed point of the applicator. *)
Lemma redact_twice (r1 r2 : matrix.Redaction) (e e1 : EventLike.t) :
  EventLike.redact r1 e = Returns tt e1 ->
  EventLike.redact r2 e1 = Returns tt e1.
Proof.
  unfold EventLike.redact.
  destruct (EventLike.event e) as [src|]; [|discriminate].
  intros H. injection H as <-. simpl.
  rewrite Room_redact_idempotent, redacted_form_idempotent. reflexivity.
Qed.

(** C9.  A record that a redaction has been applied to is not changed
    by a second redaction: the second call returns the very same record,
    whose time is absent and whose content is the redacted content. *)
Theorem redact_redacted_record (r1 r2 : matrix.Redaction) (e e1 : EventLike.t) :
  EventLike.redact r1 e = Returns tt e1 ->
  EventLike.redact r2 e1 = Returns tt e1
  /\ EventLike.time e1 = None
  /\ (forall src, EventLike.event e = Some src ->
        EventLike.content e1
        = matrix.redacted_form (matrix.Room_type src) (matrix.Room_content src)).
Proof.
  intros H. split; [exact (@redact_twice r1 r2 e e1 H)|].
  unfold EventLike.redact in H.
  destruct (EventLike.event e) as [src|] eqn:E; [|discriminate].
  injection H as <-. simpl. split; [reflexivity|].
  intros src' Hs. injection Hs as <-. reflexivity.
Qed.

Lemma redact_redacted_record_witness :
  exists e1,
    EventLike.redact (Sample.redaction "$r1" "@a:x" "$1" 5000)
      (EventLike.of_room 0%N Sample.room_state
         (Sample.message "$1" "@a:x" 1000 "hi" None)) = Returns tt e1
    /\ EventLike.redact (Sample.redaction "$r2" "@m:x" "$1" 9000) e1 = Returns tt e1
    /\ EventLike.time e1 = None
    /\ EventLike.content e1 = [].
Proof.
  eexists. split; [reflexivity|].
  destruct (@redact_redacted_record
              (Sample.redaction "$r1" "@a:x" "$1" 5000)
              (Sample.redaction "$r2" "@m:x" "$1" 9000)
              (EventLike.of_room 0%N Sample.room_state
                 (Sample.message "$1" "@a:x" 1000 "hi" None))
              _ eq_refl) as (H1 & H2 & H3).
  split; [exact H1|]. split; [exact H2|]. reflexivity.
Defined.

(** ** Per-region resolution *)

Lemma selection_for_character id ty layout bs sel para :
  Selection.mode sel = Selection.CHARACTER ->
  selection_for id ty layout bs sel para
  = selection_bounds id ty layout bs sel para.
Proof.
  intros Hm. unfold selection_for.
  destruct (selection_bounds id ty layout bs sel para) as [r|]; [|reflexivity].
  rewrite Hm. reflexivity.
Qed.

(** PARAGRAPH mode: whatever the bounds, the range is the whole text. *)
Lemma selection_for_paragraph id ty layout bs sel para r :
  Selection.mode sel = Selection.PARAGRAPH ->
  selection_for id ty layout bs sel para = Some r ->
  affected r = {| TextRange.start := 0%Z; TextRange.length := QTextLayout.size layout |}.
Proof.
  intros Hm. unfold selection_for.
  destruct (selection_bounds id ty layout bs sel para) as [r0|]; [|discriminate].
  rewrite Hm. simpl. intros H. injection H as <-. reflexivity.
Qed.

(** WORD mode: the start is the backward word query at the start of
    the bounds; the length is the forward word query at their end. *)
Lemma selection_for_word id ty layout bs sel para r0 :
  Selection.mode sel = Selection.WORD ->
  selection_bounds id ty layout bs sel para = Some r0 ->
  selection_for id ty layout bs sel para
  = Some {| continues := continues r0;
            affected :=
              {| TextRange.start :=
                   QTextLayout.previousCursorPosition layout
                     (TextRange.start (affected r0));
                 TextRange.length :=
                   QTextLayout.nextCursorPosition layout
                     (int_add (TextRange.start (affected r0))
                              (TextRange.length (affected r0))) |} |}.
Proof.
  intros Hm Hb. unfold selection_for. rewrite Hb, Hm. reflexivity.
Qed.

(** C4.  A double click at offset 5 of "aaa bbbb cc ddd" (inside the
    second word) resolves, in WORD mode, to start 4 and length 9: the
    range ends at offset 13, between two letters of the fourth word.
    The length is the position the forward word query returned (9, the
    end the selection should have), not its distance from the start. *)
Theorem word_mode_end_splits_word :
  selection_for 0%N Cursor.BODY Sample.words false Sample.double_click 0%N
  = Some {| continues := false;
            affected := {| TextRange.start := 4%Z; TextRange.length := 9%Z |} |}
  /\ QTextLayout.splits_word Sample.words 4%Z = false
  /\ QTextLayout.splits_word Sample.words (4 + 9)%Z = true
  /\ QTextLayout.nextCursorPosition Sample.words 5%Z = 9%Z
  /\ QTextLayout.splits_word Sample.words 9%Z = false.
Proof. repeat split; vm_compute; reflexivity. Qed.

(** Both endpoints in the region: the range is between the offsets and
    the selection does not continue. *)
Lemma selection_bounds_both id ty layout bs sel para :
  cursor_in (Selection.begin sel) id ty para = true ->
  cursor_in (Selection.end_ sel) id ty para = true ->
  (Z.abs (Cursor.pos (Selection.begin sel) - Cursor.pos (Selection.end_ sel)) <= INT_MAX)%Z ->
  selection_bounds id ty layout bs sel para
  = Some {| continues := false;
            affected :=
              {| TextRange.start :=
                   Z.min (Cursor.pos (Selection.begin sel)) (Cursor.pos (Selection.end_ sel));
                 TextRange.length :=
                   Z.abs (Cursor.pos (Selection.begin sel) - Cursor.pos (Selection.end_ sel)) |} |}.
Proof.
  intros Hb He Hr. unfold selection_bounds. rewrite Hb, He. simpl.
  unfold int_sub. rewrite wrap_int_small by (unfold INT_MAX in *; lia).
  do 3 f_equal. lia.
Qed.

(** Neither endpoint in the region and nothing selected below: no
    highlight. *)
Lemma selection_for_none id ty layout sel para :
  cursor_in (Selection.begin sel) id ty para = false ->
  cursor_in (Selection.end_ sel) id ty para = false ->
  selection_for id ty layout false sel para = None.
Proof.
  intros Hb He. unfold selection_for, selection_bounds.
  rewrite Hb, He. reflexivity.
Qed.

(** C6, as the code has it.  In CHARACTER mode, for a region that
    exactly one endpoint addresses: when the selection continues from
    below, the highlight starts at the endpoint's offset, or at 0 if the
    offset is negative, and ends at the end of the text, and the outgoing
    flag is false; otherwise the highlight starts at 0 and its length is
    the offset, or the length of the text if the offset lies beyond it,
    and the outgoing flag is true. *)
Theorem one_endpoint_resolution id ty layout bs sel para :
  Selection.mode sel = Selection.CHARACTER ->
  xorb (cursor_in (Selection.begin sel) id ty para)
       (cursor_in (Selection.end_ sel) id ty para) = true ->
  let endpoint :=
    if cursor_in (Selection.begin sel) id ty para
    then Cursor.pos (Selection.begin sel)
    else Cursor.pos (Selection.end_ sel) in
  (endpoint <= INT_MAX)%Z ->
  (QTextLayout.size layout <= INT_MAX)%Z ->
  selection_for id ty layout bs sel para
  = Some (if bs
          then {| continues := false;
                  affected :=
                    {| TextRange.start := Z.max 0 endpoint;
                       TextRange.length := (QTextLayout.size layout - Z.max 0 endpoint)%Z |} |}
          else {| continues := true;
                  affected :=
                    {| TextRange.start := 0%Z;
                       TextRange.length := Z.min (QTextLayout.size layout) endpoint |} |}).
Proof.
  intros Hm Hx endpoint Hep Hsz.
  rewrite selection_for_character by exact Hm.
  unfold selection_bounds. fold endpoint.
  pose proof (size_nonneg layout) as Hs0.
  assert (Hw : int_sub (QTextLayout.size layout) (Z.max 0 endpoint)
               = (QTextLayout.size layout - Z.max 0 endpoint)%Z).
  { unfold int_sub. apply wrap_int_small. unfold INT_MAX in *. lia. }
  subst endpoint.
  destruct (cursor_in (Selection.begin sel) id ty para),
           (cursor_in (Selection.end_ sel) id ty para);
    try discriminate; simpl; destruct bs; rewrite ?Hw; reflexivity.
Qed.

Lemma one_endpoint_resolution_witness :
  selection_for 7%N Cursor.BODY Sample.short false Sample.stale 0%N
  = Some {| continues := true;
            affected := {| TextRange.start := 0%Z; TextRange.length := 3%Z |} |}.
Proof.
  apply (@one_endpoint_resolution 7%N Cursor.BODY Sample.short false Sample.stale 0%N).
  - reflexivity.
  - reflexivity.
  - vm_compute. discriminate.
  - vm_compute. discriminate.
Defined.

(** C6 does not hold for every offset: with the begin cursor at offset
    10 of a region whose text has 3 characters, the end cursor elsewhere
    and nothing selected below, the highlight has length 3, not 10. *)
Lemma one_endpoint_offset_beyond_text :
  ~ (forall id ty layout bs sel para r,
       Selection.mode sel = Selection.CHARACTER ->
       xorb (cursor_in (Selection.begin sel) id ty para)
            (cursor_in (Selection.end_ sel) id ty para) = true ->
       selection_for id ty layout bs sel para = Some r ->
       let endpoint :=
         if cursor_in (Selection.begin sel) id ty para
         then Cursor.pos (Selection.begin sel)
         else Cursor.pos (Selection.end_ sel) in
       if bs
       then TextRange.start (affected r) = endpoint
            /\ (TextRange.start (affected r) + TextRange.length (affected r))%Z
               = QTextLayout.size layout
            /\ continues r = false
       else TextRange.start (affected r) = 0%Z
            /\ TextRange.length (affected r) = endpoint
            /\ continues r = true).
Proof.
  intros H.
  specialize (H 7%N Cursor.BODY Sample.short false Sample.stale 0%N
                _ eq_refl eq_refl eq_refl).
  simpl in H. destruct H as (_ & H & _). vm_compute in H. discriminate.
Qed.

(** Within the text the offset itself bounds the highlight. *)
Lemma one_endpoint_within_text id ty layout bs sel para :
  Selection.mode sel = Selection.CHARACTER ->
  xorb (cursor_in (Selection.begin sel) id ty para)
       (cursor_in (Selection.end_ sel) id ty para) = true ->
  let endpoint :=
    if cursor_in (Selection.begin sel) id ty para
    then Cursor.pos (Selection.begin sel)
    else Cursor.pos (Selection.end_ sel) in
  (0 <= endpoint <= QTextLayout.size layout)%Z ->
  (QTextLayout.size layout <= INT_MAX)%Z ->
  selection_for id ty layout bs sel para
  = Some (if bs
          then {| continues := false;
                  affected :=
                    {| TextRange.start := endpoint;
                       TextRange.length := (QTextLayout.size layout - endpoint)%Z |} |}
          else {| continues := true;
                  affected :=
                    {| TextRange.start := 0%Z; TextRange.length := endpoint |} |}).
Proof.
  intros Hm Hx endpoint Hep Hsz.
  rewrite selection_for_character by exact Hm.
  unfold selection_bounds. fold endpoint.
  assert (Hw : int_sub (QTextLayout.size layout) (Z.max 0 endpoint)
               = (QTextLayout.size layout - endpoint)%Z).
  { unfold int_sub. rewrite Z.max_r by lia.
    apply wrap_int_small. unfold INT_MAX in *. lia. }
  rewrite (Z.max_r 0 endpoint) in * by lia.
  rewrite (Z.min_r (QTextLayout.size layout) endpoint) by lia.
  subst endpoint.
  destruct (cursor_in (Selection.begin sel) id ty para),
           (cursor_in (Selection.end_ sel) id ty para);
    try discriminate; simpl; destruct bs; rewrite ?Hw; reflexivity.
Qed.

(** ** The block partitioner *)

Lemma block_border_false (a b : EventLike.t) :
  block_border a b = false <->
  EventLike.sender a = EventLike.sender b
  /\ exists ta tb,
       EventLike.time a = Some ta /\ EventLike.time b = Some tb
       /\ (tb - ta <= BLOCK_MERGE_INTERVAL)%Z.
Proof.
  unfold block_border. rewrite orb_false_iff, negb_false_iff, String.eqb_eq.
  split.
  - intros [Hs Ht]. split; [symmetry; exact Hs|].
    destruct (EventLike.time b) as [tb|]; [|discriminate].
    destruct (EventLike.time a) as [ta|]; [|discriminate].
    exists ta, tb. split; [reflexivity|]. split; [reflexivity|].
    rewrite Z.gtb_ltb in Ht. apply Z.ltb_ge in Ht. exact Ht.
  - intros [Hs (ta & tb & Ha & Hb & Hd)]. split; [symmetry; exact Hs|].
    rewrite Ha, Hb. rewrite Z.gtb_ltb. apply Z.ltb_ge. exact Hd.
Qed.

Lemma block_border_false_timed (a b : EventLike.t) :
  block_border a b = false -> has_time a /\ has_time b.
Proof.
  intros H. apply block_border_false in H.
  destruct H as [_ (ta & tb & Ha & Hb & _)].
  unfold has_time. rewrite Ha, Hb. split; discriminate.
Qed.

(** *** The runs of a sequence *)

Lemma runs_from_head (l : list EventLike.t) :
  forall a, exists r rs, runs_from a l = (a :: r) :: rs.
Proof.
  induction l as [|b l IH]; intros a; simpl.
  - exists [], []. reflexivity.
  - destruct (block_border a b).
    + exists [], (runs_from b l). reflexivity.
    + destruct (IH b) as (r & rs & E). rewrite E.
      exists (b :: r), rs. reflexivity.
Qed.

Lemma concat_runs_from (l : list EventLike.t) :
  forall a, List.concat (runs_from a l) = a :: l.
Proof.
  induction l as [|b l IH]; intros a; simpl; [reflexivity|].
  specialize (IH b).
  destruct (block_border a b); simpl.
  - rewrite IH. reflexivity.
  - destruct (runs_from_head l b) as (r & rs & E). rewrite E in *.
    simpl in *. rewrite IH. reflexivity.
Qed.

Lemma concat_split_runs (l : list EventLike.t) : List.concat (split_runs l) = l.
Proof. destruct l; [reflexivity|apply concat_runs_from]. Qed.

Lemma uniform_single (e : EventLike.t) : uniform [e].
Proof. left. simpl. lia. Qed.

Lemma uniform_timed (run : list EventLike.t) (e : EventLike.t) :
  uniform run -> In e run -> has_time e -> Forall has_time run.
Proof.
  intros [Hl|Hf] Hin Ht; [|exact Hf].
  destruct run as [|x [|y run]]; simpl in *; try lia; try contradiction.
  destruct Hin as [->|[]]. constructor; [exact Ht|constructor].
Qed.

Lemma runs_from_uniform (l : list EventLike.t) :
  forall a, Forall (fun run => run <> [] /\ uniform run) (runs_from a l).
Proof.
  induction l as [|b l IH]; intros a; simpl.
  - constructor; [|constructor]. split; [discriminate|apply uniform_single].
  - specialize (IH b).
    destruct (block_border a b) eqn:Hb.
    + constructor; [|exact IH]. split; [discriminate|apply uniform_single].
    + destruct (runs_from_head l b) as (r & rs & E). rewrite E in *.
      inversion IH as [|? ? [_ Hu] Hrest]; subst.
      constructor; [|exact Hrest]. split; [discriminate|].
      right. apply block_border_false_timed in Hb. destruct Hb as [Ha Hb'].
      constructor; [exact Ha|].
      apply (@uniform_timed (b :: r) b Hu); [left; reflexivity|exact Hb'].
Qed.

Lemma split_runs_uniform (l : list EventLike.t) :
  Forall (fun run => run <> [] /\ uniform run) (split_runs l).
Proof. destruct l; [constructor|apply runs_from_uniform]. Qed.


(** *** The loops compute the runs *)

Lemma run_step_last (B : list (list EventLike.t)) (pre : list EventLike.t)
    (c e : EventLike.t) :
  run_step (B, pre ++ [c]) e
  = if block_border c e then (B ++ [pre ++ [c]], [e]) else (B, (pre ++ [c]) ++ [e]).
Proof.
  unfold run_step. simpl snd. simpl fst.
  destruct (pre ++ [c]) as [|front t] eqn:E.
  - destruct pre; discriminate.
  - rewrite <- E. rewrite last_last. reflexivity.
Qed.

Lemma run_loop_from (l : list EventLike.t) :
  forall B pre c,
    run_finish (fold_left run_step l (B, pre ++ [c]))
    = B ++ match runs_from c l with
           | run :: runs => (pre ++ run) :: runs
           | [] => []
           end.
Proof.
  induction l as [|e l IH]; intros B pre c.
  - simpl. unfold run_finish. simpl.
    destruct (pre ++ [c]) eqn:E; [destruct pre; discriminate|reflexivity].
  - cbn [fold_left]. rewrite run_step_last. simpl runs_from.
    destruct (block_border c e).
    + pose proof (IH (B ++ [pre ++ [c]]) [] e) as H.
      change ([] ++ [e]) with [e] in H. rewrite H.
      destruct (runs_from_head l e) as (r & rs & E). rewrite E.
      rewrite <- app_assoc. reflexivity.
    + rewrite (IH B (pre ++ [c]) e).
      destruct (runs_from_head l e) as (r & rs & E). rewrite E.
      rewrite <- app_assoc. reflexivity.
Qed.

Lemma run_loop (l : list EventLike.t) :
  run_finish (fold_left run_step l ([], [])) = split_runs l.
Proof.
  destruct l as [|a l]; [reflexivity|].
  cbn [fold_left]. unfold run_step at 2. cbn [fst snd].
  pose proof (run_loop_from l [] [] a) as H.
  change ([] ++ [a]) with [a] in H. rewrite H.
  destruct (runs_from_head l a) as (r & rs & E).
  unfold split_runs. rewrite E. reflexivity.
Qed.

Lemma run_step_uniform st e :
  uniform (snd st) -> uniform (snd (run_step st e)).
Proof.
  intros Hu. unfold run_step.
  destruct (snd st) as [|front t] eqn:E; [apply uniform_single|].
  destruct (block_border (last (front :: t) front) e) eqn:Hb;
    [apply uniform_single|].
  cbn [snd]. right.
  apply block_border_false_timed in Hb. destruct Hb as [Hl He].
  apply Forall_app. split; [|constructor; [exact He|constructor]].
  apply (@uniform_timed (front :: t) (last (front :: t) front) Hu); [|exact Hl].
  destruct (@exists_last _ (front :: t)) as (p & z & Ez); [discriminate|].
  rewrite Ez, last_last. apply in_or_app. right. left. reflexivity.
Qed.

Section Partitioner.

Variable body_paragraphs :
  QTextLayout.t -> matrix.UserID -> EventLike.t -> list QTextLayout.t.

(** The constructor is defined on every run the loops close. *)
Lemma make_uniform (run : list EventLike.t) :
  run <> [] -> uniform run ->
  exists b, EventBlock.make body_paragraphs run = Defined_ b.
Proof.
  intros Hne Hu. destruct run as [|front t]; [contradiction|].
  unfold EventBlock.make.
  destruct (EventLike.time front) as [t0|] eqn:E0; [|eexists; reflexivity].
  assert (Hl : has_time (last (front :: t) front)).
  { assert (Hf : Forall has_time (front :: t)).
    { apply (@uniform_timed (front :: t) front Hu); [left; reflexivity|].
      unfold has_time. rewrite E0. discriminate. }
    rewrite Forall_forall in Hf. apply Hf.
    destruct (@exists_last _ (front :: t)) as (p & z & Ez); [discriminate|].
    rewrite Ez, last_last. apply in_or_app. right. left. reflexivity. }
  unfold has_time in Hl.
  destruct (EventLike.time (last (front :: t) front)); [|contradiction].
  eexists; reflexivity.
Qed.

Lemma rebuild_fold (l : list EventLike.t) :
  forall blocks B cur,
    Forall2 (built_from body_paragraphs) B blocks ->
    uniform cur ->
    exists blocks',
      fold_left (TimelineView.rebuild_step body_paragraphs) l (Defined_ (blocks, cur))
      = Defined_ (blocks', snd (fold_left run_step l (B, cur)))
      /\ Forall2 (built_from body_paragraphs) (fst (fold_left run_step l (B, cur))) blocks'
      /\ uniform (snd (fold_left run_step l (B, cur))).
Proof.
  induction l as [|e l IH]; intros blocks B cur HB Hu.
  - exists blocks. simpl. auto.
  - cbn [fold_left].
    pose proof (@run_step_uniform (B, cur) e Hu) as Hu'.
    unfold TimelineView.rebuild_step at 2. unfold run_step in *.
    cbn [and_then fst snd] in *.
    destruct cur as [|front t].
    + apply IH; assumption.
    + destruct (block_border (last (front :: t) front) e).
      * destruct (@make_uniform (front :: t)) as (b & Eb); [discriminate|exact Hu|].
        unfold TimelineView.close_block. cbn [fst snd]. rewrite Eb.
        cbn [and_then fst snd app].
        apply IH; [|exact Hu'].
        apply Forall2_app; [exact HB|]. constructor; [exact Eb|constructor].
      * apply IH; assumption.
Qed.

Lemma fold_left_flat_map {A B C} (f : A -> C -> A) (g : B -> list C) (bs : list B) :
  forall a,
    fold_left (fun st b => fold_left f (g b) st) bs a
    = fold_left f (flat_map g bs) a.
Proof.
  induction bs as [|b bs IH]; intros a; simpl; [reflexivity|].
  rewrite fold_left_app. apply IH.
Qed.

Lemma fold_left_map {A B C} (f : A -> C -> A) (g : B -> C) (bs : list B) :
  forall a, fold_left (fun st b => f st (g b)) bs a = fold_left f (map g bs) a.
Proof.
  induction bs as [|b bs IH]; intros a; simpl; [reflexivity|apply IH].
Qed.

(** [rebuild_blocks] always returns, and its blocks are the blocks of
    the runs of the walked sequence. *)
Lemma rebuild_blocks_runs (s : TimelineView.t) :
  exists blocks,
    TimelineView.rebuild_blocks body_paragraphs s
    = Returns tt (TimelineView.set_blocks blocks s)
    /\ Forall2 (built_from body_paragraphs) (split_runs (event_view s)) blocks.
Proof.
  unfold TimelineView.rebuild_blocks.
  rewrite fold_left_flat_map.
  assert (Hwalk :
    (if TimelineView.at_bottom_ s
     then fold_left
            (fun st p => TimelineView.rebuild_step body_paragraphs st (TimelineView.event p))
            (TimelineView.pending_ s)
            (fold_left (TimelineView.rebuild_step body_paragraphs)
               (flat_map TimelineView.events (TimelineView.batches_ s))
               (Defined_ ([], [])))
     else fold_left (TimelineView.rebuild_step body_paragraphs)
            (flat_map TimelineView.events (TimelineView.batches_ s))
            (Defined_ ([], [])))
    = fold_left (TimelineView.rebuild_step body_paragraphs) (event_view s)
        (Defined_ ([], []))).
  { unfold event_view, all_events.
    destruct (TimelineView.at_bottom_ s).
    - rewrite fold_left_map, fold_left_app. reflexivity.
    - rewrite app_nil_r. reflexivity. }
  rewrite Hwalk. clear Hwalk.
  destruct (@rebuild_fold (event_view s) [] [] [])
    as (blocks' & E & HB & Hu); [constructor|left; simpl; lia|].
  rewrite E. cbn [and_then snd].
  pose proof (run_loop (event_view s)) as Hrun.
  unfold run_finish in Hrun.
  destruct (snd (fold_left run_step (event_view s) ([], []))) as [|front t] eqn:Ecur.
  - exists blocks'. split; [reflexivity|]. rewrite <- Hrun. exact HB.
  - destruct (@make_uniform (front :: t)) as (b & Eb); [discriminate|exact Hu|].
    unfold TimelineView.close_block. cbn [fst snd]. rewrite Eb. cbn [and_then].
    exists (blocks' ++ [b]). split; [reflexivity|].
    rewrite <- Hrun. apply Forall2_app; [exact HB|].
    constructor; [exact Eb|constructor].
Qed.

Lemma built_from_events (run : list EventLike.t) (b : EventBlock.t) :
  built_from body_paragraphs run b ->
  map EventBlock.id (EventBlock.events_ b) = map EventLike.id run
  /\ List.length (EventBlock.events_ b) = List.length run.
Proof.
  unfold built_from, EventBlock.make. intros H.
  destruct run as [|front t]; [discriminate|].
  assert (Hev : EventBlock.events_ b
                = map (EventBlock.make_Event body_paragraphs
                         {| QTextLayout.text := EventBlock.name_text front |}
                         (EventLike.sender front)) (front :: t)).
  { destruct (EventLike.time front).
    - destruct (EventLike.time (last (front :: t) front)); [|discriminate].
      injection H as <-. reflexivity.
    - injection H as <-. reflexivity. }
  rewrite Hev. split.
  - rewrite map_map. reflexivity.
  - apply length_map.
Qed.

Lemma built_from_sizes (runs : list (list EventLike.t)) (blocks : list EventBlock.t) :
  Forall2 (built_from body_paragraphs) runs blocks ->
  map (fun b => List.length (EventBlock.events_ b)) blocks = map (@List.length _) runs
  /\ block_ids blocks = map EventLike.id (List.concat runs).
Proof.
  induction 1 as [|run b runs blocks Hb _ [IH1 IH2]]; [split; reflexivity|].
  destruct (built_from_events Hb) as [Hids Hlen].
  split.
  - simpl. rewrite Hlen, IH1. reflexivity.
  - unfold block_ids in *. simpl. rewrite map_app, Hids, IH2. reflexivity.
Qed.

End Partitioner.

Section Blocks.

Variable body_paragraphs :
  QTextLayout.t -> matrix.UserID -> EventLike.t -> list QTextLayout.t.




(** Where the timestamps do not run backwards, and the difference fits
    64 bits, the border is the same whether the difference is signed or
    wraps. *)
Lemma block_border_wrapping_in_order (a b : EventLike.t) :
  in_order a b ->
  (forall ta tb,
     EventLike.time a = Some ta -> EventLike.time b = Some tb ->
     (tb - ta < 2 ^ 64)%Z) ->
  block_border_wrapping a b = block_border a b.
Proof.
  unfold in_order, block_border_wrapping, block_border, elapsed_wrapping.
  intros Ho Hr.
  destruct (EventLike.time a) as [ta|], (EventLike.time b) as [tb|];
    try reflexivity.
  rewrite Z.mod_small; [reflexivity|].
  specialize (Hr ta tb eq_refl eq_refl). lia.
Qed.


End Blocks.



(** ** The event stream *)

Lemma all_events_app (xs ys : list TimelineView.Batch) :
  all_events (xs ++ ys) = all_events xs ++ all_events ys.
Proof. unfold all_events. apply flat_map_app. Qed.

Lemma all_events_push_back begin0 e batches :
  all_events (TimelineView.push_back_event begin0 e batches) = all_events batches ++ [e].
Proof.
  unfold TimelineView.push_back_event.
  destruct batches as [|b0 bs]; [reflexivity|].
  destruct (@exists_last _ (b0 :: bs)) as (front & back & E); [discriminate|].
  rewrite E. rewrite last_last, removelast_last.
  destruct (String.eqb (TimelineView.begin back) begin0).
  - rewrite !all_events_app. unfold all_events at 2 4. simpl.
    rewrite !app_nil_r, app_assoc. reflexivity.
  - rewrite all_events_app. unfold all_events at 3. simpl. reflexivity.
Qed.

Lemma all_events_push_front begin0 e batches :
  all_events (TimelineView.push_front_event begin0 e batches) = e :: all_events batches.
Proof.
  unfold TimelineView.push_front_event, all_events.
  destruct batches as [|b0 bs]; [reflexivity|].
  destruct (String.eqb (TimelineView.begin b0) begin0); reflexivity.
Qed.

Lemma push_back_nonempty begin0 e batches :
  Forall (fun b => TimelineView.events b <> []) batches ->
  Forall (fun b => TimelineView.events b <> [])
         (TimelineView.push_back_event begin0 e batches).
Proof.
  intros H. unfold TimelineView.push_back_event.
  destruct batches as [|b0 bs]; [constructor; [discriminate|constructor]|].
  destruct (@exists_last _ (b0 :: bs)) as (front & back & E); [discriminate|].
  rewrite E in *. rewrite last_last, removelast_last.
  destruct (String.eqb (TimelineView.begin back) begin0).
  - apply Forall_app in H. destruct H as [Hf _].
    apply Forall_app. split; [exact Hf|].
    constructor; [|constructor]. simpl.
    destruct (TimelineView.events back); discriminate.
  - apply Forall_app. split; [exact H|].
    constructor; [discriminate|constructor].
Qed.

Lemma push_front_nonempty begin0 e batches :
  Forall (fun b => TimelineView.events b <> []) batches ->
  Forall (fun b => TimelineView.events b <> [])
         (TimelineView.push_front_event begin0 e batches).
Proof.
  intros H. unfold TimelineView.push_front_event.
  destruct batches as [|b0 bs]; [constructor; [discriminate|constructor]|].
  destruct (String.eqb (TimelineView.begin b0) begin0).
  - inversion H; subst. constructor; [discriminate|assumption].
  - constructor; [discriminate|exact H].
Qed.

(** *** The search of the pending queue *)

Lemma find_transaction_unmatched txid pending :
  Forall (fun p => TimelineView.transaction p <> txid) pending ->
  nth_error pending (TimelineView.find_transaction txid pending) = None.
Proof.
  induction 1 as [|p pending Hp _ IH]; [reflexivity|].
  simpl. apply String.eqb_neq in Hp. rewrite Hp. exact IH.
Qed.

Lemma find_transaction_matched txid pending :
  Exists (fun p => TimelineView.transaction p = txid) pending ->
  exists before p after,
    pending = before ++ p :: after
    /\ Forall (fun q => TimelineView.transaction q <> txid) before
    /\ TimelineView.transaction p = txid
    /\ nth_error pending (TimelineView.find_transaction txid pending) = Some p
    /\ erase_at (TimelineView.find_transaction txid pending) pending = before ++ after.
Proof.
  induction pending as [|q pending IH]; intros H; [inversion H|].
  simpl. destruct (String.eqb (TimelineView.transaction q) txid) eqn:Eq.
  - exists [], q, pending. apply String.eqb_eq in Eq.
    repeat split; auto.
  - apply String.eqb_neq in Eq.
    inversion H as [? ? Hq|? ? Hex]; subst; [contradiction|].
    destruct (IH Hex) as (before & p & after & E & Hb & Hp & Hn & He).
    exists (q :: before), p, after.
    split; [simpl; f_equal; exact E|]. split; [constructor; assumption|].
    split; [exact Hp|]. split; [exact Hn|].
    change ((q :: before) ++ after) with (q :: (before ++ after)).
    rewrite <- He. reflexivity.
Qed.

(** *** The tail of every ingestion call *)

Section Stream.

Variable body_paragraphs :
  QTextLayout.t -> matrix.UserID -> EventLike.t -> list QTextLayout.t.

Lemma rebuild_blocks_same_stream (s : TimelineView.t) :
  exists s',
    TimelineView.rebuild_blocks body_paragraphs s = Returns tt s'
    /\ same_stream s s'
    /\ TimelineView.emitted s' = TimelineView.emitted s
    /\ Forall2 (built_from body_paragraphs) (split_runs (event_view s))
               (TimelineView.blocks_ s').
Proof.
  destruct (rebuild_blocks_runs body_paragraphs s) as (blocks & E & HB).
  exists (TimelineView.set_blocks blocks s).
  split; [exact E|]. split; [repeat split|]. split; [reflexivity|exact HB].
Qed.

Lemma maybe_need_forwards_same_stream (s : TimelineView.t) :
  exists s',
    TimelineView.maybe_need_forwards s = Returns tt s'
    /\ same_stream s s'
    /\ TimelineView.blocks_ s' = TimelineView.blocks_ s.
Proof.
  unfold TimelineView.maybe_need_forwards.
  destruct (TimelineView.at_bottom_ s) eqn:E; eexists; split; try reflexivity;
    split; try reflexivity; repeat split; simpl; auto.
Qed.

Lemma maybe_need_backwards_same_stream (s : TimelineView.t) :
  match TimelineView.batches_ s with
  | front :: _ => TimelineView.events front <> []
  | [] => True
  end ->
  exists s',
    TimelineView.maybe_need_backwards s = Returns tt s'
    /\ same_stream s s'
    /\ TimelineView.blocks_ s' = TimelineView.blocks_ s.
Proof.
  intros H. unfold TimelineView.maybe_need_backwards, TimelineView.at_top.
  destruct (TimelineView.batches_ s) as [|front rest] eqn:Eb.
  - eexists; split; [reflexivity|]. split; [|reflexivity]. repeat split; simpl; auto.
  - destruct (TimelineView.events front) as [|e evs]; [contradiction|].
    destruct (String.eqb (EventLike.type e) matrix.Create_tag);
      eexists; (split; [reflexivity|]); (split; [|reflexivity]);
      repeat split; simpl; auto.
Qed.

Lemma same_stream_trans (s1 s2 s3 : TimelineView.t) :
  same_stream s1 s2 -> same_stream s2 s3 -> same_stream s1 s3.
Proof.
  unfold same_stream. intros (A1 & A2 & A3 & A4) (B1 & B2 & B3 & B4).
  repeat split; congruence.
Qed.

Lemma same_stream_views (s s' : TimelineView.t) :
  same_stream s s' -> records s' = records s /\ event_view s' = event_view s.
Proof.
  unfold same_stream, records, event_view. intros (A1 & A2 & A3 & A4).
  rewrite A1, A2, A3. split; reflexivity.
Qed.

(** [rebuild_blocks(); maybe_need_forwards();] *)
Lemma rebuild_then_forwards (s : TimelineView.t) :
  exists s',
    bind (TimelineView.rebuild_blocks body_paragraphs)
         (fun _ => TimelineView.maybe_need_forwards) s = Returns tt s'
    /\ same_stream s s'
    /\ Forall2 (built_from body_paragraphs) (split_runs (event_view s))
               (TimelineView.blocks_ s').
Proof.
  destruct (rebuild_blocks_same_stream s) as (s1 & E1 & H1 & _ & HB).
  destruct (maybe_need_forwards_same_stream s1) as (s2 & E2 & H2 & Hbl).
  exists s2. unfold bind. rewrite E1, E2.
  split; [reflexivity|]. split; [eapply same_stream_trans; eassumption|].
  rewrite Hbl. exact HB.
Qed.

(** *** [append] and [prepend] *)

(** C1.  When the raw event carries a transaction token and no record
    of the pending queue has that token, the search loop of [append]
    ends at the past-the-end iterator, which is then dereferenced and
    erased: the call has undefined behaviour; it neither assigns a
    fresh identifier nor returns. *)
Theorem append_unmatched_token (begin0 : matrix.TimelineCursor)
    (state : matrix.RoomState) (evt : matrix.Room) (txid : string)
    (s : TimelineView.t) :
  TimelineView.transaction_of evt = Some txid ->
  Forall (fun p => TimelineView.transaction p <> txid) (TimelineView.pending_ s) ->
  TimelineView.append body_paragraphs begin0 state evt s = Undefined DerefEndIterator.
Proof.
  intros Htx Hno. unfold TimelineView.append, bind. rewrite Htx.
  rewrite (find_transaction_unmatched Hno). reflexivity.
Qed.

(** The sibling path: [prepend] with such a token returns, leaves the
    pending queue as it is and gives the record a fresh identifier. *)
Lemma prepend_returns (begin0 : matrix.TimelineCursor)
    (state : matrix.RoomState) (evt : matrix.Room) (s : TimelineView.t) :
  exists s',
    TimelineView.prepend body_paragraphs begin0 state evt s = Returns tt s'
    /\ all_events (TimelineView.batches_ s')
       = EventLike.of_room (TimelineView.id_counter_ s) state evt
         :: all_events (TimelineView.batches_ s)
    /\ TimelineView.batches_ s'
       = TimelineView.push_front_event begin0
           (EventLike.of_room (TimelineView.id_counter_ s) state evt)
           (TimelineView.batches_ s)
    /\ TimelineView.pending_ s'
       = match TimelineView.transaction_of evt with
         | Some txid =>
             filter (fun p => negb (String.eqb (TimelineView.transaction p) txid))
                    (TimelineView.pending_ s)
         | None => TimelineView.pending_ s
         end
    /\ TimelineView.id_counter_ s' = N.succ (TimelineView.id_counter_ s)
    /\ TimelineView.at_bottom_ s' = TimelineView.at_bottom_ s.
Proof.
  unfold TimelineView.prepend, bind, TimelineView.get_id, modify, ret.
  destruct (TimelineView.transaction_of evt) as [txid|];
    match goal with
    | |- context [TimelineView.rebuild_blocks _ ?x] =>
        destruct (rebuild_blocks_same_stream x) as (s3 & E3 & (A1 & A2 & A3 & A4) & _ & _)
    end;
    rewrite E3;
    (destruct (maybe_need_backwards_same_stream s3) as (s4 & E4 & (B1 & B2 & B3 & B4) & _);
     [ rewrite A1; simpl; unfold TimelineView.push_front_event;
       destruct (TimelineView.batches_ s) as [|b0 bs]; [discriminate|];
       destruct (String.eqb (TimelineView.begin b0) begin0); discriminate
     | ]);
    exists s4; (split; [exact E4|]);
    rewrite B1, B2, B3, B4, A1, A2, A3, A4; simpl;
    (split; [apply all_events_push_front|]); repeat split.
Qed.

(** Without a token, [append] gives the record a fresh identifier and
    leaves the pending queue as it is. *)
Lemma append_without_token (begin0 : matrix.TimelineCursor)
    (state : matrix.RoomState) (evt : matrix.Room) (s : TimelineView.t) :
  TimelineView.transaction_of evt = None ->
  exists s',
    TimelineView.append body_paragraphs begin0 state evt s = Returns tt s'
    /\ all_events (TimelineView.batches_ s')
       = all_events (TimelineView.batches_ s)
         ++ [EventLike.of_room (TimelineView.id_counter_ s) state evt]
    /\ TimelineView.batches_ s'
       = TimelineView.push_back_event begin0
           (EventLike.of_room (TimelineView.id_counter_ s) state evt)
           (TimelineView.batches_ s)
    /\ TimelineView.pending_ s' = TimelineView.pending_ s
    /\ TimelineView.id_counter_ s' = N.succ (TimelineView.id_counter_ s)
    /\ TimelineView.at_bottom_ s' = TimelineView.at_bottom_ s.
Proof.
  intros Htx. unfold TimelineView.append. rewrite Htx.
  unfold bind at 1. unfold ret at 1.
  unfold bind at 1. unfold TimelineView.get_id.
  unfold bind at 1. unfold modify.
  set (s2 := TimelineView.set_batches _ _).
  destruct (rebuild_then_forwards s2) as (s' & E & (A1 & A2 & A3 & A4) & _).
  exists s'. split; [exact E|].
  rewrite A1, A2, A3, A4. subst s2. simpl.
  split; [apply all_events_push_back|]. repeat split.
Qed.

Lemma append_with_token (begin0 : matrix.TimelineCursor)
    (state : matrix.RoomState) (evt : matrix.Room) (txid : string)
    (s : TimelineView.t) :
  TimelineView.transaction_of evt = Some txid ->
  Exists (fun p => TimelineView.transaction p = txid) (TimelineView.pending_ s) ->
  exists s' before p after,
    TimelineView.append body_paragraphs begin0 state evt s = Returns tt s'
    /\ TimelineView.pending_ s = before ++ p :: after
    /\ Forall (fun q => TimelineView.transaction q <> txid) before
    /\ TimelineView.transaction p = txid
    /\ TimelineView.pending_ s' = before ++ after
    /\ all_events (TimelineView.batches_ s')
       = all_events (TimelineView.batches_ s)
         ++ [EventLike.of_room (EventLike.id (TimelineView.event p)) state evt]
    /\ TimelineView.batches_ s'
       = TimelineView.push_back_event begin0
           (EventLike.of_room (EventLike.id (TimelineView.event p)) state evt)
           (TimelineView.batches_ s)
    /\ TimelineView.id_counter_ s' = TimelineView.id_counter_ s
    /\ TimelineView.at_bottom_ s' = TimelineView.at_bottom_ s.
Proof.
  intros Htx Hex.
  destruct (find_transaction_matched Hex) as (before & p & after & Ep & Hb & Hp & Hn & He).
  unfold TimelineView.append. rewrite Htx.
  unfold bind at 1. rewrite Hn, He.
  unfold bind at 1. unfold ret at 1.
  unfold bind at 1. unfold modify.
  set (s2 := TimelineView.set_batches _ _).
  destruct (rebuild_then_forwards s2) as (s' & E & (A1 & A2 & A3 & A4) & _).
  exists s', before, p, after. split; [exact E|].
  rewrite A1, A2, A3, A4. subst s2. simpl.
  split; [exact Ep|]. split; [exact Hb|]. split; [exact Hp|].
  split; [reflexivity|]. split; [apply all_events_push_back|]. repeat split.
Qed.



End Stream.

Lemma append_unmatched_token_witness :
  TimelineView.append Sample.plain_body "c1"%string Sample.room_state Sample.echo
                      TimelineView.init
  = Undefined DerefEndIterator.
Proof.
  apply (@append_unmatched_token Sample.plain_body "c1"%string Sample.room_state
           Sample.echo "x1"%string TimelineView.init).
  - reflexivity.
  - constructor.
Defined.


(** *** [redact] *)

Lemma redact_source (redaction : matrix.Redaction) (e : EventLike.t) (src : matrix.Room) :
  EventLike.event e = Some src ->
  exists e',
    EventLike.redact redaction e = Returns tt e'
    /\ EventLike.id e' = EventLike.id e
    /\ EventLike.type e' = EventLike.type e
    /\ EventLike.event e' = Some (matrix.Room_redact redaction src).
Proof.
  intros E. unfold EventLike.redact. rewrite E.
  eexists. split; [reflexivity|]. repeat split.
Qed.

(** What the inner loop has done when it returns. *)
Lemma redact_events_inv (redaction : matrix.Redaction) (evs : list EventLike.t) :
  forall done evs1,
    TimelineView.redact_events redaction evs = Returns done evs1 ->
    (done = false /\ evs1 = evs /\ Forall (untargeted redaction) evs)
    \/ (done = true
        /\ exists pre e post e',
             evs = pre ++ e :: post
             /\ Forall (untargeted redaction) pre
             /\ targeted redaction e = true
             /\ EventLike.redact redaction e = Returns tt e'
             /\ evs1 = pre ++ e' :: post).
Proof.
  induction evs as [|x rest IH]; intros done evs1 H; simpl in H.
  - injection H as <- <-. left. repeat split. constructor.
  - destruct (EventLike.event x) as [src|] eqn:Ex; [|discriminate].
    destruct (String.eqb (matrix.Room_id src) (matrix.Redaction_redacts redaction)) eqn:Et.
    + destruct (redact_source redaction x Ex) as (x' & Er & _).
      unfold bind in H. rewrite Er in H. simpl in H. injection H as <- <-.
      right. split; [reflexivity|].
      exists [], x, rest, x'. repeat split; auto.
      unfold targeted. rewrite Ex. exact Et.
    + destruct (TimelineView.redact_events redaction rest) as [d r1|w r1|u] eqn:Er;
        simpl in H; try discriminate.
      injection H as <- <-.
      assert (Hx : untargeted redaction x).
      { unfold untargeted, targeted. rewrite Ex. exact Et. }
      destruct (IH _ _ eq_refl) as [(Hd & He & Hf)|(Hd & pre & e & post & e' & He & Hf & Ht & Hr & He1)].
      * left. subst. repeat split. constructor; assumption.
      * right. split; [exact Hd|].
        exists (x :: pre), e, post, e'. subst.
        repeat split; auto; constructor; assumption.
Qed.

Lemma redact_events_total (redaction : matrix.Redaction) (evs : list EventLike.t) :
  Forall has_source evs ->
  exists done evs1, TimelineView.redact_events redaction evs = Returns done evs1.
Proof.
  induction 1 as [|x rest Hx _ IH]; simpl.
  - eexists _, _. reflexivity.
  - unfold has_source in Hx.
    destruct (EventLike.event x) as [src|] eqn:Ex; [|contradiction].
    destruct (String.eqb (matrix.Room_id src) (matrix.Redaction_redacts redaction)).
    + destruct (redact_source redaction x Ex) as (x' & Er & _).
      unfold bind. rewrite Er. simpl. eexists _, _. reflexivity.
    + destruct IH as (d & r1 & E). rewrite E. simpl. eexists _, _. reflexivity.
Qed.

(** What the outer loop has done when it returns. *)
Lemma redact_batches_inv (redaction : matrix.Redaction) (batches : list TimelineView.Batch) :
  forall done batches1,
    TimelineView.redact_batches redaction batches = Returns done batches1 ->
    map TimelineView.begin batches1 = map TimelineView.begin batches
    /\ batch_sizes batches1 = batch_sizes batches
    /\ ((done = false /\ batches1 = batches
         /\ Forall (untargeted redaction) (all_events batches))
        \/ (done = true
            /\ exists pre e post e',
                 all_events batches = pre ++ e :: post
                 /\ Forall (untargeted redaction) pre
                 /\ targeted redaction e = true
                 /\ EventLike.redact redaction e = Returns tt e'
                 /\ all_events batches1 = pre ++ e' :: post)).
Proof.
  induction batches as [|b rest IH]; intros done batches1 H; simpl in H.
  - injection H as <- <-. split; [reflexivity|]. split; [reflexivity|].
    left. repeat split. constructor.
  - destruct (TimelineView.redact_events redaction (TimelineView.events b))
      as [d evs1|w evs1|u] eqn:Ee; try discriminate.
    destruct (redact_events_inv _ _ Ee)
      as [(Hd & He & Hf)|(Hd & pre & e & post & e' & He & Hf & Ht & Hr & He1)]; subst.
    + destruct (TimelineView.redact_batches redaction rest) as [d r1|w r1|u] eqn:Er;
        simpl in H; try discriminate.
      injection H as <- <-.
      destruct (IH _ _ eq_refl) as (Hb & Hs & Hcase).
      split; [simpl; rewrite Hb; reflexivity|].
      split; [unfold batch_sizes in *; simpl; rewrite Hs; reflexivity|].
      destruct Hcase as [(Hd & Hr1 & Hf1)|(Hd & pre & e & post & e' & He & Hf1 & Ht & Hr & He1)].
      * left. subst. split; [reflexivity|]. split; [destruct b; reflexivity|].
        unfold all_events. simpl. apply Forall_app. split; assumption.
      * right. split; [exact Hd|].
        exists (TimelineView.events b ++ pre), e, post, e'.
        unfold all_events in *. simpl. rewrite He, He1.
        rewrite <- !app_assoc. repeat split; auto.
        apply Forall_app. split; assumption.
    + injection H as <- <-.
      split; [reflexivity|].
      split; [unfold batch_sizes; simpl; rewrite He, !length_app; reflexivity|].
      right. split; [reflexivity|].
      exists pre, e, (post ++ all_events rest), e'.
      unfold all_events. simpl. rewrite He, <- !app_assoc. repeat split; auto.
Qed.

Lemma redact_batches_total (redaction : matrix.Redaction) (batches : list TimelineView.Batch) :
  Forall has_source (all_events batches) ->
  exists done batches1,
    TimelineView.redact_batches redaction batches = Returns done batches1.
Proof.
  induction batches as [|b rest IH]; intros H; simpl.
  - eexists _, _. reflexivity.
  - unfold all_events in H. simpl in H. apply Forall_app in H. destruct H as [Hb Hr].
    destruct (redact_events_total redaction Hb) as (d & evs1 & E). rewrite E.
    destruct d; [eexists _, _; reflexivity|].
    destruct (IH Hr) as (d' & r1 & E'). rewrite E'. simpl. eexists _, _. reflexivity.
Qed.

Lemma batch_sizes_nonempty (batches batches1 : list TimelineView.Batch) :
  batch_sizes batches1 = batch_sizes batches ->
  Forall (fun b => TimelineView.events b <> []) batches ->
  Forall (fun b => TimelineView.events b <> []) batches1.
Proof.
  revert batches. induction batches1 as [|b1 r1 IH]; intros batches E H; [constructor|].
  destruct batches as [|b r]; [discriminate|].
  unfold batch_sizes in E. simpl in E. injection E as El Er.
  inversion H as [|? ? Hb Hr]; subst.
  constructor; [|apply (IH r); assumption].
  intros Hn. rewrite Hn in El. simpl in El.
  destruct (TimelineView.events b); [contradiction|discriminate].
Qed.

Section Redact.

Variable body_paragraphs :
  QTextLayout.t -> matrix.UserID -> EventLike.t -> list QTextLayout.t.

(** [redact] on a stream of confirmed batches returns, and only its
    loops touch the stream. *)
Lemma redact_stream (redaction : matrix.Redaction) (s : TimelineView.t) :
  Forall (fun b => TimelineView.events b <> []) (TimelineView.batches_ s) ->
  Forall has_source (all_events (TimelineView.batches_ s)) ->
  exists s' done,
    TimelineView.redact body_paragraphs redaction s = Returns tt s'
    /\ TimelineView.redact_batches redaction (TimelineView.batches_ s)
       = Returns done (TimelineView.batches_ s')
    /\ TimelineView.pending_ s' = TimelineView.pending_ s
    /\ TimelineView.id_counter_ s' = TimelineView.id_counter_ s
    /\ TimelineView.at_bottom_ s' = TimelineView.at_bottom_ s.
Proof.
  intros Hne Hsrc.
  destruct (@redact_batches_total redaction _ Hsrc) as (d & bs1 & E).
  destruct (redact_batches_inv _ _ E) as (_ & Hs & _).
  unfold TimelineView.redact. unfold bind at 1. rewrite E. unfold within.
  set (s1 := TimelineView.set_batches bs1 s).
  destruct (rebuild_then_forwards body_paragraphs s1) as (s2 & E2 & (A1 & A2 & A3 & A4) & _).
  unfold bind at 1.
  unfold bind in E2.
  destruct (TimelineView.rebuild_blocks body_paragraphs s1) as [[] s1'|w s1'|u] eqn:E1;
    try discriminate.
  unfold bind at 1. rewrite E2.
  destruct (maybe_need_backwards_same_stream s2) as (s3 & E3 & (B1 & B2 & B3 & B4) & _).
  { rewrite A1. subst s1. simpl.
    pose proof (batch_sizes_nonempty _ Hs Hne) as Hne1.
    destruct bs1 as [|b1 r1]; [exact I|]. inversion Hne1; assumption. }
  exists s3, d. split; [exact E3|].
  rewrite B1, B2, B3, B4, A1, A2, A3, A4. subst s1. simpl.
  repeat split.
Qed.


End Redact.


(** ** The selection resolver over the traversal *)

Lemma Type_eqb_eq (a b : Cursor.Type_) : Cursor.Type_eqb a b = true <-> a = b.
Proof. destruct a, b; simpl; split; intros H; try reflexivity; discriminate. Qed.

Lemma region_eqb_eq (a b : region) : region_eqb a b = true <-> a = b.
Proof.
  destruct a as [[ia ta] pa], b as [[ib tb] pb]. unfold region_eqb.
  rewrite !andb_true_iff, !N.eqb_eq, Type_eqb_eq.
  split; [intros [[-> ->] ->]; reflexivity|].
  intros H. injection H as -> -> ->. auto.
Qed.

Lemma cursor_in_region (c : Cursor.t) id ty para :
  cursor_in c id ty para = region_eqb (region_of_cursor c) (id, ty, para).
Proof. reflexivity. Qed.

Section Inside.

Variable sel : Selection.t.
Hypothesis character_mode : Selection.mode sel = Selection.CHARACTER.
Hypothesis same_region :
  region_of_cursor (Selection.begin sel) = region_of_cursor (Selection.end_ sel).
Hypothesis offsets_apart :
  (Z.abs (Cursor.pos (Selection.begin sel) - Cursor.pos (Selection.end_ sel))
   <= INT_MAX)%Z.

Lemma selection_for_inside id ty layout bs para :
  region_eqb (region_of_cursor (Selection.begin sel)) (id, ty, para) = true ->
  selection_for id ty layout bs sel para
  = Some {| continues := false; affected := contained_range sel |}.
Proof.
  intros H. rewrite selection_for_character by exact character_mode.
  apply selection_bounds_both.
  - rewrite cursor_in_region. exact H.
  - rewrite cursor_in_region, <- same_region. exact H.
  - exact offsets_apart.
Qed.

Lemma selection_for_outside id ty layout para :
  region_eqb (region_of_cursor (Selection.begin sel)) (id, ty, para) = false ->
  selection_for id ty layout false sel para = None.
Proof.
  intros H. apply selection_for_none.
  - rewrite cursor_in_region. exact H.
  - rewrite cursor_in_region, <- same_region. exact H.
Qed.

Lemma draw_region_inside id ty layout index painted :
  EventBlock.draw_region id ty layout index sel (painted, false)
  = (painted ++ [painted_inside sel (id, ty, index)], false).
Proof.
  unfold EventBlock.draw_region, painted_inside. cbn [fst snd].
  destruct (region_eqb (region_of_cursor (Selection.begin sel)) (id, ty, index)) eqn:E.
  - rewrite (@selection_for_inside id ty layout false index E). reflexivity.
  - rewrite (@selection_for_outside id ty layout index E). reflexivity.
Qed.

Lemma draw_event_inside (ev : EventBlock.Event) painted :
  EventBlock.draw_event sel (painted, false) ev
  = (painted ++ map (painted_inside sel) (event_regions ev), false).
Proof.
  unfold EventBlock.draw_event, event_regions.
  generalize (rev (EventBlock.indexed (EventBlock.paragraphs ev))) as ips.
  intros ips. revert painted.
  induction ips as [|ip ips IH]; intros painted; cbn [fold_left map].
  - rewrite app_nil_r. reflexivity.
  - rewrite draw_region_inside, IH, <- app_assoc. reflexivity.
Qed.

Lemma draw_events_inside (evs : list EventBlock.Event) painted :
  fold_left (EventBlock.draw_event sel) evs (painted, false)
  = (painted ++ map (painted_inside sel) (flat_map event_regions evs), false).
Proof.
  revert painted.
  induction evs as [|ev evs IH]; intros painted; cbn [fold_left flat_map].
  - rewrite app_nil_r. reflexivity.
  - rewrite draw_event_inside, IH, map_app, <- app_assoc. reflexivity.
Qed.

Lemma draw_inside (b : EventBlock.t) :
  EventBlock.events_ b <> [] ->
  EventBlock.draw false sel b
  = Defined_ (map (painted_inside sel) (block_regions b), false).
Proof.
  intros Hne. unfold EventBlock.draw, block_regions.
  rewrite draw_events_inside.
  destruct (EventBlock.events_ b) as [|front t]; [contradiction|].
  rewrite !draw_region_inside. rewrite map_app, <- !app_assoc. reflexivity.
Qed.

Lemma paint_blocks_inside (visited : list EventBlock.t) :
  Forall (fun b => EventBlock.events_ b <> []) visited ->
  TimelineView.paint_blocks sel false visited
  = Defined_ (map (painted_inside sel) (flat_map block_regions visited), false).
Proof.
  induction 1 as [|b visited Hb _ IH]; [reflexivity|].
  cbn [TimelineView.paint_blocks flat_map]. rewrite (@draw_inside b Hb). cbn [and_then fst snd]. rewrite IH.
  cbn [and_then fst snd]. rewrite map_app. reflexivity.
Qed.

End Inside.

(** *** Regions are addressed without ambiguity *)

Lemma NoDup_app_disjoint {A} (l1 l2 : list A) (a : A) :
  NoDup (l1 ++ l2) -> In a l1 -> In a l2 -> False.
Proof.
  induction l1 as [|x l1 IH]; intros Hnd H1 H2; [contradiction|].
  simpl in Hnd. inversion Hnd as [|? ? Hx Hnd']; subst.
  destruct H1 as [->|H1].
  - apply Hx. apply in_or_app. right. exact H2.
  - exact (IH Hnd' H1 H2).
Qed.

Lemma NoDup_flat_map_owner {A B K} (key : A -> list K) (f : A -> list B)
    (owner : B -> K) (xs : list A) :
  (forall x b, In b (f x) -> In (owner b) (key x)) ->
  (forall x, In x xs -> NoDup (key x) -> NoDup (f x)) ->
  NoDup (flat_map key xs) ->
  NoDup (flat_map f xs).
Proof.
  intros Hown Hf. induction xs as [|x xs IH]; intros Hnd; simpl in *; [constructor|].
  apply NoDup_app.
  - apply Hf; [left; reflexivity|]. apply NoDup_app_remove_r in Hnd. exact Hnd.
  - apply IH.
    + intros y Hy. apply Hf. right. exact Hy.
    + apply NoDup_app_remove_l in Hnd. exact Hnd.
  - intros b Hb Hb'. apply in_flat_map in Hb'. destruct Hb' as (y & Hy & Hby).
    apply Hown in Hb. apply Hown in Hby.
    apply (NoDup_app_disjoint _ _ (owner b) Hnd Hb).
    apply in_flat_map. exists y. split; assumption.
Qed.

Lemma NoDup_map_injective {A B} (f : A -> B) (l : list A) :
  (forall x y, f x = f y -> x = y) -> NoDup l -> NoDup (map f l).
Proof.
  intros Hinj. induction 1 as [|x l Hx _ IH]; simpl; constructor; [|exact IH].
  intros Hin. apply in_map_iff in Hin. destruct Hin as (y & Hy & Hin).
  apply Hinj in Hy. subst. contradiction.
Qed.

Lemma map_fst_combine_same {A B} (xs : list A) :
  forall ys : list B,
    List.length xs = List.length ys -> map fst (combine xs ys) = xs.
Proof.
  induction xs as [|x xs IH]; intros [|y ys] H; simpl in *; try discriminate;
    [reflexivity|].
  injection H as H. rewrite (IH ys H). reflexivity.
Qed.

Lemma flat_map_single {A B} (f : A -> B) (l : list A) :
  flat_map (fun x => [f x]) l = map f l.
Proof. induction l as [|x l IH]; simpl; [reflexivity|rewrite IH; reflexivity]. Qed.

Lemma event_regions_spec (ev : EventBlock.Event) :
  event_regions ev
  = map (fun i => (EventBlock.id ev, Cursor.BODY, i))
        (rev (map N.of_nat (seq 0 (List.length (EventBlock.paragraphs ev))))).
Proof.
  unfold event_regions, EventBlock.indexed.
  rewrite <- (map_map fst (fun i => (EventBlock.id ev, Cursor.BODY, i))).
  rewrite map_rev, map_fst_combine_same; [reflexivity|].
  rewrite length_map, length_seq. reflexivity.
Qed.

Lemma event_regions_NoDup (ev : EventBlock.Event) : NoDup (event_regions ev).
Proof.
  rewrite event_regions_spec.
  apply NoDup_map_injective; [intros x y H; injection H as ->; reflexivity|].
  apply NoDup_rev. apply NoDup_map_injective; [exact Nat2N.inj|apply seq_NoDup].
Qed.

Lemma event_regions_owner (ev : EventBlock.Event) (r : region) :
  In r (event_regions ev) ->
  fst (fst r) = EventBlock.id ev /\ snd (fst r) = Cursor.BODY.
Proof.
  rewrite event_regions_spec. intros H. apply in_map_iff in H.
  destruct H as (i & <- & _). split; reflexivity.
Qed.

Lemma body_regions_owner (evs : list EventBlock.Event) (r : region) :
  In r (flat_map event_regions evs) ->
  In (fst (fst r)) (map EventBlock.id evs) /\ snd (fst r) = Cursor.BODY.
Proof.
  intros H. apply in_flat_map in H. destruct H as (ev & Hev & Hr).
  apply event_regions_owner in Hr. destruct Hr as [Hid Hty].
  split; [|exact Hty]. rewrite Hid. apply in_map. exact Hev.
Qed.

Lemma block_regions_owner (b : EventBlock.t) (r : region) :
  In r (block_regions b) ->
  In (fst (fst r)) (map EventBlock.id (EventBlock.events_ b)).
Proof.
  unfold block_regions. intros H. apply in_app_or in H. destruct H as [H|H].
  - apply body_regions_owner in H. destruct H as [H _].
    rewrite map_rev in H. apply in_rev in H. exact H.
  - destruct (EventBlock.events_ b) as [|front t]; [contradiction|].
    destruct H as [<-|[<-|[]]]; left; reflexivity.
Qed.

Lemma block_regions_NoDup (b : EventBlock.t) :
  NoDup (map EventBlock.id (EventBlock.events_ b)) ->
  NoDup (block_regions b).
Proof.
  intros Hnd. unfold block_regions. apply NoDup_app.
  - apply (NoDup_flat_map_owner (fun ev => [EventBlock.id ev]) event_regions
             (fun r : region => fst (fst r))).
    + intros ev r Hr. apply event_regions_owner in Hr. left. symmetry. apply Hr.
    + intros ev _ _. apply event_regions_NoDup.
    + rewrite flat_map_single, map_rev. apply NoDup_rev. exact Hnd.
  - destruct (EventBlock.events_ b) as [|front t]; [constructor|].
    constructor; [|constructor; [intros []|constructor]].
    intros [H|[]]. discriminate.
  - intros r Hr Hh. apply body_regions_owner in Hr. destruct Hr as [_ Hty].
    destruct (EventBlock.events_ b) as [|front t]; [contradiction|].
    destruct Hh as [<-|[<-|[]]]; discriminate.
Qed.

Lemma traversal_regions_NoDup (visited : list EventBlock.t) :
  NoDup (block_ids visited) -> NoDup (flat_map block_regions visited).
Proof.
  intros Hnd.
  apply (NoDup_flat_map_owner
           (fun b => map EventBlock.id (EventBlock.events_ b)) block_regions
           (fun r : region => fst (fst r))).
  - intros b r. apply block_regions_owner.
  - intros b _. apply block_regions_NoDup.
  - exact Hnd.
Qed.

Lemma region_of_painted_inside (sel : Selection.t) (r : region) :
  region_of_painted (painted_inside sel r) = r.
Proof. destruct r as [[i t] p]. reflexivity. Qed.

(** C5.  In CHARACTER mode, with both cursors in one region, the
    resolution of that region is the range from the smaller offset, as
    long as the distance of the offsets, and its continuation flag is
    false, whatever lies below.  A paint traversal that starts with
    nothing selected visits regions with pairwise distinct addresses,
    ends with nothing selected, and gives that range to the region of the
    cursors and no selection format to any other region. *)
Theorem selection_inside_one_region (sel : Selection.t)
    (visited : list EventBlock.t) :
  Selection.mode sel = Selection.CHARACTER ->
  region_of_cursor (Selection.begin sel) = region_of_cursor (Selection.end_ sel) ->
  (Z.abs (Cursor.pos (Selection.begin sel) - Cursor.pos (Selection.end_ sel))
   <= INT_MAX)%Z ->
  Forall (fun b => EventBlock.events_ b <> []) visited ->
  NoDup (block_ids visited) ->
  (forall layout bottom_selected,
     selection_for (Cursor.event (Selection.begin sel))
                   (Cursor.type (Selection.begin sel)) layout bottom_selected sel
                   (Cursor.paragraph (Selection.begin sel))
     = Some {| continues := false;
               affected :=
                 {| TextRange.start :=
                      Z.min (Cursor.pos (Selection.begin sel))
                            (Cursor.pos (Selection.end_ sel));
                    TextRange.length :=
                      Z.abs (Cursor.pos (Selection.begin sel)
                             - Cursor.pos (Selection.end_ sel)) |} |})
  /\ exists painted,
       TimelineView.paint_blocks sel false visited = Defined_ (painted, false)
       /\ map region_of_painted painted = flat_map block_regions visited
       /\ NoDup (map region_of_painted painted)
       /\ Forall
            (fun p =>
               EventBlock.selections p
               = if region_eqb (region_of_cursor (Selection.begin sel))
                               (region_of_painted p)
                 then [contained_range sel]
                 else [])
            painted.
Proof.
  intros Hmode Hsame Hoff Hne Hnd. split.
  - intros layout bs.
    apply (@selection_for_inside sel Hmode Hsame Hoff).
    apply region_eqb_eq. reflexivity.
  - exists (map (painted_inside sel) (flat_map block_regions visited)).
    assert (Hreg : map region_of_painted
                     (map (painted_inside sel) (flat_map block_regions visited))
                   = flat_map block_regions visited).
    { rewrite map_map. rewrite <- (map_id (flat_map block_regions visited)) at 2.
      apply map_ext. intros r. apply region_of_painted_inside. }
    split; [apply (@paint_blocks_inside sel Hmode Hsame Hoff); exact Hne|].
    split; [exact Hreg|].
    split; [rewrite Hreg; apply traversal_regions_NoDup; exact Hnd|].
    apply Forall_forall. intros p Hp. apply in_map_iff in Hp.
    destruct Hp as (r & <- & _). rewrite region_of_painted_inside. reflexivity.
Qed.

Lemma selection_inside_one_region_witness :
  exists painted,
    TimelineView.paint_blocks Sample.inside false
      (rev (TimelineView.blocks_ Sample.stream)) = Defined_ (painted, false)
    /\ NoDup (map region_of_painted painted).
Proof.
  destruct (@selection_inside_one_region Sample.inside
              (rev (TimelineView.blocks_ Sample.stream)))
    as (_ & painted & E & _ & Hnd & _).
  - reflexivity.
  - reflexivity.
  - vm_compute. discriminate.
  - vm_compute. repeat (constructor; [discriminate|]). constructor.
  - vm_compute.
    repeat (constructor; [simpl; intuition discriminate|]). constructor.
  - exists painted. split; [exact E|exact Hnd].
Defined.

(** ** The invariant of the stream *)

Lemma ids_of_records (s : TimelineView.t) :
  map EventLike.id (records s)
  = map EventLike.id (all_events (TimelineView.batches_ s))
    ++ map (fun p => EventLike.id (TimelineView.event p)) (TimelineView.pending_ s).
Proof. unfold records. rewrite map_app, map_map. reflexivity. Qed.

Lemma fresh_identifier (c : N) (ids ids' : list N) :
  NoDup ids ->
  Forall (fun i => (i < c)%N) ids ->
  Permutation (c :: ids) ids' ->
  NoDup ids' /\ Forall (fun i => (i < N.succ c)%N) ids'.
Proof.
  intros Hnd Hlt Hp. split.
  - apply (Permutation_NoDup Hp). constructor; [|exact Hnd].
    intros Hin. rewrite Forall_forall in Hlt. apply Hlt in Hin. lia.
  - apply (Permutation_Forall Hp). constructor; [lia|].
    apply (Forall_impl _ (P := fun i => (i < c)%N)); [intros i Hi; lia|exact Hlt].
Qed.

Lemma NoDup_app_filter {A B} (f : A -> B) (g : A -> bool) (ys : list A) :
  forall xs, NoDup (xs ++ map f ys) -> NoDup (xs ++ map f (filter g ys)).
Proof.
  induction ys as [|y ys IH]; intros xs H; simpl in *; [exact H|].
  destruct (g y).
  - simpl. change (xs ++ f y :: map f (filter g ys))
      with (xs ++ [f y] ++ map f (filter g ys)).
    rewrite app_assoc. apply IH. rewrite <- app_assoc. exact H.
  - apply IH. apply NoDup_remove_1 in H. exact H.
Qed.

Lemma Forall_app_filter {A B} (P : B -> Prop) (f : A -> B) (g : A -> bool)
    (xs : list B) (ys : list A) :
  Forall P (xs ++ map f ys) -> Forall P (xs ++ map f (filter g ys)).
Proof.
  intros H. apply Forall_app in H. destruct H as [Hx Hy].
  apply Forall_app. split; [exact Hx|].
  rewrite Forall_forall in *. intros b Hb. apply Hy.
  apply in_map_iff in Hb. destruct Hb as (a & <- & Ha).
  apply filter_In in Ha. apply in_map. apply Ha.
Qed.

Lemma Permutation_move_middle {A} (xs ys zs : list A) (x : A) :
  Permutation (xs ++ ys ++ x :: zs) ((xs ++ [x]) ++ ys ++ zs).
Proof.
  rewrite <- app_assoc. simpl.
  apply Permutation_app_head. symmetry. apply Permutation_middle.
Qed.

Lemma has_source_of_room id state evt : has_source (EventLike.of_room id state evt).
Proof. unfold has_source. simpl. discriminate. Qed.

Lemma well_formed_init : well_formed TimelineView.init.
Proof. repeat split; constructor. Qed.

Create HintDb stream.
#[local] Hint Resolve push_back_nonempty push_front_nonempty has_source_of_room
  Forall_app Forall_cons Forall_nil : stream.

Section Invariant.

Variable body_paragraphs :
  QTextLayout.t -> matrix.UserID -> EventLike.t -> list QTextLayout.t.

Lemma add_pending_returns transaction0 state self time0 type0 content0 affected_user
    (s : TimelineView.t) :
  exists s',
    TimelineView.add_pending body_paragraphs transaction0 state self time0 type0
                             content0 affected_user s = Returns tt s'
    /\ TimelineView.batches_ s' = TimelineView.batches_ s
    /\ TimelineView.pending_ s'
       = TimelineView.pending_ s
         ++ [{| TimelineView.transaction := transaction0;
                TimelineView.event :=
                  EventLike.make (TimelineView.id_counter_ s) state self time0 type0
                                 content0 affected_user None |}]
    /\ TimelineView.id_counter_ s' = N.succ (TimelineView.id_counter_ s)
    /\ TimelineView.at_bottom_ s' = TimelineView.at_bottom_ s.
Proof.
  unfold TimelineView.add_pending, bind, TimelineView.get_id, modify.
  match goal with
  | |- context [TimelineView.rebuild_blocks _ ?x] =>
      destruct (rebuild_blocks_same_stream body_paragraphs x)
        as (s' & E & (A1 & A2 & A3 & A4) & _ & _)
  end.
  exists s'. split; [exact E|]. rewrite A1, A2, A3, A4. repeat split.
Qed.

Lemma prepend_well_formed begin0 state evt (s s' : TimelineView.t) :
  TimelineView.prepend body_paragraphs begin0 state evt s = Returns tt s' ->
  well_formed s -> well_formed s'.
Proof.
  intros E (Hne & Hsrc & Hnd & Hlt).
  destruct (prepend_returns body_paragraphs begin0 state evt s)
    as (s1 & E1 & Hall & Hb & Hp & Hc & _).
  rewrite E in E1. injection E1 as <-.
  rewrite ids_of_records in Hnd, Hlt.
  destruct (@fresh_identifier (TimelineView.id_counter_ s) _ _ Hnd Hlt
              (Permutation_refl _)) as [Hnd1 Hlt1].
  unfold well_formed. rewrite ids_of_records, Hall, Hb, Hp, Hc.
  split; [auto with stream|].
  split; [auto with stream|].
  cbn [map app EventLike.id EventLike.of_room EventLike.set_event EventLike.make].
  destruct (TimelineView.transaction_of evt) as [txid|].
  - split.
    + apply (@NoDup_app_filter _ _ _ _ _ (_ :: _)). exact Hnd1.
    + apply (@Forall_app_filter _ _ _ _ _ (_ :: _) _). exact Hlt1.
  - split; assumption.
Qed.

Lemma append_well_formed begin0 state evt (s s' : TimelineView.t) :
  TimelineView.append body_paragraphs begin0 state evt s = Returns tt s' ->
  well_formed s -> well_formed s'.
Proof.
  intros E (Hne & Hsrc & Hnd & Hlt).
  destruct (TimelineView.transaction_of evt) as [txid|] eqn:Htx.
  - destruct (Forall_Exists_dec
                (fun p => TimelineView.transaction p <> txid)
                (fun p => match string_dec (TimelineView.transaction p) txid with
                          | left e => right (fun H => H e)
                          | right n => left n
                          end)
                (TimelineView.pending_ s)) as [Hno|Hex].
    + unfold TimelineView.append, bind in E. rewrite Htx in E.
      rewrite (find_transaction_unmatched Hno) in E. discriminate.
    + assert (Hex' : Exists (fun p => TimelineView.transaction p = txid)
                            (TimelineView.pending_ s)).
      { apply Exists_exists in Hex. destruct Hex as (p & Hp & Hn).
        apply Exists_exists. exists p. split; [exact Hp|].
        destruct (string_dec (TimelineView.transaction p) txid); [assumption|contradiction]. }
      destruct (@append_with_token body_paragraphs begin0 state evt txid s Htx Hex')
        as (s1 & before & p & after & E1 & Ep & _ & _ & Ep' & Hall & Hb & Hc & _).
      rewrite E in E1. injection E1 as <-.
      rewrite ids_of_records in Hnd, Hlt. rewrite Ep in Hnd, Hlt.
      rewrite map_app in Hnd, Hlt. cbn [map] in Hnd, Hlt.
      pose proof (Permutation_move_middle
                    (map EventLike.id (all_events (TimelineView.batches_ s)))
                    (map (fun p => EventLike.id (TimelineView.event p)) before)
                    (map (fun p => EventLike.id (TimelineView.event p)) after)
                    (EventLike.id (TimelineView.event p))) as Hperm.
      unfold well_formed. rewrite ids_of_records, Hall, Hb, Ep', Hc.
      split; [auto with stream|].
      split; [apply Forall_app; auto with stream|].
      rewrite !map_app.
      cbn [map EventLike.id EventLike.of_room EventLike.set_event EventLike.make].
      split.
      * apply (Permutation_NoDup Hperm). exact Hnd.
      * apply (Permutation_Forall Hperm). exact Hlt.
  - destruct (@append_without_token body_paragraphs begin0 state evt s Htx)
      as (s1 & E1 & Hall & Hb & Hp & Hc & _).
    rewrite E in E1. injection E1 as <-.
    rewrite ids_of_records in Hnd, Hlt.
    unfold well_formed. rewrite ids_of_records, Hall, Hb, Hp, Hc.
    split; [auto with stream|].
    split; [apply Forall_app; auto with stream|].
    rewrite map_app.
    cbn [map EventLike.id EventLike.of_room EventLike.set_event EventLike.make].
    apply (@fresh_identifier (TimelineView.id_counter_ s) _ _ Hnd Hlt).
    rewrite <- app_assoc. apply Permutation_middle.
Qed.

Lemma add_pending_well_formed transaction0 state self time0 type0 content0
    affected_user (s s' : TimelineView.t) :
  TimelineView.add_pending body_paragraphs transaction0 state self time0 type0
                           content0 affected_user s = Returns tt s' ->
  well_formed s -> well_formed s'.
Proof.
  intros E (Hne & Hsrc & Hnd & Hlt).
  destruct (add_pending_returns transaction0 state self time0 type0 content0
              affected_user s) as (s1 & E1 & Hb & Hp & Hc & _).
  rewrite E in E1. injection E1 as <-.
  rewrite ids_of_records in Hnd, Hlt.
  unfold well_formed. rewrite ids_of_records, Hb, Hp, Hc.
  split; [exact Hne|]. split; [exact Hsrc|].
  rewrite map_app. cbn [map TimelineView.event EventLike.id EventLike.make].
  apply (@fresh_identifier (TimelineView.id_counter_ s) _ _ Hnd Hlt).
  rewrite app_assoc. apply Permutation_cons_append.
Qed.

Lemma redact_well_formed redaction (s s' : TimelineView.t) :
  TimelineView.redact body_paragraphs redaction s = Returns tt s' ->
  well_formed s -> well_formed s'.
Proof.
  intros E (Hne & Hsrc & Hnd & Hlt).
  destruct (@redact_stream body_paragraphs redaction s Hne Hsrc)
    as (s1 & d & E1 & Eb & Hp & Hc & _).
  rewrite E in E1. injection E1 as <-.
  destruct (redact_batches_inv _ _ Eb) as (_ & Hs & Hcase).
  assert (Hall : map EventLike.id (all_events (TimelineView.batches_ s'))
                 = map EventLike.id (all_events (TimelineView.batches_ s))
                 /\ Forall has_source (all_events (TimelineView.batches_ s'))).
  { destruct Hcase as [(_ & -> & _)|(_ & pre & e & post & e' & He & _ & Ht & Hr & He')].
    - split; [reflexivity|exact Hsrc].
    - rewrite He in *. rewrite He'.
      unfold targeted in Ht.
      destruct (EventLike.event e) as [src|] eqn:Ee; [|discriminate].
      destruct (redact_source redaction e Ee) as (e1 & Hr1 & Hid & _ & Hev).
      rewrite Hr in Hr1. injection Hr1 as <-.
      split.
      + rewrite !map_app. simpl. rewrite Hid. reflexivity.
      + apply Forall_app in Hsrc. destruct Hsrc as [Hpre Hpost].
        inversion Hpost; subst.
        apply Forall_app. split; [exact Hpre|].
        constructor; [|assumption].
        unfold has_source. rewrite Hev. discriminate. }
  destruct Hall as [Hids Hsrc'].
  unfold well_formed. rewrite ids_of_records, Hids, Hp, Hc, <- ids_of_records.
  split; [exact (batch_sizes_nonempty _ Hs Hne)|].
  split; [exact Hsrc'|]. split; assumption.
Qed.

(** Every state the view reaches satisfies the invariant. *)
Lemma reachable_well_formed (s : TimelineView.t) :
  reachable body_paragraphs s -> well_formed s.
Proof.
  induction 1 as [|s c s' _ IH E]; [apply well_formed_init|].
  destruct c; simpl in E.
  - exact (prepend_well_formed _ _ _ E IH).
  - exact (append_well_formed _ _ _ E IH).
  - exact (redact_well_formed _ E IH).
  - exact (add_pending_well_formed _ _ _ _ _ _ _ E IH).
  - unfold TimelineView.set_at_bottom, modify in E. injection E as <-. exact IH.
Qed.

(** The blocks of a well-formed stream can be traversed by the
    selection resolver: no block is empty and no identifier is shown
    twice, in either direction of the traversal. *)
Lemma rebuilt_blocks_addressable (s : TimelineView.t) :
  well_formed s ->
  exists blocks,
    TimelineView.rebuild_blocks body_paragraphs s
    = Returns tt (TimelineView.set_blocks blocks s)
    /\ Forall (fun b => EventBlock.events_ b <> []) (rev blocks)
    /\ NoDup (block_ids (rev blocks)).
Proof.
  intros (_ & _ & Hnd & _).
  destruct (rebuild_blocks_runs body_paragraphs s) as (blocks & E & HB).
  exists blocks. split; [exact E|].
  destruct (built_from_sizes HB) as [_ Hids].
  rewrite concat_split_runs in Hids.
  split.
  - apply Forall_rev.
    pose proof (split_runs_uniform (event_view s)) as Hu.
    clear E Hids. induction HB as [|run b runs blocks' Hb _ IH]; [constructor|].
    inversion Hu as [|? ? [Hne _] Hu']; subst.
    constructor; [|exact (IH Hu')].
    destruct (built_from_events Hb) as [_ Hlen].
    intros Hnil. rewrite Hnil in Hlen. simpl in Hlen.
    destruct run; [contradiction|discriminate].
  - unfold block_ids.
    apply (Permutation_NoDup
             (l := flat_map (fun b => map EventBlock.id (EventBlock.events_ b)) blocks)).
    + apply Permutation_flat_map. apply Permutation_rev.
    + fold (block_ids blocks). rewrite Hids.
      unfold records in Hnd. unfold event_view.
      destruct (TimelineView.at_bottom_ s); [exact Hnd|].
      rewrite app_nil_r. rewrite map_app in Hnd.
      apply NoDup_app_remove_r in Hnd. exact Hnd.
Qed.

End Invariant.

(** ** A second redaction of the same target *)

Lemma redact_events_again (r1 r2 : matrix.Redaction) (evs : list EventLike.t) :
  matrix.Redaction_redacts r2 = matrix.Redaction_redacts r1 ->
  forall done evs1,
    TimelineView.redact_events r1 evs = Returns done evs1 ->
    TimelineView.redact_events r2 evs1 = Returns done evs1.
Proof.
  intros Hr. induction evs as [|x rest IH]; intros done evs1 H; simpl in H.
  - injection H as <- <-. reflexivity.
  - destruct (EventLike.event x) as [src|] eqn:Ex; [|discriminate].
    destruct (String.eqb (matrix.Room_id src) (matrix.Redaction_redacts r1)) eqn:Et.
    + destruct (redact_source r1 x Ex) as (x' & Er & _ & _ & Hev).
      unfold bind in H. rewrite Er in H. simpl in H. injection H as <- <-.
      simpl. rewrite Hev. cbn [matrix.Room_id matrix.Room_redact].
      rewrite Hr, Et. unfold bind.
      rewrite (@redact_twice r1 r2 x x' Er). reflexivity.
    + destruct (TimelineView.redact_events r1 rest) as [d rest1|w rest1|u] eqn:Er;
        simpl in H; try discriminate.
      injection H as <- <-.
      simpl. rewrite Ex, Hr, Et. rewrite (IH _ _ eq_refl). reflexivity.
Qed.

Lemma redact_batches_again (r1 r2 : matrix.Redaction) (batches : list TimelineView.Batch) :
  matrix.Redaction_redacts r2 = matrix.Redaction_redacts r1 ->
  forall done batches1,
    TimelineView.redact_batches r1 batches = Returns done batches1 ->
    TimelineView.redact_batches r2 batches1 = Returns done batches1.
Proof.
  intros Hr. induction batches as [|b rest IH]; intros done batches1 H; simpl in H.
  - injection H as <- <-. reflexivity.
  - destruct (TimelineView.redact_events r1 (TimelineView.events b))
      as [d evs1|w evs1|u] eqn:Ee; try discriminate.
    pose proof (@redact_events_again r1 r2 _ Hr _ _ Ee) as Ee2.
    destruct d.
    + injection H as <- <-. simpl. rewrite Ee2. reflexivity.
    + destruct (TimelineView.redact_batches r1 rest) as [d rest1|w rest1|u] eqn:Er;
        simpl in H; try discriminate.
      injection H as <- <-. simpl. rewrite Ee2.
      rewrite (IH _ _ eq_refl). reflexivity.
Qed.

Lemma maybe_need_backwards_front (s s' : TimelineView.t) :
  TimelineView.maybe_need_backwards s = Returns tt s' ->
  match TimelineView.batches_ s with
  | front :: _ => TimelineView.events front <> []
  | [] => True
  end.
Proof.
  unfold TimelineView.maybe_need_backwards, TimelineView.at_top.
  destruct (TimelineView.batches_ s) as [|front rest]; [intros; exact I|].
  destruct (TimelineView.events front); [discriminate|intros; discriminate].
Qed.

Lemma Forall2_functional {A B} (R : A -> B -> Prop) (l : list A) :
  (forall a b b', R a b -> R a b' -> b = b') ->
  forall bs bs', Forall2 R l bs -> Forall2 R l bs' -> bs = bs'.
Proof.
  intros Hfun. induction l as [|a l IH]; intros bs bs' H H'.
  - inversion H; inversion H'; reflexivity.
  - inversion H; inversion H'; subst. f_equal; [eapply Hfun; eassumption|].
    apply IH; assumption.
Qed.

Section Again.

Variable body_paragraphs :
  QTextLayout.t -> matrix.UserID -> EventLike.t -> list QTextLayout.t.

(** A second redaction with the same target, applied to the stream a
    first one has returned from, returns and leaves batches, queue,
    counter and blocks as they are. *)
Lemma redact_again (r1 r2 : matrix.Redaction) (s s1 : TimelineView.t) :
  matrix.Redaction_redacts r2 = matrix.Redaction_redacts r1 ->
  TimelineView.redact body_paragraphs r1 s = Returns tt s1 ->
  exists s2,
    TimelineView.redact body_paragraphs r2 s1 = Returns tt s2
    /\ same_stream s1 s2
    /\ TimelineView.blocks_ s2 = TimelineView.blocks_ s1.
Proof.
  intros Hr H. unfold TimelineView.redact in H. unfold bind at 1 in H.
  destruct (TimelineView.redact_batches r1 (TimelineView.batches_ s))
    as [d bs1|w bs1|u] eqn:Eb; simpl in H; try discriminate.
  set (sA := TimelineView.set_batches bs1 s) in *.
  destruct (rebuild_blocks_same_stream body_paragraphs sA)
    as (sB & EB & (A1 & A2 & A3 & A4) & _ & HBl).
  unfold bind at 1 in H. rewrite EB in H.
  destruct (maybe_need_forwards_same_stream sB) as (sC & EC & (B1 & B2 & B3 & B4) & Bbl).
  unfold bind at 1 in H. rewrite EC in H.
  pose proof (@maybe_need_backwards_front _ _ H) as Hfront.
  destruct (maybe_need_backwards_same_stream sC Hfront) as (s1' & E1 & (C1 & C2 & C3 & C4) & Cbl).
  rewrite H in E1. injection E1 as <-.
  assert (Hb1 : TimelineView.batches_ s1 = bs1).
  { rewrite C1, B1, A1. reflexivity. }
  assert (Hview : event_view s1 = event_view sA).
  { unfold event_view. rewrite C1, C2, C3, B1, B2, B3, A1, A2, A3. reflexivity. }
  pose proof (@redact_batches_again r1 r2 _ Hr _ _ Eb) as Eb2.
  unfold TimelineView.redact. unfold bind at 1. rewrite Hb1, Eb2. unfold within.
  assert (Hs1 : TimelineView.set_batches bs1 s1 = s1).
  { rewrite <- Hb1. destruct s1. reflexivity. }
  rewrite Hs1.
  destruct (rebuild_blocks_same_stream body_paragraphs s1)
    as (tB & FB & (D1 & D2 & D3 & D4) & _ & HBl2).
  unfold bind at 1. rewrite FB.
  destruct (maybe_need_forwards_same_stream tB) as (tC & FC & (F1 & F2 & F3 & F4) & Fbl).
  unfold bind at 1. rewrite FC.
  destruct (maybe_need_backwards_same_stream tC) as (s2 & E2 & (G1 & G2 & G3 & G4) & Gbl).
  { rewrite F1, D1, C1. exact Hfront. }
  exists s2. split; [exact E2|]. split.
  - unfold same_stream. rewrite G1, G2, G3, G4, F1, F2, F3, F4, D1, D2, D3, D4.
    repeat split.
  - rewrite Gbl, Fbl, Cbl, Bbl. rewrite Hview in HBl2.
    apply (Forall2_functional (R := built_from body_paragraphs)
             (l := split_runs (event_view sA))); [|exact HBl2|exact HBl].
    unfold built_from. intros a b b' Hb Hb'. rewrite Hb in Hb'.
    injection Hb' as ->. reflexivity.
Qed.

End Again.

(** ** The scenario of section 8 *)

(** Two messages of one sender a minute apart share a block and the
    message of another sender starts a new one; the confirmed echo of
    the pending record takes its identifier 3 and its place, so the walk
    still has four records; redacting it leaves its block without a time
    range. *)
Example scenario :
  map (fun b => map EventBlock.id (EventBlock.events_ b))
      (TimelineView.blocks_ Sample.stream)
  = [[0%N; 1%N]; [2%N; 3%N]]
  /\ exists s1 s2,
       TimelineView.append Sample.plain_body "c1"%string Sample.room_state
                           Sample.echo Sample.stream = Returns tt s1
       /\ map EventLike.id (event_view s1) = [0%N; 1%N; 2%N; 3%N]
       /\ map EventLike.has_event (event_view s1) = [true; true; true; true]
       /\ TimelineView.pending_ s1 = []
       /\ TimelineView.redact Sample.plain_body
            (Sample.redaction "$r" "@b:x" "$4" 90000) s1 = Returns tt s2
       /\ map (fun b => (map EventBlock.id (EventBlock.events_ b), EventBlock.time_ b))
              (TimelineView.blocks_ s2)
          = [([0%N; 1%N],
              Some {| EventBlock.start := 1000%Z; EventBlock.end_ := 61000%Z |});
             ([2%N],
              Some {| EventBlock.start := 62000%Z; EventBlock.end_ := 62000%Z |});
             ([3%N], None)].
Proof.
  split; [reflexivity|].
  eexists. eexists.
  split; [vm_compute; reflexivity|].
  repeat split; vm_compute; reflexivity.
Qed.

(** * Further properties *)

(** ** Hyperlinks of a paragraph *)

Lemma href_at_format_view (formats : list FormatRange.t) (start length c : Z) :
  Forall (format_in_text INT_MAX) formats ->
  (0 <= start)%Z -> (start + length <= INT_MAX)%Z ->
  (0 <= c < length)%Z ->
  href_at (format_view formats start length) c = href_at formats (start + c).
Proof.
  intros Hf Hs Hl Hc.
  induction Hf as [|f formats (Hf0 & Hf1 & Hf2) _ IH]; [reflexivity|].
  cbn [format_view href_at].
  assert (Ea : int_add (FormatRange.start f) (FormatRange.length f)
               = (FormatRange.start f + FormatRange.length f)%Z).
  { unfold int_add. apply wrap_int_small. unfold INT_MAX in *. lia. }
  assert (Ee : int_add start length = (start + length)%Z).
  { unfold int_add. apply wrap_int_small. unfold INT_MAX in *. lia. }
  rewrite Ea, Ee.
  destruct ((FormatRange.start f + FormatRange.length f <=? start)%Z
            || (start + length <=? FormatRange.start f)%Z) eqn:Eout.
  - rewrite IH.
    assert (Hno : ((FormatRange.start f <=? start + c)%Z
                   && (FormatRange.start f + FormatRange.length f >? start + c)%Z) = false).
    { apply orb_true_iff in Eout. apply andb_false_iff.
      destruct Eout as [E|E]; apply Z.leb_le in E.
      - right. rewrite Z.gtb_ltb. apply Z.ltb_ge. lia.
      - left. apply Z.leb_gt. lia. }
    rewrite Hno. reflexivity.
  - cbn [href_at FormatRange.start FormatRange.length FormatRange.format].
    assert (Es : int_sub (FormatRange.start f) start = (FormatRange.start f - start)%Z).
    { unfold int_sub. apply wrap_int_small. unfold INT_MAX in *. lia. }
    rewrite Es.
    assert (Ea' : int_add (FormatRange.start f - start) (FormatRange.length f)
                  = (FormatRange.start f - start + FormatRange.length f)%Z).
    { unfold int_add. apply wrap_int_small. unfold INT_MAX in *. lia. }
    rewrite Ea', IH.
    replace (FormatRange.start f - start <=? c)%Z
      with (FormatRange.start f <=? start + c)%Z
      by (apply Bool.eq_true_iff_eq; rewrite !Z.leb_le; lia).
    replace (FormatRange.start f - start + FormatRange.length f >? c)%Z
      with (FormatRange.start f + FormatRange.length f >? start + c)%Z
      by (apply Bool.eq_true_iff_eq; rewrite !Z.gtb_ltb, !Z.ltb_lt; lia).
    reflexivity.
Qed.

Lemma loop_start_nonneg (lines : list string) :
  forall i, (0 <= loop_start lines i)%Z.
Proof.
  induction lines as [|line rest IH]; intros [|i]; cbn [loop_start]; try lia.
  specialize (IH i). lia.
Qed.

Lemma loop_start_step (lines : list string) :
  forall i line,
    nth_error lines i = Some line ->
    (loop_start lines i + Z.of_nat (String.length line)
     < loop_start lines (List.length lines))%Z.
Proof.
  induction lines as [|l0 rest IH]; intros [|i] line H;
    cbn [nth_error List.length loop_start] in *; try discriminate.
  - injection H as ->. pose proof (loop_start_nonneg rest (List.length rest)). lia.
  - specialize (IH i line H). lia.
Qed.

Lemma paragraph_formats_nth (formats : list FormatRange.t) (lines : list string) :
  forall start i line,
    (0 <= start)%Z ->
    (start + loop_start lines (List.length lines) <= INT_MAX)%Z ->
    nth_error lines i = Some line ->
    nth_error (paragraph_formats formats lines start) i
    = Some (format_view formats (start + loop_start lines i)
                        (Z.of_nat (String.length line))).
Proof.
  induction lines as [|l0 rest IH]; intros start [|i] line Hs Ht H;
    simpl in H; try discriminate.
  - injection H as ->. cbn [paragraph_formats nth_error loop_start].
    rewrite wrap_int_small, Z.add_0_r; [reflexivity|].
    cbn [List.length loop_start] in Ht.
    pose proof (loop_start_nonneg rest (List.length rest)).
    unfold INT_MAX in *. lia.
  - cbn [List.length loop_start] in Ht.
    pose proof (loop_start_nonneg rest (List.length rest)) as Hr.
    cbn [paragraph_formats nth_error loop_start].
    unfold int_add at 1. rewrite wrap_int_small by (unfold INT_MAX in *; lia).
    rewrite Z.mod_small by (unfold INT_MAX in *; lia).
    rewrite (IH _ i line); [|lia|lia|exact H].
    f_equal. f_equal. lia.
Qed.

Lemma get_joined (br : ascii) (lines : list string) :
  forall i line c,
    nth_error lines i = Some line ->
    (c < String.length line)%nat ->
    String.get (Z.to_nat (loop_start lines i) + c)
               (String.concat (String br "") lines)
    = String.get c line.
Proof.
  induction lines as [|l0 rest IH]; intros [|i] line c Hl Hc;
    cbn [nth_error] in Hl; try discriminate.
  - injection Hl as ->. cbn [loop_start Z.to_nat Nat.add String.concat].
    destruct rest; [reflexivity|].
    symmetry. apply append_correct1. exact Hc.
  - cbn [loop_start].
    pose proof (loop_start_nonneg rest i) as Hr.
    replace (Z.to_nat (1 + Z.of_nat (String.length l0) + loop_start rest i) + c)%nat
      with (S (Z.to_nat (loop_start rest i) + c) + String.length l0)%nat by lia.
    destruct rest as [|l1 rest']; [destruct i; discriminate|].
    change (String.concat (String br "") (l0 :: l1 :: rest'))
      with (l0 ++ String br (String.concat (String br "") (l1 :: rest')))%string.
    rewrite <- append_correct2. cbn [String.get].
    apply IH; assumption.
Qed.

(** X1.  In a text whose lines are joined by one character each, the
    paragraph loop gives every paragraph the links of its own line: for
    paragraph [i] and an offset inside its line, the loop's start plus
    the offset is the position of that character in the text, and
    looking the link up in the formats the paragraph was given is looking
    it up in the formats of the text at that position. *)
Theorem paragraph_href (formats : list FormatRange.t) (lines : list string)
    (br : ascii) (i : nat) (line : string) (c : Z) :
  Forall (format_in_text INT_MAX) formats ->
  (loop_start lines (List.length lines) <= INT_MAX)%Z ->
  nth_error lines i = Some line ->
  (0 <= c < Z.of_nat (String.length line))%Z ->
  exists paragraph,
    nth_error (paragraph_formats formats lines 0) i = Some paragraph
    /\ String.get (Z.to_nat (loop_start lines i + c))
                  (String.concat (String br "") lines)
       = String.get (Z.to_nat c) line
    /\ href_at paragraph c = href_at formats (loop_start lines i + c).
Proof.
  intros Hf Ht Hl Hc.
  pose proof (@paragraph_formats_nth formats lines 0 i line (Z.le_refl 0) Ht Hl) as E.
  rewrite Z.add_0_l in E.
  eexists. split; [exact E|]. split.
  - pose proof (loop_start_nonneg lines i) as Hs.
    rewrite Z2Nat.inj_add by lia.
    apply get_joined; [exact Hl|lia].
  - apply href_at_format_view.
    + exact Hf.
    + apply loop_start_nonneg.
    + pose proof (@loop_start_step lines i line Hl). lia.
    + exact Hc.
Qed.

Lemma paragraph_href_witness :
  exists paragraph,
    nth_error (paragraph_formats Sample2.links Sample2.lines 0) 1 = Some paragraph
    /\ String.get 15 (String.concat (String "010"%char "") Sample2.lines)
       = String.get 5 "and b.org now"
    /\ href_at paragraph 5 = href_at Sample2.links (10 + 5).
Proof.
  apply (@paragraph_href Sample2.links Sample2.lines "010"%char 1
           "and b.org now"%string 5%Z).
  - repeat constructor; vm_compute; discriminate.
  - vm_compute. discriminate.
  - reflexivity.
  - split; vm_compute; [discriminate|reflexivity].
Defined.

(** X2.  [format_view] never clips and never invents: every range it
    returns is a range of the input moved by the window's start, of the
    same length and format, and it reaches into the window. *)
Theorem format_view_overlaps (formats : list FormatRange.t) (start length : Z)
    (out : FormatRange.t) :
  Forall (format_in_text INT_MAX) formats ->
  (0 <= start)%Z -> (0 <= length)%Z -> (start + length <= INT_MAX)%Z ->
  In out (format_view formats start length) ->
  (exists in_,
     In in_ formats
     /\ FormatRange.start out = (FormatRange.start in_ - start)%Z
     /\ FormatRange.length out = FormatRange.length in_
     /\ FormatRange.format out = FormatRange.format in_)
  /\ (FormatRange.start out < length)%Z
  /\ (0 < FormatRange.start out + FormatRange.length out)%Z.
Proof.
  intros Hf Hs Hl0 Hl Hin.
  induction Hf as [|f formats (Hf0 & Hf1 & Hf2) _ IH]; [contradiction|].
  cbn [format_view] in Hin.
  assert (Ea : int_add (FormatRange.start f) (FormatRange.length f)
               = (FormatRange.start f + FormatRange.length f)%Z).
  { unfold int_add. apply wrap_int_small. unfold INT_MAX in *. lia. }
  assert (Ee : int_add start length = (start + length)%Z).
  { unfold int_add. apply wrap_int_small. unfold INT_MAX in *. lia. }
  assert (Es : int_sub (FormatRange.start f) start = (FormatRange.start f - start)%Z).
  { unfold int_sub. apply wrap_int_small. unfold INT_MAX in *. lia. }
  rewrite Ea, Ee, Es in Hin.
  assert (Hrest : In out (format_view formats start length) ->
                  (exists in_,
                     In in_ (f :: formats)
                     /\ FormatRange.start out = (FormatRange.start in_ - start)%Z
                     /\ FormatRange.length out = FormatRange.length in_
                     /\ FormatRange.format out = FormatRange.format in_)
                  /\ (FormatRange.start out < length)%Z
                  /\ (0 < FormatRange.start out + FormatRange.length out)%Z).
  { intros H. destruct (IH H) as ((in_ & Hi & Hrel) & Hb).
    split; [exists in_; split; [right; exact Hi|exact Hrel]|exact Hb]. }
  destruct ((FormatRange.start f + FormatRange.length f <=? start)%Z
            || (start + length <=? FormatRange.start f)%Z) eqn:Eout;
    [exact (Hrest Hin)|].
  destruct Hin as [<-|Hin]; [|exact (Hrest Hin)].
  apply orb_false_iff in Eout. destruct Eout as [E1 E2].
  apply Z.leb_gt in E1. apply Z.leb_gt in E2. cbn.
  split; [exists f; split; [left; reflexivity|repeat split]|lia].
Qed.

Lemma format_view_overlaps_witness :
  (FormatRange.start (Sample2.link 4 5 "http://b.org") < 13)%Z
  /\ (0 < FormatRange.start (Sample2.link 4 5 "http://b.org")
          + FormatRange.length (Sample2.link 4 5 "http://b.org"))%Z.
Proof.
  apply (@format_view_overlaps Sample2.links 10 13 (Sample2.link 4 5 "http://b.org")).
  - repeat constructor; vm_compute; discriminate.
  - vm_compute. discriminate.
  - vm_compute. discriminate.
  - vm_compute. discriminate.
  - vm_compute. left. reflexivity.
Defined.

(** ** The calls of the stream *)

Lemma bind_returns {S A B} (m : method S A) (k : A -> method S B) (s s' : S) (b : B) :
  bind m k s = Returns b s' ->
  exists a s1, m s = Returns a s1 /\ k a s1 = Returns b s'.
Proof.
  unfold bind. destruct (m s) as [a s1|w s1|u]; try discriminate.
  intros H. exists a, s1. split; [reflexivity|exact H].
Qed.

Ltac unbind H :=
  let a := fresh "a" in
  let s := fresh "s" in
  let E := fresh "E" in
  apply bind_returns in H; destruct H as (a & s & E & H);
  match type of a with
  | unit => destruct a
  | _ => idtac
  end.

Section Calls.

Variable body_paragraphs :
  QTextLayout.t -> matrix.UserID -> EventLike.t -> list QTextLayout.t.

Lemma built_from_shows (run : list EventLike.t) (b : EventBlock.t) :
  built_from body_paragraphs run b -> shows body_paragraphs run b.
Proof. intros H. exists b. repeat split; try reflexivity. exact H. Qed.

Lemma shows_sizes (runs : list (list EventLike.t)) (blocks : list EventBlock.t) :
  Forall2 (shows body_paragraphs) runs blocks ->
  block_ids blocks = map EventLike.id (List.concat runs).
Proof.
  induction 1 as [|run b runs blocks (b0 & Hb & _ & _ & _ & Hev) _ IH];
    [reflexivity|].
  destruct (built_from_events Hb) as [Hids _].
  unfold block_ids in *. cbn [flat_map List.concat].
  rewrite map_app, Hev, Hids, IH. reflexivity.
Qed.

Lemma rebuild_synced (s s' : TimelineView.t) :
  TimelineView.rebuild_blocks body_paragraphs s = Returns tt s' ->
  synced body_paragraphs s' /\ same_stream s s'
  /\ TimelineView.emitted s' = TimelineView.emitted s.
Proof.
  intros E.
  destruct (rebuild_blocks_same_stream body_paragraphs s) as (s1 & E1 & Hs & Hem & HB).
  rewrite E in E1. injection E1 as <-.
  split; [|split; assumption].
  unfold synced. destruct (same_stream_views Hs) as [_ ->].
  clear E Hs Hem. induction HB; constructor; [apply built_from_shows|]; assumption.
Qed.

Lemma signal_synced (signal : method TimelineView.t unit) (s s' : TimelineView.t) :
  signal = TimelineView.maybe_need_forwards
  \/ signal = TimelineView.maybe_need_backwards ->
  signal s = Returns tt s' ->
  synced body_paragraphs s ->
  synced body_paragraphs s' /\ same_stream s s'.
Proof.
  intros Hsig E Hsync.
  assert (H : same_stream s s' /\ TimelineView.blocks_ s' = TimelineView.blocks_ s).
  { destruct Hsig as [-> | ->].
    - destruct (maybe_need_forwards_same_stream s) as (s1 & E1 & Hs & Hb).
      rewrite E in E1. injection E1 as <-. split; assumption.
    - destruct (maybe_need_backwards_same_stream s (maybe_need_backwards_front _ E))
        as (s1 & E1 & Hs & Hb).
      rewrite E in E1. injection E1 as <-. split; assumption. }
  destruct H as [Hs Hb]. split; [|exact Hs].
  unfold synced. destruct (same_stream_views Hs) as [_ ->]. rewrite Hb. exact Hsync.
Qed.

Lemma synced_ids (s : TimelineView.t) :
  synced body_paragraphs s ->
  block_ids (TimelineView.blocks_ s) = map EventLike.id (event_view s).
Proof.
  intros H. rewrite (shows_sizes H), concat_split_runs. reflexivity.
Qed.

(** X3.  Every call that changes the stream and returns leaves the
    blocks in step with the stream as it is after the call: the blocks
    show, one for one and in order, the runs of the current walk (sender,
    time range, name and sub-blocks; the timestamp text aside), so they
    show exactly its identifiers, in order. *)
Theorem ingestion_leaves_blocks_rebuilt (c : call) (s s' : TimelineView.t) :
  rebuilds c = true ->
  perform body_paragraphs c s = Returns tt s' ->
  synced body_paragraphs s'
  /\ block_ids (TimelineView.blocks_ s') = map EventLike.id (event_view s').
Proof.
  intros Hc H.
  assert (Hs : synced body_paragraphs s').
  { destruct c; try discriminate; cbn [perform] in H.
    - unfold TimelineView.prepend in H. do 4 unbind H.
      destruct (@rebuild_synced _ _ E2) as (Hsync & _).
      destruct (@signal_synced _ _ _ (or_intror eq_refl) H Hsync) as [Hs' _].
      exact Hs'.
    - unfold TimelineView.append in H. do 4 unbind H.
      destruct (@rebuild_synced _ _ E2) as (Hsync & _).
      destruct (@signal_synced _ _ _ (or_introl eq_refl) H Hsync) as [Hs' _].
      exact Hs'.
    - unfold TimelineView.redact in H. do 3 unbind H.
      destruct (@rebuild_synced _ _ E0) as (Hsync & _).
      destruct (@signal_synced _ _ _ (or_introl eq_refl) E1 Hsync) as [Hs1 _].
      destruct (@signal_synced _ _ _ (or_intror eq_refl) H Hs1) as [Hs' _].
      exact Hs'.
    - unfold TimelineView.add_pending in H. do 2 unbind H.
      destruct (@rebuild_synced _ _ H) as (Hsync & _). exact Hsync. }
  split; [exact Hs|apply synced_ids; exact Hs].
Qed.

End Calls.

Lemma ingestion_leaves_blocks_rebuilt_witness :
  block_ids (TimelineView.blocks_ Sample.stream)
  = map EventLike.id (event_view Sample.stream).
Proof.
  apply (@ingestion_leaves_blocks_rebuilt Sample.plain_body
           (AddPending "x1"%string Sample.room_state "@b:x"%string 63000%Z
              matrix.Message_tag
              [("msgtype", "m.text"); ("body", "sent")]%string None)
           (Sample.state_of (firstn 4 Sample.calls)) Sample.stream).
  - reflexivity.
  - vm_compute. reflexivity.
Defined.

Lemma first_match_unique {A} (P : A -> Prop) (l1 l1' l2 l2' : list A) (x x' : A) :
  l1 ++ x :: l2 = l1' ++ x' :: l2' ->
  Forall (fun a => ~ P a) l1 -> P x ->
  Forall (fun a => ~ P a) l1' -> P x' ->
  l1 = l1' /\ x = x' /\ l2 = l2'.
Proof.
  revert l1'. induction l1 as [|a l1 IH]; intros [|a' l1'] E H1 Hx H1' Hx'; simpl in E.
  - injection E as -> ->. auto.
  - injection E as -> _. inversion H1'; subst. contradiction.
  - injection E as -> _. inversion H1; subst. contradiction.
  - injection E as -> E. inversion H1; inversion H1'; subst.
    destruct (IH l1' E) as (-> & -> & ->); auto.
Qed.

Lemma redact_record_keeps (redaction : matrix.Redaction) (e e' : EventLike.t) :
  EventLike.redact redaction e = Returns tt e' ->
  EventLike.id e' = EventLike.id e
  /\ EventLike.sender e' = EventLike.sender e
  /\ EventLike.type e' = EventLike.type e.
Proof.
  unfold EventLike.redact. destruct (EventLike.event e); [|discriminate].
  intros H. injection H as <-. repeat split.
Qed.

Lemma run_reachable (calls : list call) :
  forall s s',
    reachable Sample.plain_body s ->
    Sample.run calls s = Returns tt s' ->
    reachable Sample.plain_body s'.
Proof.
  induction calls as [|c calls IH]; intros s s' Hr H; simpl in H.
  - injection H as <-. exact Hr.
  - destruct (perform Sample.plain_body c s) as [[] s1|w s1|u] eqn:E; try discriminate.
    apply (IH s1 s'); [|exact H].
    apply (@reachable_call _ s c s1 Hr E).
Qed.

Section MoreCalls.

Variable body_paragraphs :
  QTextLayout.t -> matrix.UserID -> EventLike.t -> list QTextLayout.t.

Lemma redact_inv (redaction : matrix.Redaction) (s s' : TimelineView.t) :
  TimelineView.redact body_paragraphs redaction s = Returns tt s' ->
  exists done,
    TimelineView.redact_batches redaction (TimelineView.batches_ s)
    = Returns done (TimelineView.batches_ s')
    /\ TimelineView.pending_ s' = TimelineView.pending_ s
    /\ TimelineView.at_bottom_ s' = TimelineView.at_bottom_ s
    /\ TimelineView.id_counter_ s' = TimelineView.id_counter_ s
    /\ synced body_paragraphs s'.
Proof.
  intros H. unfold TimelineView.redact in H. do 3 unbind H.
  destruct (TimelineView.redact_batches redaction (TimelineView.batches_ s))
    as [d bs1|w bs1|u] eqn:Eb; simpl in E; try discriminate.
  injection E as E. subst s0.
  destruct (@rebuild_synced body_paragraphs _ _ E0) as (Hsync & (A1 & A2 & A3 & A4) & _).
  destruct (@signal_synced body_paragraphs _ _ _ (or_introl eq_refl) E1 Hsync)
    as [Hs1 (B1 & B2 & B3 & B4)].
  destruct (@signal_synced body_paragraphs _ _ _ (or_intror eq_refl) H Hs1)
    as [Hs' (C1 & C2 & C3 & C4)].
  exists d. rewrite C1, C2, C3, C4, B1, B2, B3, B4, A1, A2, A3, A4. simpl.
  split; [reflexivity|]. repeat split. exact Hs'.
Qed.

Lemma pending_after_call (c : call) (s s' : TimelineView.t) :
  perform body_paragraphs c s = Returns tt s' ->
  (exists new,
     TimelineView.pending_ s' = TimelineView.pending_ s ++ [new]
     /\ EventLike.event (TimelineView.event new) = None)
  \/ (forall p, In p (TimelineView.pending_ s') -> In p (TimelineView.pending_ s)).
Proof.
  intros E. destruct c; cbn [perform] in E.
  - right. destruct (prepend_returns body_paragraphs begin0 state evt s)
      as (s1 & E1 & _ & _ & Hp & _).
    rewrite E in E1. injection E1 as <-. rewrite Hp.
    destruct (TimelineView.transaction_of evt); [|auto].
    intros p Hin. apply filter_In in Hin. apply Hin.
  - right. destruct (TimelineView.transaction_of evt) as [txid|] eqn:Htx.
    + destruct (Forall_Exists_dec
                  (fun q => TimelineView.transaction q <> txid)
                  (fun q => match string_dec (TimelineView.transaction q) txid with
                            | left e => right (fun H => H e)
                            | right n => left n
                            end)
                  (TimelineView.pending_ s)) as [Hno|Hex].
      * unfold TimelineView.append, bind in E. rewrite Htx in E.
        rewrite (find_transaction_unmatched Hno) in E. discriminate.
      * assert (Hex' : Exists (fun q => TimelineView.transaction q = txid)
                              (TimelineView.pending_ s)).
        { apply Exists_exists in Hex. destruct Hex as (q & Hq & Hn).
          apply Exists_exists. exists q. split; [exact Hq|].
          destruct (string_dec (TimelineView.transaction q) txid);
            [assumption|contradiction]. }
        destruct (@append_with_token body_paragraphs begin0 state evt txid s Htx Hex')
          as (s2 & before & p' & after & E2 & Ep & _ & _ & Ep' & _).
        rewrite E in E2. injection E2 as <-. rewrite Ep, Ep'.
        intros p Hin. apply in_app_or in Hin. apply in_or_app.
        destruct Hin as [Hin|Hin]; [left; exact Hin|right; right; exact Hin].
    + destruct (@append_without_token body_paragraphs begin0 state evt s Htx)
        as (s1 & E1 & _ & _ & Hp & _).
      rewrite E in E1. injection E1 as <-. rewrite Hp. auto.
  - right. destruct (@redact_inv redaction s s' E) as (d & _ & Hp & _). rewrite Hp. auto.
  - left. destruct (add_pending_returns body_paragraphs transaction0 state self time0
                      type0 content0 affected_user s) as (s1 & E1 & _ & Hp & _).
    rewrite E in E1. injection E1 as <-.
    eexists. split; [exact Hp|reflexivity].
  - right. unfold TimelineView.set_at_bottom, modify in E. injection E as <-. auto.
Qed.

(** X4.  Every state the view reaches from its constructor through
    calls that return keeps the stream's invariant: no batch is empty,
    every record of the batches has a confirmed source and no record of
    the pending queue has one, identifiers are pairwise distinct across
    batches and queue, and every identifier is below the counter. *)
Theorem reachable_invariant (s : TimelineView.t) :
  reachable body_paragraphs s ->
  well_formed s /\ pending_unconfirmed s.
Proof.
  intros Hr. split; [apply (@reachable_well_formed body_paragraphs s Hr)|].
  induction Hr as [|s c s' Hr IH E]; [constructor|].
  unfold pending_unconfirmed in *.
  destruct (@pending_after_call c s s' E) as [(new & Hp & Hnew)|Hsub].
  - rewrite Hp. apply Forall_app. split; [exact IH|].
    constructor; [exact Hnew|constructor].
  - rewrite Forall_forall in *. intros p Hin. apply IH, Hsub, Hin.
Qed.

End MoreCalls.

Lemma reachable_invariant_witness :
  well_formed Sample.stream /\ pending_unconfirmed Sample.stream.
Proof.
  apply (@reachable_invariant Sample.plain_body Sample.stream).
  apply (@run_reachable Sample.calls TimelineView.init Sample.stream).
  - constructor.
  - vm_compute. reflexivity.
Defined.

Section CallProperties.

Variable body_paragraphs :
  QTextLayout.t -> matrix.UserID -> EventLike.t -> list QTextLayout.t.

(** X5.  A [prepend] that returns: the new record is the oldest of the
    batches and has the counter's value as identifier, and the counter
    has advanced by one; every pending record with the event's
    transaction token is dropped, not only the first, and the others stay
    in order; without a token the queue is untouched. *)
Theorem prepend_takes_over (begin0 : matrix.TimelineCursor)
    (state : matrix.RoomState) (evt : matrix.Room) (s s' : TimelineView.t) :
  TimelineView.prepend body_paragraphs begin0 state evt s = Returns tt s' ->
  all_events (TimelineView.batches_ s')
  = EventLike.of_room (TimelineView.id_counter_ s) state evt
    :: all_events (TimelineView.batches_ s)
  /\ TimelineView.id_counter_ s' = N.succ (TimelineView.id_counter_ s)
  /\ (forall txid,
        TimelineView.transaction_of evt = Some txid ->
        TimelineView.pending_ s'
        = filter (fun p => negb (String.eqb (TimelineView.transaction p) txid))
                 (TimelineView.pending_ s)
        /\ Forall (fun p => TimelineView.transaction p <> txid)
                  (TimelineView.pending_ s'))
  /\ (TimelineView.transaction_of evt = None ->
      TimelineView.pending_ s' = TimelineView.pending_ s).
Proof.
  intros H.
  destruct (prepend_returns body_paragraphs begin0 state evt s)
    as (s1 & E & Hall & Hb & Hp & Hc & _).
  rewrite H in E. injection E as <-.
  split; [exact Hall|]. split; [exact Hc|]. split.
  - intros txid Htx. rewrite Htx in Hp. split; [exact Hp|].
    rewrite Hp. apply Forall_forall. intros p Hin. apply filter_In in Hin.
    destruct Hin as [_ Hn]. apply negb_true_iff in Hn. apply String.eqb_neq. exact Hn.
  - intros Htx. rewrite Htx in Hp. exact Hp.
Qed.

(** X6.  A local echo and its confirmation: when no record of the
    pending queue has the token, and [add_pending] with the token and
    then [append] of an event carrying it return, the queue is what it
    was before the two calls, the confirmed record is the newest of the
    batches and has the identifier the echo was given, and one
    identifier has been used. *)
Theorem echo_then_confirmation (transaction0 : string)
    (state : matrix.RoomState) (self : matrix.UserID) (time0 : Time)
    (type0 : matrix.EventType) (content0 : matrix.Content)
    (affected_user : option matrix.UserID)
    (begin0 : matrix.TimelineCursor) (state' : matrix.RoomState)
    (evt : matrix.Room) (s s1 s2 : TimelineView.t) :
  Forall (fun p => TimelineView.transaction p <> transaction0) (TimelineView.pending_ s) ->
  TimelineView.transaction_of evt = Some transaction0 ->
  TimelineView.add_pending body_paragraphs transaction0 state self time0 type0
                           content0 affected_user s = Returns tt s1 ->
  TimelineView.append body_paragraphs begin0 state' evt s1 = Returns tt s2 ->
  TimelineView.pending_ s2 = TimelineView.pending_ s
  /\ all_events (TimelineView.batches_ s2)
     = all_events (TimelineView.batches_ s)
       ++ [EventLike.of_room (TimelineView.id_counter_ s) state' evt]
  /\ TimelineView.id_counter_ s2 = N.succ (TimelineView.id_counter_ s).
Proof.
  intros Hno Htx H1 H2.
  destruct (add_pending_returns body_paragraphs transaction0 state self time0 type0
              content0 affected_user s) as (s1' & E1 & Hb1 & Hp1 & Hc1 & _).
  rewrite H1 in E1. injection E1 as <-.
  assert (Hex : Exists (fun p => TimelineView.transaction p = transaction0)
                       (TimelineView.pending_ s1)).
  { rewrite Hp1. apply Exists_app. right. left. reflexivity. }
  destruct (@append_with_token body_paragraphs begin0 state' evt transaction0 s1 Htx Hex)
    as (s2' & before & p & after & E2 & Ep & Hbefore & Hp & Ep' & Hall & _ & Hc & _).
  rewrite H2 in E2. injection E2 as <-.
  rewrite Hp1 in Ep.
  destruct (@first_match_unique _ (fun q => TimelineView.transaction q = transaction0)
              _ _ _ _ _ _ Ep Hno eq_refl Hbefore Hp) as (Hb & Hx & Ha).
  split; [rewrite Ep', <- Hb, <- Ha; apply app_nil_r|].
  split; [rewrite Hall, Hb1, <- Hx; reflexivity|].
  rewrite Hc, Hc1. reflexivity.
Qed.

(** X7.  After an [add_pending] that returns, the echo is shown only
    at the live edge: away from it the blocks show the records of the
    batches and nothing else; at it they show those, then the pending
    queue, then the new echo, whose identifier is the counter's value. *)
Theorem add_pending_shown_at_live_edge (transaction0 : string)
    (state : matrix.RoomState) (self : matrix.UserID) (time0 : Time)
    (type0 : matrix.EventType) (content0 : matrix.Content)
    (affected_user : option matrix.UserID) (s s' : TimelineView.t) :
  TimelineView.add_pending body_paragraphs transaction0 state self time0 type0
                           content0 affected_user s = Returns tt s' ->
  block_ids (TimelineView.blocks_ s')
  = map EventLike.id (all_events (TimelineView.batches_ s))
    ++ (if TimelineView.at_bottom_ s
        then map (fun p => EventLike.id (TimelineView.event p))
                 (TimelineView.pending_ s)
             ++ [TimelineView.id_counter_ s]
        else []).
Proof.
  intros H.
  destruct (add_pending_returns body_paragraphs transaction0 state self time0 type0
              content0 affected_user s) as (s1 & E & Hb & Hp & _ & Ha).
  rewrite H in E. injection E as <-.
  pose proof H as E'. unfold TimelineView.add_pending in E'. do 2 unbind E'.
  destruct (@rebuild_synced body_paragraphs _ _ E') as (Hsync & _).
  rewrite (synced_ids Hsync). unfold event_view. rewrite Hb, Hp, Ha, map_app.
  destruct (TimelineView.at_bottom_ s); [|reflexivity].
  rewrite !map_app, map_map. reflexivity.
Qed.

(** X8.  A redaction that returns changes no address: the walked
    sequence has the same identifiers, senders and types in the same
    order as before, the pending queue and the counter are untouched, and
    the blocks show exactly those identifiers. *)
Theorem redact_keeps_addresses (redaction : matrix.Redaction)
    (s s' : TimelineView.t) :
  TimelineView.redact body_paragraphs redaction s = Returns tt s' ->
  map EventLike.id (event_view s') = map EventLike.id (event_view s)
  /\ map EventLike.sender (event_view s') = map EventLike.sender (event_view s)
  /\ map EventLike.type (event_view s') = map EventLike.type (event_view s)
  /\ TimelineView.pending_ s' = TimelineView.pending_ s
  /\ TimelineView.id_counter_ s' = TimelineView.id_counter_ s
  /\ block_ids (TimelineView.blocks_ s') = map EventLike.id (event_view s).
Proof.
  intros H.
  destruct (@redact_inv body_paragraphs redaction s s' H)
    as (d & Eb & Hp & Ha & Hc & Hsync).
  destruct (redact_batches_inv _ _ Eb) as (_ & _ & Hcase).
  assert (Hall : map EventLike.id (all_events (TimelineView.batches_ s'))
                 = map EventLike.id (all_events (TimelineView.batches_ s))
                 /\ map EventLike.sender (all_events (TimelineView.batches_ s'))
                    = map EventLike.sender (all_events (TimelineView.batches_ s))
                 /\ map EventLike.type (all_events (TimelineView.batches_ s'))
                    = map EventLike.type (all_events (TimelineView.batches_ s))).
  { destruct Hcase as [(_ & -> & _)|(_ & pre & e & post & e' & He & _ & _ & Hr & He')].
    - repeat split.
    - destruct (@redact_record_keeps redaction e e' Hr) as (Hid & Hse & Hty).
      rewrite He, He', !map_app. cbn [map]. rewrite Hid, Hse, Hty. repeat split. }
  destruct Hall as (Hid & Hse & Hty).
  assert (Hview : map EventLike.id (event_view s') = map EventLike.id (event_view s)).
  { unfold event_view. rewrite !map_app, Hid, Hp, Ha. reflexivity. }
  split; [exact Hview|].
  split; [unfold event_view; rewrite !map_app, Hse, Hp, Ha; reflexivity|].
  split; [unfold event_view; rewrite !map_app, Hty, Hp, Ha; reflexivity|].
  split; [exact Hp|]. split; [exact Hc|].
  rewrite (synced_ids Hsync). exact Hview.
Qed.

End CallProperties.

Lemma prepend_takes_over_witness :
  TimelineView.pending_
    (Sample.state_of
       (Sample.calls
        ++ [Prepend "c0"%string Sample.room_state
              (Sample.message "$0" "@b:x" 500 "sent" (Some "x1"%string))]))
  = [].
Proof.
  destruct (@prepend_takes_over Sample.plain_body "c0"%string Sample.room_state
              (Sample.message "$0" "@b:x" 500 "sent" (Some "x1"%string))
              Sample.stream
              (Sample.state_of
                 (Sample.calls
                  ++ [Prepend "c0"%string Sample.room_state
                        (Sample.message "$0" "@b:x" 500 "sent" (Some "x1"%string))])))
    as (_ & _ & Hp & _).
  - vm_compute. reflexivity.
  - destruct (Hp "x1"%string eq_refl) as [Hp' _]. rewrite Hp'. reflexivity.
Defined.

Lemma echo_then_confirmation_witness :
  TimelineView.pending_
    (Sample.state_of
       (Sample.calls
        ++ [AddPending "x9"%string Sample.room_state "@b:x"%string 70000%Z matrix.Message_tag [] None;
            Append "c1"%string Sample.room_state
              (Sample.message "$9" "@b:x" 70500 "late" (Some "x9"%string))]))
  = TimelineView.pending_ Sample.stream.
Proof.
  destruct (@echo_then_confirmation Sample.plain_body "x9"%string Sample.room_state
              "@b:x"%string 70000%Z matrix.Message_tag [] None
              "c1"%string Sample.room_state
              (Sample.message "$9" "@b:x" 70500 "late" (Some "x9"%string))
              Sample.stream
              (Sample.state_of
                 (Sample.calls
                  ++ [AddPending "x9"%string Sample.room_state "@b:x"%string 70000%Z
                        matrix.Message_tag [] None]))
              (Sample.state_of
                 (Sample.calls
                  ++ [AddPending "x9"%string Sample.room_state "@b:x"%string 70000%Z
                        matrix.Message_tag [] None;
                      Append "c1"%string Sample.room_state
                        (Sample.message "$9" "@b:x" 70500 "late" (Some "x9"%string))])))
    as (Hp & _).
  - vm_compute. repeat (constructor; [discriminate|]). constructor.
  - reflexivity.
  - vm_compute. reflexivity.
  - vm_compute. reflexivity.
  - exact Hp.
Defined.

Lemma add_pending_shown_at_live_edge_witness :
  block_ids (TimelineView.blocks_ Sample.stream) = [0; 1; 2; 3]%N.
Proof.
  apply (@add_pending_shown_at_live_edge Sample.plain_body "x1"%string
           Sample.room_state "@b:x"%string 63000%Z matrix.Message_tag
           [("msgtype", "m.text"); ("body", "sent")]%string None
           (Sample.state_of (firstn 4 Sample.calls)) Sample.stream).
  vm_compute. reflexivity.
Defined.

Lemma redact_keeps_addresses_witness :
  map EventLike.id
      (event_view (Sample.state_of
                     (Sample.calls ++ [Redact (Sample.redaction "$r" "@a:x" "$2" 90000)])))
  = map EventLike.id (event_view Sample.stream).
Proof.
  apply (@redact_keeps_addresses Sample.plain_body
           (Sample.redaction "$r" "@a:x" "$2" 90000) Sample.stream
           (Sample.state_of
              (Sample.calls ++ [Redact (Sample.redaction "$r" "@a:x" "$2" 90000)]))).
  vm_compute. reflexivity.
Defined.

(** ** The blocks of a rebuild *)

Lemma runs_from_chained (l : list EventLike.t) :
  forall a, Forall chained (runs_from a l).
Proof.
  induction l as [|b l IH]; intros a; cbn [runs_from].
  - constructor; [exact I|constructor].
  - specialize (IH b). destruct (block_border a b) eqn:Hb.
    + constructor; [exact I|exact IH].
    + destruct (runs_from_head l b) as (r & rs & E). rewrite E in *.
      inversion IH as [|? ? Hc Hrest]; subst.
      constructor; [|exact Hrest]. split; assumption.
Qed.

Lemma split_runs_chained (l : list EventLike.t) : Forall chained (split_runs l).
Proof. destruct l; [constructor|apply runs_from_chained]. Qed.

Lemma chained_sender (run : list EventLike.t) :
  forall front,
    chained run -> hd_error run = Some front ->
    Forall (fun e => EventLike.sender e = EventLike.sender front) run.
Proof.
  induction run as [|a run IH]; intros front Hc Hh; [discriminate|].
  injection Hh as ->. constructor; [reflexivity|].
  destruct run as [|b run]; [constructor|].
  destruct Hc as [Hb Hc]. apply block_border_false in Hb. destruct Hb as [Hs _].
  rewrite Hs. apply IH; [exact Hc|reflexivity].
Qed.



Section BlockProperties.

Variable body_paragraphs :
  QTextLayout.t -> matrix.UserID -> EventLike.t -> list QTextLayout.t.

Lemma built_from_header (run : list EventLike.t) (b : EventBlock.t) :
  built_from body_paragraphs run b ->
  exists front,
    hd_error run = Some front
    /\ EventBlock.sender_ b = EventLike.sender front.
Proof.
  unfold built_from, EventBlock.make. intros H.
  destruct run as [|front t]; [discriminate|].
  exists front. split; [reflexivity|].
  destruct (EventLike.time front).
  - destruct (EventLike.time (last (front :: t) front)); [|discriminate].
    injection H as <-. reflexivity.
  - injection H as <-. reflexivity.
Qed.

Lemma rebuilt_runs (s : TimelineView.t) (P : list EventLike.t -> EventBlock.t -> Prop) :
  (forall run b,
     built_from body_paragraphs run b -> run <> [] -> chained run -> P run b) ->
  exists blocks runs,
    TimelineView.rebuild_blocks body_paragraphs s
    = Returns tt (TimelineView.set_blocks blocks s)
    /\ List.concat runs = event_view s
    /\ Forall2 P runs blocks.
Proof.
  intros HP.
  destruct (rebuild_blocks_runs body_paragraphs s) as (blocks & E & HB).
  exists blocks, (split_runs (event_view s)).
  split; [exact E|]. split; [apply concat_split_runs|].
  pose proof (split_runs_uniform (event_view s)) as Hu.
  pose proof (split_runs_chained (event_view s)) as Hc.
  clear E.
  induction HB as [|run b runs blocks' Hb HB IH]; [constructor|].
  inversion Hu as [|? ? [Hne _] Hu']; subst.
  inversion Hc as [|? ? Hch Hc']; subst.
  constructor; [apply HP; assumption|apply IH; assumption].
Qed.

(** X9.  A block speaks for one sender: after a rebuild that returns,
    the blocks show, one for one and in order, consecutive runs of the
    walked sequence, and every event of a run has the sender the block
    is headed with. *)
Theorem rebuilt_block_one_sender (s s' : TimelineView.t) :
  TimelineView.rebuild_blocks body_paragraphs s = Returns tt s' ->
  exists runs,
    List.concat runs = event_view s
    /\ Forall2
         (fun run b =>
            map EventBlock.id (EventBlock.events_ b) = map EventLike.id run
            /\ Forall (fun e => EventLike.sender e = EventBlock.sender_ b) run)
         runs (TimelineView.blocks_ s').
Proof.
  intros H.
  destruct (@rebuilt_runs s
              (fun run b =>
                 map EventBlock.id (EventBlock.events_ b) = map EventLike.id run
                 /\ Forall (fun e => EventLike.sender e = EventBlock.sender_ b) run))
    as (blocks & runs & E & Hc & HF).
  - intros run b Hb _ Hch. split.
    + apply (built_from_events Hb).
    + destruct (@built_from_header run b Hb) as (front & Hh & ->).
      apply chained_sender; assumption.
  - rewrite H in E. injection E as ->.
    exists runs. split; [exact Hc|exact HF].
Qed.


End BlockProperties.

Lemma rebuilt_block_one_sender_witness :
  exists runs,
    List.concat runs = event_view Sample.stream
    /\ Forall2
         (fun run b =>
            map EventBlock.id (EventBlock.events_ b) = map EventLike.id run
            /\ Forall (fun e => EventLike.sender e = EventBlock.sender_ b) run)
         runs (TimelineView.blocks_ Sample.stream).
Proof.
  apply (@rebuilt_block_one_sender Sample.plain_body Sample.stream Sample.stream).
  vm_compute. reflexivity.
Defined.

(** ** The traversal, region by region *)

Lemma draw_layout_app sel rl painted flag :
  draw_layout sel (painted, flag) rl
  = (painted ++ fst (draw_layout sel ([], flag) rl),
     snd (draw_layout sel ([], flag) rl)).
Proof.
  unfold draw_layout, EventBlock.draw_region.
  destruct (selection_for _ _ _ flag sel _); reflexivity.
Qed.

Lemma fold_draw_layout_app sel (L : list (region * QTextLayout.t)) :
  forall painted flag,
    fold_left (draw_layout sel) L (painted, flag)
    = (painted ++ fst (fold_left (draw_layout sel) L ([], flag)),
       snd (fold_left (draw_layout sel) L ([], flag))).
Proof.
  induction L as [|rl L IH]; intros painted flag; cbn [fold_left].
  - rewrite app_nil_r. reflexivity.
  - rewrite (draw_layout_app sel rl painted flag).
    destruct (draw_layout sel ([], flag) rl) as [dp df]. cbn [fst snd].
    rewrite (IH (painted ++ dp) df), (IH dp df).
    cbn [fst snd]. rewrite app_assoc. reflexivity.
Qed.

Lemma draw_event_layouts sel acc (ev : EventBlock.Event) :
  EventBlock.draw_event sel acc ev
  = fold_left (draw_layout sel) (event_layouts ev) acc.
Proof.
  unfold EventBlock.draw_event, event_layouts.
  rewrite <- fold_left_map. reflexivity.
Qed.

Lemma draw_events_layouts sel (evs : list EventBlock.Event) :
  forall acc,
    fold_left (EventBlock.draw_event sel) evs acc
    = fold_left (draw_layout sel) (flat_map event_layouts evs) acc.
Proof.
  induction evs as [|ev evs IH]; intros acc; [reflexivity|].
  cbn [fold_left flat_map]. rewrite fold_left_app, IH, draw_event_layouts.
  reflexivity.
Qed.

Lemma draw_layouts sel flag (b : EventBlock.t) :
  EventBlock.events_ b <> [] ->
  EventBlock.draw flag sel b
  = Defined_ (fold_left (draw_layout sel) (block_layouts b) ([], flag)).
Proof.
  intros Hne. unfold EventBlock.draw, block_layouts.
  destruct (EventBlock.events_ b) as [|front t] eqn:E; [contradiction|].
  rewrite fold_left_app, <- draw_events_layouts. reflexivity.
Qed.

Lemma paint_blocks_layouts sel (visited : list EventBlock.t) :
  Forall (fun b => EventBlock.events_ b <> []) visited ->
  forall flag,
    TimelineView.paint_blocks sel flag visited
    = Defined_ (fold_left (draw_layout sel) (flat_map block_layouts visited)
                          ([], flag)).
Proof.
  induction 1 as [|b visited Hb _ IH]; intros flag; [reflexivity|].
  cbn [TimelineView.paint_blocks flat_map].
  rewrite (@draw_layouts sel flag b Hb), fold_left_app.
  destruct (fold_left (draw_layout sel) (block_layouts b) ([], flag)) as [bp bf].
  cbn [and_then fst snd]. rewrite IH. cbn [and_then fst snd].
  rewrite (fold_draw_layout_app sel _ bp bf). reflexivity.
Qed.

Lemma layouts_regions (visited : list EventBlock.t) :
  map fst (flat_map block_layouts visited) = flat_map block_regions visited.
Proof.
  induction visited as [|b visited IH]; [reflexivity|].
  cbn [flat_map]. rewrite map_app, IH. f_equal.
  unfold block_layouts, block_regions. rewrite map_app. f_equal.
  - generalize (rev (EventBlock.events_ b)) as evs. intros evs.
    induction evs as [|ev evs IHe]; [reflexivity|].
    cbn [flat_map]. rewrite map_app, IHe. f_equal.
    unfold event_layouts, event_regions. rewrite map_map. reflexivity.
  - destruct (EventBlock.events_ b); reflexivity.
Qed.

Lemma NoDup_two_apart {A B} (f : A -> B) (pre mid post : list A) (x y : A) :
  NoDup (map f (pre ++ x :: mid ++ y :: post)) ->
  f x <> f y
  /\ Forall (fun z => f z <> f x /\ f z <> f y) pre
  /\ Forall (fun z => f z <> f x /\ f z <> f y) mid
  /\ Forall (fun z => f z <> f x /\ f z <> f y) post.
Proof.
  intros Hnd.
  assert (Hx : ~ In (f x) (map f pre ++ map f (mid ++ y :: post))).
  { apply NoDup_remove_2. rewrite map_app in Hnd. exact Hnd. }
  assert (Hy : ~ In (f y) (map f (pre ++ x :: mid) ++ map f post)).
  { apply NoDup_remove_2.
    replace (map f (pre ++ x :: mid) ++ f y :: map f post)
      with (map f (pre ++ x :: mid ++ y :: post)); [exact Hnd|].
    rewrite !map_app. cbn [map]. rewrite map_app, <- app_assoc. reflexivity. }
  rewrite in_app_iff, !in_map_iff in Hx. rewrite in_app_iff, !in_map_iff in Hy.
  split.
  - intros E. apply Hx. right. exists y. split; [symmetry; exact E|].
    apply in_or_app. right. left. reflexivity.
  - split; [|split]; apply Forall_forall; intros z Hz; split; intros E.
    + apply Hx. left. exists z. split; assumption.
    + apply Hy. left. exists z. split; [exact E|]. apply in_or_app. left. exact Hz.
    + apply Hx. right. exists z. split; [exact E|]. apply in_or_app. left. exact Hz.
    + apply Hy. left. exists z. split; [exact E|].
      apply in_or_app. right. right. exact Hz.
    + apply Hx. right. exists z. split; [exact E|].
      apply in_or_app. right. right. exact Hz.
    + apply Hy. right. exists z. split; assumption.
Qed.

Lemma region_eqb_neq (a b : region) : a <> b -> region_eqb a b = false.
Proof.
  intros H. destruct (region_eqb a b) eqn:E; [|reflexivity].
  apply region_eqb_eq in E. contradiction.
Qed.

Lemma cursor_in_layout (c : Cursor.t) (rl : region * QTextLayout.t) :
  cursor_in c (fst (fst (fst rl))) (snd (fst (fst rl))) (snd (fst rl))
  = region_eqb (region_of_cursor c) (fst rl).
Proof. destruct rl as [[[i t] p] l]. reflexivity. Qed.

Section Across.

Variable sel : Selection.t.

Lemma draw_layout_untouched rl painted :
  elsewhere sel rl ->
  draw_layout sel (painted, false) rl = (painted ++ [painted_none rl], false).
Proof.
  intros [Hb He]. unfold draw_layout, EventBlock.draw_region.
  rewrite selection_for_none.
  - destruct rl as [[[i t] p] l]. reflexivity.
  - rewrite cursor_in_layout. apply region_eqb_neq. exact Hb.
  - rewrite cursor_in_layout. apply region_eqb_neq. exact He.
Qed.

Lemma fold_untouched (L : list (region * QTextLayout.t)) :
  Forall (elsewhere sel) L ->
  forall painted,
    fold_left (draw_layout sel) L (painted, false)
    = (painted ++ map painted_none L, false).
Proof.
  induction 1 as [|rl L Hrl _ IH]; intros painted; cbn [fold_left map].
  - rewrite app_nil_r. reflexivity.
  - rewrite (@draw_layout_untouched rl painted Hrl), IH, <- app_assoc. reflexivity.
Qed.

Lemma draw_layout_between rl painted :
  Selection.mode sel <> Selection.WORD ->
  elsewhere sel rl ->
  draw_layout sel (painted, true) rl = (painted ++ [painted_whole rl], true).
Proof.
  intros Hm [Hb He]. unfold draw_layout, EventBlock.draw_region.
  unfold selection_for, selection_bounds.
  rewrite !cursor_in_layout.
  rewrite (region_eqb_neq Hb), (region_eqb_neq He). cbn [andb orb].
  destruct rl as [[[i t] p] l].
  destruct (Selection.mode sel); [reflexivity|contradiction|reflexivity].
Qed.

Lemma fold_between (L : list (region * QTextLayout.t)) :
  Selection.mode sel <> Selection.WORD ->
  Forall (elsewhere sel) L ->
  forall painted,
    fold_left (draw_layout sel) L (painted, true)
    = (painted ++ map painted_whole L, true).
Proof.
  intros Hm. induction 1 as [|rl L Hrl _ IH]; intros painted; cbn [fold_left map].
  - rewrite app_nil_r. reflexivity.
  - rewrite (@draw_layout_between rl painted Hm Hrl), IH, <- app_assoc. reflexivity.
Qed.

(** The region one cursor addresses and the other does not. *)
Lemma draw_layout_endpoint (c c' : Cursor.t) rl painted flag :
  (c = Selection.begin sel /\ c' = Selection.end_ sel)
  \/ (c = Selection.end_ sel /\ c' = Selection.begin sel) ->
  region_of_cursor c = fst rl ->
  region_of_cursor c' <> fst rl ->
  draw_layout sel (painted, flag) rl
  = (painted
     ++ [painted_with (fst rl)
           [affected
              (apply_mode (snd rl) (Selection.mode sel)
                 {| continues := negb flag;
                    affected :=
                      if flag
                      then {| TextRange.start := Z.max 0 (Cursor.pos c);
                              TextRange.length :=
                                int_sub (QTextLayout.size (snd rl))
                                        (Z.max 0 (Cursor.pos c)) |}
                      else {| TextRange.start := 0%Z;
                              TextRange.length :=
                                Z.min (QTextLayout.size (snd rl)) (Cursor.pos c) |}
                 |})]],
     negb flag).
Proof.
  intros Hc Hin Hout. unfold draw_layout, EventBlock.draw_region.
  unfold selection_for, selection_bounds. rewrite !cursor_in_layout.
  assert (Ein : region_eqb (region_of_cursor c) (fst rl) = true)
    by (apply region_eqb_eq; exact Hin).
  pose proof (region_eqb_neq Hout) as Eout.
  destruct rl as [[[i t] p] l]. cbn [fst snd] in *.
  destruct Hc as [[-> ->]|[-> ->]]; rewrite Ein, Eout; cbn [andb orb];
    destruct flag; cbn [negb];
    destruct (Selection.mode sel); reflexivity.
Qed.

End Across.

Lemma elsewhere_apart sel (x y : region * QTextLayout.t) (c c' : Cursor.t)
    (L : list (region * QTextLayout.t)) :
  (c = Selection.begin sel /\ c' = Selection.end_ sel)
  \/ (c = Selection.end_ sel /\ c' = Selection.begin sel) ->
  region_of_cursor c = fst x ->
  region_of_cursor c' = fst y ->
  Forall (fun z => fst z <> fst x /\ fst z <> fst y) L ->
  Forall (elsewhere sel) L.
Proof.
  intros Hc Hx Hy HL. apply Forall_forall. intros z Hz.
  rewrite Forall_forall in HL. destruct (HL z Hz) as [H1 H2].
  unfold elsewhere.
  destruct Hc as [[<- <-]|[<- <-]]; rewrite Hx, Hy; split; congruence.
Qed.

(** A selection from one region to another, not in WORD mode: what the
    traversal paints, with the resolution of the two endpoint regions
    still in terms of the mode. *)
Lemma paint_across sel (visited : list EventBlock.t)
    (pre mid post : list (region * QTextLayout.t)) (x y : region * QTextLayout.t)
    (cx cy : Cursor.t) :
  Selection.mode sel <> Selection.WORD ->
  (cx = Selection.begin sel /\ cy = Selection.end_ sel)
  \/ (cx = Selection.end_ sel /\ cy = Selection.begin sel) ->
  region_of_cursor cx = fst x ->
  region_of_cursor cy = fst y ->
  Forall (fun b => EventBlock.events_ b <> []) visited ->
  NoDup (block_ids visited) ->
  flat_map block_layouts visited = pre ++ x :: mid ++ y :: post ->
  TimelineView.paint_blocks sel false visited
  = Defined_
      (map painted_none pre
       ++ painted_with (fst x)
            [affected
               (apply_mode (snd x) (Selection.mode sel)
                  {| continues := true;
                     affected :=
                       {| TextRange.start := 0%Z;
                          TextRange.length :=
                            Z.min (QTextLayout.size (snd x)) (Cursor.pos cx) |} |})]
       :: map painted_whole mid
       ++ painted_with (fst y)
            [affected
               (apply_mode (snd y) (Selection.mode sel)
                  {| continues := false;
                     affected :=
                       {| TextRange.start := Z.max 0 (Cursor.pos cy);
                          TextRange.length :=
                            int_sub (QTextLayout.size (snd y))
                                    (Z.max 0 (Cursor.pos cy)) |} |})]
       :: map painted_none post,
       false).
Proof.
  intros Hm Hc Hx Hy Hne Hnd Hsplit.
  pose proof (traversal_regions_NoDup visited Hnd) as Hreg.
  rewrite <- layouts_regions, Hsplit in Hreg.
  apply NoDup_two_apart in Hreg. destruct Hreg as (Hxy & Hpre & Hmid & Hpost).
  apply (@elsewhere_apart sel x y cx cy pre Hc Hx Hy) in Hpre.
  apply (@elsewhere_apart sel x y cx cy mid Hc Hx Hy) in Hmid.
  apply (@elsewhere_apart sel x y cx cy post Hc Hx Hy) in Hpost.
  assert (Hc' : (cy = Selection.begin sel /\ cx = Selection.end_ sel)
                \/ (cy = Selection.end_ sel /\ cx = Selection.begin sel))
    by (destruct Hc as [[-> ->]|[-> ->]]; [right|left]; split; reflexivity).
  rewrite (@paint_blocks_layouts sel visited Hne false), Hsplit.
  rewrite fold_left_app, (@fold_untouched sel pre Hpre []).
  cbn [fold_left].
  rewrite (@draw_layout_endpoint sel cx cy x _ false Hc Hx)
    by (rewrite Hy; congruence).
  rewrite fold_left_app. cbn [negb].
  rewrite (@fold_between sel mid Hm Hmid _).
  cbn [fold_left].
  rewrite (@draw_layout_endpoint sel cy cx y _ true Hc' Hy)
    by (rewrite Hx; congruence).
  cbn [negb]. rewrite (@fold_untouched sel post Hpost _).
  cbn [app]. rewrite <- !app_assoc. reflexivity.
Qed.

(** X11.  A selection in CHARACTER mode whose cursors address two
    regions of the traversal: started with nothing selected, the
    traversal highlights nothing in the regions visited before the first
    of the two; that region from its beginning up to its cursor's offset
    (at most to the end of its text); every region between the two as a
    whole; the second from its cursor's offset (at least 0) to the end of
    its text; nothing in the regions after it; and it ends with nothing
    selected. *)
Theorem selection_across_regions (sel : Selection.t)
    (visited : list EventBlock.t)
    (pre mid post : list (region * QTextLayout.t)) (x y : region * QTextLayout.t)
    (cx cy : Cursor.t) :
  Selection.mode sel = Selection.CHARACTER ->
  (cx = Selection.begin sel /\ cy = Selection.end_ sel)
  \/ (cx = Selection.end_ sel /\ cy = Selection.begin sel) ->
  region_of_cursor cx = fst x ->
  region_of_cursor cy = fst y ->
  Forall (fun b => EventBlock.events_ b <> []) visited ->
  NoDup (block_ids visited) ->
  flat_map block_layouts visited = pre ++ x :: mid ++ y :: post ->
  (Cursor.pos cy <= INT_MAX)%Z ->
  (QTextLayout.size (snd y) <= INT_MAX)%Z ->
  TimelineView.paint_blocks sel false visited
  = Defined_
      (map painted_none pre
       ++ painted_with (fst x)
            [{| TextRange.start := 0%Z;
                TextRange.length :=
                  Z.min (QTextLayout.size (snd x)) (Cursor.pos cx) |}]
       :: map painted_whole mid
       ++ painted_with (fst y)
            [{| TextRange.start := Z.max 0 (Cursor.pos cy);
                TextRange.length :=
                  (QTextLayout.size (snd y) - Z.max 0 (Cursor.pos cy))%Z |}]
       :: map painted_none post,
       false).
Proof.
  intros Hm Hc Hx Hy Hne Hnd Hsplit Hpos Hsize.
  assert (Hm' : Selection.mode sel <> Selection.WORD)
    by (rewrite Hm; discriminate).
  rewrite (@paint_across sel visited pre mid post x y cx cy
             Hm' Hc Hx Hy Hne Hnd Hsplit).
  rewrite Hm. cbn [apply_mode affected].
  unfold int_sub. rewrite wrap_int_small; [reflexivity|].
  pose proof (size_nonneg (snd y)). unfold INT_MAX in *. lia.
Qed.

Lemma selection_across_regions_witness :
  TimelineView.paint_blocks Sample2.across false
    (rev (TimelineView.blocks_ Sample.stream))
  = Defined_
      ([painted_with (3%N, Cursor.BODY, 0%N) [];
        painted_with (2%N, Cursor.BODY, 0%N)
          [{| TextRange.start := 0%Z; TextRange.length := 2%Z |}];
        painted_with (2%N, Cursor.TIMESTAMP, 0%N)
          [{| TextRange.start := 0%Z; TextRange.length := 0%Z |}];
        painted_with (2%N, Cursor.NAME, 0%N)
          [{| TextRange.start := 0%Z; TextRange.length := 4%Z |}];
        painted_with (1%N, Cursor.BODY, 0%N)
          [{| TextRange.start := 0%Z; TextRange.length := 5%Z |}];
        painted_with (0%N, Cursor.BODY, 0%N)
          [{| TextRange.start := 1%Z; TextRange.length := 1%Z |}];
        painted_with (0%N, Cursor.TIMESTAMP, 0%N) [];
        painted_with (0%N, Cursor.NAME, 0%N) []],
       false).
Proof.
  apply (@selection_across_regions Sample2.across
           (rev (TimelineView.blocks_ Sample.stream))
           [((3%N, Cursor.BODY, 0%N), {| QTextLayout.text := "sent" |})]
           [((2%N, Cursor.TIMESTAMP, 0%N), {| QTextLayout.text := "" |});
            ((2%N, Cursor.NAME, 0%N), {| QTextLayout.text := "@b:x" |});
            ((1%N, Cursor.BODY, 0%N), {| QTextLayout.text := "there" |})]
           [((0%N, Cursor.TIMESTAMP, 0%N), {| QTextLayout.text := "" |});
            ((0%N, Cursor.NAME, 0%N), {| QTextLayout.text := "@a:x" |})]
           ((2%N, Cursor.BODY, 0%N), {| QTextLayout.text := "hello" |})
           ((0%N, Cursor.BODY, 0%N), {| QTextLayout.text := "hi" |})
           (Selection.end_ Sample2.across) (Selection.begin Sample2.across)).
  - reflexivity.
  - right. split; reflexivity.
  - reflexivity.
  - reflexivity.
  - vm_compute. repeat (constructor; [discriminate|]). constructor.
  - vm_compute.
    repeat (constructor; [simpl; intuition discriminate|]). constructor.
  - vm_compute. reflexivity.
  - vm_compute. discriminate.
  - vm_compute. discriminate.
Defined.

(** X12.  A selection in PARAGRAPH mode whose cursors address two
    regions of the traversal: the two regions and every region between
    them are highlighted as a whole, whatever the offsets of the cursors;
    nothing is highlighted before the first or after the second. *)
Theorem paragraph_selection_across_regions (sel : Selection.t)
    (visited : list EventBlock.t)
    (pre mid post : list (region * QTextLayout.t)) (x y : region * QTextLayout.t) :
  Selection.mode sel = Selection.PARAGRAPH ->
  (region_of_cursor (Selection.begin sel) = fst x
   /\ region_of_cursor (Selection.end_ sel) = fst y)
  \/ (region_of_cursor (Selection.end_ sel) = fst x
      /\ region_of_cursor (Selection.begin sel) = fst y) ->
  Forall (fun b => EventBlock.events_ b <> []) visited ->
  NoDup (block_ids visited) ->
  flat_map block_layouts visited = pre ++ x :: mid ++ y :: post ->
  TimelineView.paint_blocks sel false visited
  = Defined_
      (map painted_none pre
       ++ map painted_whole (x :: mid ++ [y])
       ++ map painted_none post,
       false).
Proof.
  intros Hm Hc Hne Hnd Hsplit.
  assert (Hm' : Selection.mode sel <> Selection.WORD)
    by (rewrite Hm; discriminate).
  assert (Hcs : exists cx cy,
             ((cx = Selection.begin sel /\ cy = Selection.end_ sel)
              \/ (cx = Selection.end_ sel /\ cy = Selection.begin sel))
             /\ region_of_cursor cx = fst x /\ region_of_cursor cy = fst y).
  { destruct Hc as [[Hx Hy]|[Hx Hy]].
    - exists (Selection.begin sel), (Selection.end_ sel). auto.
    - exists (Selection.end_ sel), (Selection.begin sel). auto. }
  destruct Hcs as (cx & cy & Hc' & Hx & Hy).
  rewrite (@paint_across sel visited pre mid post x y cx cy
             Hm' Hc' Hx Hy Hne Hnd Hsplit).
  rewrite Hm. cbn [apply_mode affected map].
  rewrite map_app. cbn [map app]. rewrite <- app_assoc. reflexivity.
Qed.

Lemma paragraph_selection_across_regions_witness :
  exists painted,
    TimelineView.paint_blocks
      {| Selection.begin := Cursor.body 1%N 0%N 3%Z;
         Selection.end_ := Cursor.body 2%N 0%N 0%Z;
         Selection.mode := Selection.PARAGRAPH |}
      false (rev (TimelineView.blocks_ Sample.stream))
    = Defined_ (painted, false)
    /\ map EventBlock.selections painted
       = [[];
          [{| TextRange.start := 0%Z; TextRange.length := 5%Z |}];
          [{| TextRange.start := 0%Z; TextRange.length := 0%Z |}];
          [{| TextRange.start := 0%Z; TextRange.length := 4%Z |}];
          [{| TextRange.start := 0%Z; TextRange.length := 5%Z |}];
          []; []; []].
Proof.
  eexists. split.
  - apply (@paragraph_selection_across_regions
             {| Selection.begin := Cursor.body 1%N 0%N 3%Z;
                Selection.end_ := Cursor.body 2%N 0%N 0%Z;
                Selection.mode := Selection.PARAGRAPH |}
             (rev (TimelineView.blocks_ Sample.stream))
             [((3%N, Cursor.BODY, 0%N), {| QTextLayout.text := "sent" |})]
             [((2%N, Cursor.TIMESTAMP, 0%N), {| QTextLayout.text := "" |});
              ((2%N, Cursor.NAME, 0%N), {| QTextLayout.text := "@b:x" |})]
             [((0%N, Cursor.BODY, 0%N), {| QTextLayout.text := "hi" |});
              ((0%N, Cursor.TIMESTAMP, 0%N), {| QTextLayout.text := "" |});
              ((0%N, Cursor.NAME, 0%N), {| QTextLayout.text := "@a:x" |})]
             ((2%N, Cursor.BODY, 0%N), {| QTextLayout.text := "hello" |})
             ((1%N, Cursor.BODY, 0%N), {| QTextLayout.text := "there" |})).
    + reflexivity.
    + right. split; reflexivity.
    + vm_compute. repeat (constructor; [discriminate|]). constructor.
    + vm_compute.
      repeat (constructor; [simpl; intuition discriminate|]). constructor.
    + vm_compute. reflexivity.
  - reflexivity.
Defined.

(** ** The text of a selection and what is painted *)

Lemma flags_fold {A B X} (F : A * bool -> X -> A * bool)
    (G : B * bool -> X -> B * bool) :
  (forall a b flag x, snd (F (a, flag) x) = snd (G (b, flag) x)) ->
  forall l a b flag,
    snd (fold_left F l (a, flag)) = snd (fold_left G l (b, flag)).
Proof.
  intros Hstep. induction l as [|x l IH]; intros a b flag; [reflexivity|].
  cbn [fold_left]. specialize (Hstep a b flag x).
  destruct (F (a, flag) x) as [a' f'], (G (b, flag) x) as [b' g'].
  cbn [snd] in Hstep. subst g'. apply IH.
Qed.

Lemma selection_text_paragraph_flag id0 paragraph index sel result painted flag :
  snd (selection_text_paragraph id0 paragraph index sel (result, flag))
  = snd (EventBlock.draw_region id0 Cursor.BODY paragraph index sel (painted, flag)).
Proof.
  unfold selection_text_paragraph, EventBlock.draw_region.
  destruct (selection_for id0 Cursor.BODY paragraph flag sel index); reflexivity.
Qed.

Lemma selection_text_event_flag sel ev result painted flag :
  snd (selection_text_event sel (result, flag) ev)
  = snd (EventBlock.draw_event sel (painted, flag) ev).
Proof.
  unfold selection_text_event, EventBlock.draw_event.
  apply flags_fold. intros a b f ip. apply selection_text_paragraph_flag.
Qed.

Lemma selection_text_header_flag id0 ty layout sel painted flag :
  snd (selection_text_header id0 ty layout sel flag)
  = snd (EventBlock.draw_region id0 ty layout 0%N sel (painted, flag)).
Proof.
  unfold selection_text_header, EventBlock.draw_region.
  destruct (selection_for id0 ty layout flag sel 0%N); reflexivity.
Qed.

Lemma selection_text_block_flag sel flag (b : EventBlock.t) :
  match EventBlock.draw flag sel b, EventBlock_selection_text flag sel b with
  | Defined_ p, Defined_ r => snd p = continues_above r
  | Undef u, Undef u' => u = u'
  | _, _ => False
  end.
Proof.
  unfold EventBlock.draw, EventBlock_selection_text.
  pose proof (@flags_fold _ _ _ (selection_text_event sel) (EventBlock.draw_event sel)
                (fun a b f ev => @selection_text_event_flag sel ev a b f)
                (rev (EventBlock.events_ b)) ""%string [] flag) as Hf.
  destruct (fold_left (selection_text_event sel) (rev (EventBlock.events_ b))
                      (""%string, flag)) as [result f1].
  destruct (fold_left (EventBlock.draw_event sel) (rev (EventBlock.events_ b))
                      ([], flag)) as [painted f1'].
  cbn [snd] in Hf. subst f1'.
  destruct (EventBlock.events_ b) as [|front t]; [reflexivity|].
  pose proof (@selection_text_header_flag (EventBlock.id front) Cursor.TIMESTAMP
                (EventBlock.timestamp_ b) sel painted f1) as Ht.
  destruct (selection_text_header (EventBlock.id front) Cursor.TIMESTAMP
              (EventBlock.timestamp_ b) sel f1) as [timestamp f2].
  destruct (EventBlock.draw_region (EventBlock.id front) Cursor.TIMESTAMP
              (EventBlock.timestamp_ b) 0%N sel (painted, f1)) as [painted2 f2'].
  cbn [snd] in Ht. subst f2'.
  pose proof (@selection_text_header_flag (EventBlock.id front) Cursor.NAME
                (EventBlock.name_ b) sel painted2 f2) as Hn.
  destruct (selection_text_header (EventBlock.id front) Cursor.NAME
              (EventBlock.name_ b) sel f2) as [name f3].
  destruct (EventBlock.draw_region (EventBlock.id front) Cursor.NAME
              (EventBlock.name_ b) 0%N sel (painted2, f2)) as [painted3 f3'].
  cbn [snd] in Hn. subst f3'. reflexivity.
Qed.

(** X13.  Copying follows painting: over the same blocks, from the same
    flag, the loop of [selection_text] and the loop of [paintEvent] end
    with the same flag, and one has undefined behaviour exactly where the
    other has, for every selection and whatever text was gathered
    before. *)
Theorem selection_text_follows_paint (sel : Selection.t)
    (visited : list EventBlock.t) :
  forall (selecting : bool) (result : string),
    match TimelineView.paint_blocks sel selecting visited,
          selection_text_blocks sel (result, selecting) visited with
    | Defined_ p, Defined_ t => snd p = snd t
    | Undef u, Undef u' => u = u'
    | _, _ => False
    end.
Proof.
  induction visited as [|b visited IH]; intros selecting result; [reflexivity|].
  cbn [TimelineView.paint_blocks selection_text_blocks fst snd].
  pose proof (selection_text_block_flag sel selecting b) as Hb.
  destruct (EventBlock.draw selecting sel b) as [p|u],
           (EventBlock_selection_text selecting sel b) as [r|u'];
    try contradiction; cbn [and_then]; [|exact Hb].
  rewrite Hb.
  match goal with
  | |- context [selection_text_blocks sel (?res, _) visited] =>
      specialize (IH (continues_above r) res)
  end.
  destruct (TimelineView.paint_blocks sel (continues_above r) visited) as [p'|u],
           (selection_text_blocks sel _ visited) as [t|u'];
    try contradiction; cbn [and_then snd]; exact IH.
Qed.

(** *** The text, region by region *)

Lemma selection_text_event_layouts sel acc (ev : EventBlock.Event) :
  selection_text_event sel acc ev
  = fold_left (text_layout sel) (event_layouts ev) acc.
Proof.
  unfold selection_text_event, event_layouts.
  rewrite <- fold_left_map. reflexivity.
Qed.

Lemma selection_text_events_layouts sel (evs : list EventBlock.Event) :
  forall acc,
    fold_left (selection_text_event sel) evs acc
    = fold_left (text_layout sel) (flat_map event_layouts evs) acc.
Proof.
  induction evs as [|ev evs IH]; intros acc; [reflexivity|].
  cbn [fold_left flat_map].
  rewrite fold_left_app, IH, selection_text_event_layouts. reflexivity.
Qed.

Lemma body_layouts_type (evs : list EventBlock.Event) :
  Forall (fun rl : region * QTextLayout.t => snd (fst (fst rl)) = Cursor.BODY)
         (flat_map event_layouts evs).
Proof.
  apply Forall_forall. intros rl H. apply in_flat_map in H.
  destruct H as (ev & _ & H). unfold event_layouts in H.
  apply in_map_iff in H. destruct H as (ip & <- & _). reflexivity.
Qed.

Lemma text_layout_miss sel rl result :
  snd (fst (fst rl)) = Cursor.BODY ->
  elsewhere sel rl ->
  text_layout sel (result, false) rl = (result, false).
Proof.
  intros Hty [Hb He]. unfold text_layout, selection_text_paragraph.
  rewrite <- Hty. rewrite selection_for_none; [reflexivity| |].
  - rewrite cursor_in_layout. apply region_eqb_neq. exact Hb.
  - rewrite cursor_in_layout. apply region_eqb_neq. exact He.
Qed.

Lemma text_fold_miss sel (L : list (region * QTextLayout.t)) :
  Forall (fun rl : region * QTextLayout.t => snd (fst (fst rl)) = Cursor.BODY) L ->
  Forall (elsewhere sel) L ->
  forall result,
    fold_left (text_layout sel) L (result, false) = (result, false).
Proof.
  induction 1 as [|rl L Hty _ IH]; intros Hel result; [reflexivity|].
  inversion Hel as [|? ? Hrl Hel']; subst.
  cbn [fold_left]. rewrite (@text_layout_miss sel rl result Hty Hrl).
  apply IH. exact Hel'.
Qed.

Lemma selection_text_header_miss sel id0 ty layout :
  elsewhere sel ((id0, ty, 0%N), layout) ->
  selection_text_header id0 ty layout sel false = (""%string, false).
Proof.
  intros [Hb He]. unfold selection_text_header.
  rewrite selection_for_none; [reflexivity| |].
  - rewrite cursor_in_region. apply region_eqb_neq. exact Hb.
  - rewrite cursor_in_region. apply region_eqb_neq. exact He.
Qed.

Lemma block_text_miss sel (b : EventBlock.t) :
  EventBlock.events_ b <> [] ->
  Forall (elsewhere sel) (block_layouts b) ->
  EventBlock_selection_text false sel b
  = Defined_ {| fragment := ""; continues_above := false |}.
Proof.
  intros Hne Hel. unfold EventBlock_selection_text, block_layouts in *.
  apply Forall_app in Hel. destruct Hel as [Hbody Hhead].
  rewrite selection_text_events_layouts.
  rewrite (@text_fold_miss sel _ (body_layouts_type _) Hbody).
  destruct (EventBlock.events_ b) as [|front t]; [contradiction|].
  inversion Hhead as [|? ? Ht Hhead']; subst.
  inversion Hhead' as [|? ? Hn _]; subst.
  rewrite (@selection_text_header_miss sel _ _ _ Ht).
  rewrite (@selection_text_header_miss sel _ _ _ Hn).
  reflexivity.
Qed.

Lemma blocks_text_miss sel (visited : list EventBlock.t) :
  Forall (fun b => EventBlock.events_ b <> []) visited ->
  Forall (elsewhere sel) (flat_map block_layouts visited) ->
  forall result,
    selection_text_blocks sel (result, false) visited = Defined_ (result, false).
Proof.
  induction 1 as [|b visited Hb _ IH]; intros Hel result; [reflexivity|].
  cbn [flat_map] in Hel. apply Forall_app in Hel. destruct Hel as [Hel1 Hel2].
  cbn [selection_text_blocks snd fst].
  rewrite (@block_text_miss sel b Hb Hel1). cbn [and_then fragment continues_above].
  cbn [QString.isEmpty negb]. apply IH. exact Hel2.
Qed.

Lemma Forall_flat_map_rev {A B} (P : B -> Prop) (f : A -> list B) (l : list A) :
  Forall P (flat_map f l) -> Forall P (flat_map f (rev l)).
Proof.
  rewrite !Forall_forall. intros H x Hx. apply H.
  apply in_flat_map in Hx. destruct Hx as (a & Ha & Hx).
  apply in_flat_map. exists a. split; [apply in_rev; exact Ha|exact Hx].
Qed.

Lemma Forall_rev_in {A} (P : A -> Prop) (l : list A) :
  Forall P l -> Forall P (rev l).
Proof.
  rewrite !Forall_forall. intros H x Hx. apply H. apply in_rev. exact Hx.
Qed.

(** X14.  A selection neither cursor of which addresses a region of
    the blocks, in any mode: nothing is highlighted, the selection text
    is empty, and copying leaves the clipboard alone. *)
Theorem unaddressed_selection_copies_nothing (sel : Selection.t)
    (s : TimelineView.t) :
  Forall (fun b => EventBlock.events_ b <> []) (TimelineView.blocks_ s) ->
  Forall (elsewhere sel) (flat_map block_layouts (TimelineView.blocks_ s)) ->
  TimelineView.paint_blocks sel false (rev (TimelineView.blocks_ s))
  = Defined_ (map painted_none
                (flat_map block_layouts (rev (TimelineView.blocks_ s))), false)
  /\ TimelineView_selection_text sel s = Defined_ ""%string
  /\ TimelineView_copy sel s = Defined_ None.
Proof.
  intros Hne Hel.
  apply Forall_rev_in in Hne. apply Forall_flat_map_rev in Hel.
  assert (Ht : TimelineView_selection_text sel s = Defined_ ""%string).
  { unfold TimelineView_selection_text.
    rewrite (@blocks_text_miss sel _ Hne Hel ""%string). reflexivity. }
  split; [|split].
  - rewrite (@paint_blocks_layouts sel _ Hne false).
    rewrite (@fold_untouched sel _ Hel []). reflexivity.
  - exact Ht.
  - unfold TimelineView_copy. rewrite Ht. reflexivity.
Qed.

Lemma unaddressed_selection_copies_nothing_witness :
  TimelineView_selection_text Sample.stale Sample.stream = Defined_ ""%string
  /\ TimelineView_copy Sample.stale Sample.stream = Defined_ None.
Proof.
  destruct (@unaddressed_selection_copies_nothing Sample.stale Sample.stream)
    as (_ & Ht & Hc).
  - vm_compute. repeat (constructor; [discriminate|]). constructor.
  - vm_compute.
    repeat (constructor; [split; discriminate|]). constructor.
  - split; [exact Ht|exact Hc].
Defined.

Lemma NoDup_hit_rest {A B} (L : list (A * B)) (r : A) (l : B) :
  NoDup (map fst L) -> In (r, l) L ->
  exists pre post,
    L = pre ++ (r, l) :: post
    /\ Forall (fun z => fst z <> r) pre
    /\ Forall (fun z => fst z <> r) post.
Proof.
  intros Hnd Hin. apply in_split in Hin. destruct Hin as (pre & post & ->).
  exists pre, post. split; [reflexivity|].
  rewrite map_app in Hnd. cbn [map fst] in Hnd.
  apply NoDup_remove_2 in Hnd. rewrite in_app_iff, !in_map_iff in Hnd.
  split; apply Forall_forall; intros z Hz E; apply Hnd; [left|right];
    exists z; split; assumption.
Qed.

Section InsideText.

Variable sel : Selection.t.
Variable l : QTextLayout.t.
Hypothesis character_mode : Selection.mode sel = Selection.CHARACTER.
Hypothesis same_region :
  region_of_cursor (Selection.begin sel) = region_of_cursor (Selection.end_ sel).
Hypothesis offsets_apart :
  (Z.abs (Cursor.pos (Selection.begin sel) - Cursor.pos (Selection.end_ sel))
   <= INT_MAX)%Z.
Hypothesis in_body : Cursor.type (Selection.begin sel) = Cursor.BODY.

Lemma elsewhere_inside (L : list (region * QTextLayout.t)) :
  Forall (fun z => fst z <> (region_of_cursor (Selection.begin sel))) L -> Forall (elsewhere sel) L.
Proof.
  intros H. apply Forall_forall. intros z Hz. rewrite Forall_forall in H.
  specialize (H z Hz). unfold elsewhere. rewrite <- same_region.
  split; congruence.
Qed.

Lemma text_layout_hit r result :
  r = (region_of_cursor (Selection.begin sel)) ->
  text_layout sel (result, false) (r, l) = (inside_text sel l result, false).
Proof.
  intros ->. unfold text_layout, selection_text_paragraph. cbn [fst snd].
  rewrite <- in_body.
  rewrite (@selection_for_inside sel character_mode same_region offsets_apart)
    by (apply region_eqb_eq; reflexivity).
  reflexivity.
Qed.

Lemma text_fold_hit (L : list (region * QTextLayout.t)) :
  Forall (fun rl : region * QTextLayout.t => snd (fst (fst rl)) = Cursor.BODY) L ->
  NoDup (map fst L) ->
  In ((region_of_cursor (Selection.begin sel)), l) L ->
  forall result,
    fold_left (text_layout sel) L (result, false) = (inside_text sel l result, false).
Proof.
  intros Hty Hnd Hin result.
  destruct (NoDup_hit_rest L (region_of_cursor (Selection.begin sel)) l Hnd Hin) as (pre & post & -> & Hpre & Hpost).
  apply Forall_app in Hty. destruct Hty as [Hty1 Hty2].
  inversion Hty2 as [|? ? _ Hty3]; subst.
  rewrite fold_left_app.
  rewrite (@text_fold_miss sel pre Hty1 (elsewhere_inside Hpre)).
  cbn [fold_left]. rewrite (@text_layout_hit (region_of_cursor (Selection.begin sel)) result eq_refl).
  apply (@text_fold_miss sel post Hty3 (elsewhere_inside Hpost)).
Qed.

Lemma block_text_hit (b : EventBlock.t) :
  EventBlock.events_ b <> [] ->
  NoDup (map fst (block_layouts b)) ->
  In ((region_of_cursor (Selection.begin sel)), l) (block_layouts b) ->
  EventBlock_selection_text false sel b
  = Defined_ {| fragment := inside_text sel l ""; continues_above := false |}.
Proof.
  intros Hne Hnd Hin. unfold EventBlock_selection_text, block_layouts in *.
  destruct (EventBlock.events_ b) as [|front t] eqn:Eev; [contradiction|].
  rewrite map_app in Hnd.
  assert (Hhead : forall ty layout,
             ty <> Cursor.BODY ->
             elsewhere sel ((EventBlock.id front, ty, 0%N), layout)).
  { intros ty layout Hty. unfold elsewhere. rewrite <- same_region. cbn [fst].
    split; intros E; apply Hty; rewrite <- in_body;
      unfold region_of_cursor in E; injection E as _ E _; symmetry; exact E. }
  apply in_app_or in Hin. destruct Hin as [Hin|Hin].
  - rewrite selection_text_events_layouts.
    rewrite (@text_fold_hit _ (body_layouts_type _) (NoDup_app_remove_r _ _ Hnd) Hin).
    rewrite (@selection_text_header_miss sel _ Cursor.TIMESTAMP _
               (Hhead Cursor.TIMESTAMP _ ltac:(discriminate))).
    rewrite (@selection_text_header_miss sel _ Cursor.NAME _
               (Hhead Cursor.NAME _ ltac:(discriminate))).
    reflexivity.
  - exfalso.
    destruct Hin as [E|[E|[]]]; injection E as _ E _;
      unfold region_of_cursor in E; cbn [fst snd] in E;
      rewrite in_body in E; discriminate.
Qed.

Lemma blocks_text_hit (visited : list EventBlock.t) :
  Forall (fun b => EventBlock.events_ b <> []) visited ->
  NoDup (map fst (flat_map block_layouts visited)) ->
  In ((region_of_cursor (Selection.begin sel)), l) (flat_map block_layouts visited) ->
  selection_text_blocks sel (""%string, false) visited
  = Defined_ (inside_text sel l "", false).
Proof.
  induction 1 as [|b visited Hb Hne IH]; intros Hnd Hin; [contradiction|].
  cbn [flat_map] in Hnd, Hin. cbn [selection_text_blocks fst snd].
  rewrite map_app in Hnd.
  apply in_app_or in Hin. destruct Hin as [Hin|Hin].
  - rewrite (@block_text_hit b Hb (NoDup_app_remove_r _ _ Hnd) Hin).
    cbn [and_then fragment continues_above].
    apply blocks_text_miss; [exact Hne|].
    apply elsewhere_inside. apply Forall_forall. intros z Hz E.
    apply (NoDup_app_disjoint _ _ (region_of_cursor (Selection.begin sel)) Hnd).
    + apply in_map_iff. exists ((region_of_cursor (Selection.begin sel)), l). split; [reflexivity|exact Hin].
    + apply in_map_iff. exists z. split; assumption.
  - assert (Hmiss : Forall (elsewhere sel) (block_layouts b)).
    { apply elsewhere_inside. apply Forall_forall. intros z Hz E.
      apply (NoDup_app_disjoint _ _ (region_of_cursor (Selection.begin sel)) Hnd).
      - apply in_map_iff. exists z. split; assumption.
      - apply in_map_iff. exists ((region_of_cursor (Selection.begin sel)), l). split; [reflexivity|exact Hin]. }
    rewrite (@block_text_miss sel b Hb Hmiss).
    cbn [and_then fragment continues_above QString.isEmpty negb].
    apply IH; [apply NoDup_app_remove_l in Hnd; exact Hnd|exact Hin].
Qed.

End InsideText.

Lemma NoDup_block_ids_rev (blocks : list EventBlock.t) :
  NoDup (block_ids blocks) -> NoDup (block_ids (rev blocks)).
Proof.
  unfold block_ids. apply Permutation_NoDup.
  apply Permutation_flat_map. apply Permutation_rev.
Qed.

(** X15.  A selection in CHARACTER mode with both cursors in one body
    paragraph that the blocks show: the selection text is a space, the
    part of the paragraph's text between the two offsets, and a line
    feed; nothing of any other region, no name and no timestamp.  It is
    never empty, so copying puts it on the clipboard, also when the two
    offsets are equal. *)
Theorem selection_text_inside_paragraph (sel : Selection.t)
    (s : TimelineView.t) (l : QTextLayout.t) :
  Selection.mode sel = Selection.CHARACTER ->
  region_of_cursor (Selection.begin sel) = region_of_cursor (Selection.end_ sel) ->
  Cursor.type (Selection.begin sel) = Cursor.BODY ->
  (Z.abs (Cursor.pos (Selection.begin sel) - Cursor.pos (Selection.end_ sel))
   <= INT_MAX)%Z ->
  Forall (fun b => EventBlock.events_ b <> []) (TimelineView.blocks_ s) ->
  NoDup (block_ids (TimelineView.blocks_ s)) ->
  In (region_of_cursor (Selection.begin sel), l)
     (flat_map block_layouts (TimelineView.blocks_ s)) ->
  let text :=
    (" " ++ QString.mid (QTextLayout.text l)
              (Z.min (Cursor.pos (Selection.begin sel))
                     (Cursor.pos (Selection.end_ sel)))
              (Z.abs (Cursor.pos (Selection.begin sel)
                      - Cursor.pos (Selection.end_ sel)))
         ++ String "010"%char "")%string in
  TimelineView_selection_text sel s = Defined_ text
  /\ TimelineView_copy sel s = Defined_ (Some text).
Proof.
  intros Hm Hsame Hbody Hoff Hne Hnd Hin text.
  apply Forall_rev_in in Hne. apply NoDup_block_ids_rev in Hnd.
  apply traversal_regions_NoDup in Hnd. rewrite <- layouts_regions in Hnd.
  assert (Hin' : In (region_of_cursor (Selection.begin sel), l)
                    (flat_map block_layouts (rev (TimelineView.blocks_ s)))).
  { apply in_flat_map in Hin. destruct Hin as (b & Hb & Hin).
    apply in_flat_map. exists b. split; [apply in_rev in Hb; exact Hb|exact Hin]. }
  assert (Ht : TimelineView_selection_text sel s = Defined_ text).
  { unfold TimelineView_selection_text.
    rewrite (@blocks_text_hit sel l Hm Hsame Hoff Hbody _ Hne Hnd Hin').
    reflexivity. }
  split; [exact Ht|].
  unfold TimelineView_copy. rewrite Ht. reflexivity.
Qed.

Lemma selection_text_inside_paragraph_witness :
  TimelineView_copy Sample.inside Sample.stream
  = Defined_ (Some (" her" ++ String "010"%char "")%string).
Proof.
  apply (@selection_text_inside_paragraph Sample.inside Sample.stream
           {| QTextLayout.text := "there" |}).
  - reflexivity.
  - reflexivity.
  - reflexivity.
  - vm_compute. discriminate.
  - vm_compute. repeat (constructor; [discriminate|]). constructor.
  - vm_compute.
    repeat (constructor; [simpl; intuition discriminate|]). constructor.
  - vm_compute. tauto.
Defined.

(** ** The profile a block is headed with *)

Lemma string_app_nil_r (s : string) : (s ++ "")%string = s.
Proof. induction s as [|c s IH]; simpl; [reflexivity|rewrite IH; reflexivity]. Qed.

(** X16.  A membership event about its own sender, who is not in the
    room: the record built from it takes the profile from the event's own
    content, so a block headed by it is named by the display name the
    event sets, or by the sender's identifier if it sets none, without a
    disambiguation. *)
Theorem newcomer_profile (id0 : TimelineEventID) (state : matrix.RoomState)
    (real : matrix.Room) :
  matrix.Room_type real = matrix.Member_tag ->
  matrix.Room_user real = matrix.Room_sender real ->
  matrix.member_from_id state (matrix.Room_sender real) = None ->
  EventLike.effective_profile (EventLike.of_room id0 state real)
  = Some (matrix.Room_content real)
  /\ EventBlock.name_text (EventLike.of_room id0 state real)
     = match matrix.displayname (matrix.Room_content real) with
       | Some d => d
       | None => matrix.Room_sender real
       end.
Proof.
  intros Hty Huser Hmember.
  assert (Hp : EventLike.effective_profile (EventLike.of_room id0 state real)
               = Some (matrix.Room_content real)).
  { unfold EventLike.effective_profile, EventLike.of_room, EventLike.set_event,
      EventLike.make, EventLike.get_affected_user.
    cbn [EventLike.affected_user_info EventLike.sender EventLike.content
         EventLike.member_content EventLike.user EventLike.prev_content].
    rewrite Hty, Huser, Hmember. cbn [negb].
    change (String.eqb matrix.Member_tag matrix.Member_tag) with true.
    cbn [negb EventLike.user EventLike.prev_content].
    rewrite Hmember, String.eqb_refl. reflexivity. }
  split; [exact Hp|].
  unfold EventBlock.name_text. rewrite Hp.
  unfold EventLike.of_room, EventLike.set_event, EventLike.make.
  cbn [EventLike.disambiguation EventLike.sender]. rewrite Hmember.
  apply string_app_nil_r.
Qed.

Lemma newcomer_profile_witness :
  EventBlock.name_text (EventLike.of_room 4%N Sample.room_state Sample2.join)
  = "Newcomer"%string.
Proof.
  apply (@newcomer_profile 4%N Sample.room_state Sample2.join); reflexivity.
Defined.

(** X17.  An event whose sender is in the room, neither as one who
    left nor as one who is banned: whatever the event is, the record
    takes the profile the room state has for the sender, and a block
    headed by it is named by that profile's display name, or by the
    sender's identifier, followed by the disambiguation of the room state
    in brackets if there is one. *)
Theorem present_member_profile (id0 : TimelineEventID) (state : matrix.RoomState)
    (real : matrix.Room) (m : matrix.MemberContent) :
  matrix.member_from_id state (matrix.Room_sender real) = Some m ->
  matrix.membership m <> Some matrix.LEAVE ->
  matrix.membership m <> Some matrix.BAN ->
  EventLike.effective_profile (EventLike.of_room id0 state real) = Some m
  /\ EventBlock.name_text (EventLike.of_room id0 state real)
     = ((match matrix.displayname m with
         | Some d => d
         | None => matrix.Room_sender real
         end)
        ++ (match matrix.member_disambiguation state (matrix.Room_sender real) with
            | Some d => " (" ++ d ++ ")"
            | None => ""
            end))%string.
Proof.
  intros Hmember Hleave Hban.
  assert (Hp : EventLike.effective_profile (EventLike.of_room id0 state real)
               = Some m).
  { unfold EventLike.effective_profile, EventLike.of_room, EventLike.set_event,
      EventLike.make.
    cbn [EventLike.affected_user_info EventLike.sender EventLike.content
         EventLike.member_content].
    rewrite Hmember.
    destruct (EventLike.get_affected_user real) as [u|]; [|reflexivity].
    cbn [EventLike.user EventLike.prev_content].
    destruct (String.eqb u (matrix.Room_sender real)) eqn:E; [|reflexivity].
    apply String.eqb_eq in E. subst u. rewrite Hmember.
    destruct (matrix.membership m) as [[| | |]|]; try reflexivity; congruence. }
  split; [exact Hp|].
  unfold EventBlock.name_text. rewrite Hp.
  unfold EventLike.of_room, EventLike.set_event, EventLike.make.
  cbn [EventLike.disambiguation EventLike.sender]. rewrite Hmember.
  reflexivity.
Qed.

Lemma present_member_profile_witness :
  EventBlock.name_text
    (EventLike.of_room 0%N
       {| matrix.member_from_id :=
            fun _ => Some [("membership", "join"); ("displayname", "Ann")]%string;
          matrix.member_disambiguation := fun u => Some u |}
       (Sample.message "$1" "@a:x" 1000 "hi" None))
  = "Ann (@a:x)"%string.
Proof.
  apply (@present_member_profile 0%N
           {| matrix.member_from_id :=
                fun _ => Some [("membership", "join"); ("displayname", "Ann")]%string;
              matrix.member_disambiguation := fun u => Some u |}
           (Sample.message "$1" "@a:x" 1000 "hi" None)
           [("membership", "join"); ("displayname", "Ann")]%string).
  - reflexivity.
  - vm_compute. discriminate.
  - vm_compute. discriminate.
Defined.
